(** * Quick-add parser (src/parsers/quickAddRu.ts): a shallow embedding

    The parser is a pipeline of regular-expression stages over a text buffer
    and a patch object, followed by date arithmetic on JavaScript [Date]s.
    The development has four layers, and on top of them the caller of the
    parser, the webhook route, with the methods of the Vikunja client it
    uses (the server is a state that their calls pass along):

    - JavaScript strings as sequences of UTF-16 code units, with the string
      methods the parser calls;
    - a backtracking matcher for the regular-expression constructs that
      occur in the source, with the semantics ECMAScript gives them when
      the pattern has the [i] flag and no [u] flag;
    - [Date] time values with the [date-fns] helpers the parser imports,
      for a process that runs with [TZ=UTC] (as the test suite requires);
    - [parseQuickAddRu] itself, stage by stage.  *)

From Stdlib Require Import ZArith NArith List Bool Lia Ascii String.
Import ListNotations.

Set Implicit Arguments.

(* ================================================================== *)
(** ** JavaScript strings *)
(* ================================================================== *)

Module JsString.

Local Open Scope N_scope.

(** A string is a list of UTF-16 code units. *)
Definition jsstring : Type := list N.

(** Literals are written as UTF-8 text and decoded to code units.  Only
    well-formed UTF-8 occurs in this file; a truncated sequence is passed
    through byte by byte. *)
Fixpoint utf8_decode (bs : list N) : jsstring :=
  match bs with
  | [] => []
  | b0 :: r0 =>
    if b0 <? 128 then b0 :: utf8_decode r0
    else
      match r0 with
      | [] => [b0]
      | b1 :: r1 =>
        if b0 <? 224 then ((b0 - 192) * 64 + (b1 - 128)) :: utf8_decode r1
        else
          match r1 with
          | [] => [b0; b1]
          | b2 :: r2 =>
            if b0 <? 240
            then ((b0 - 224) * 4096 + (b1 - 128) * 64 + (b2 - 128))
                   :: utf8_decode r2
            else
              match r2 with
              | [] => [b0; b1; b2]
              | b3 :: r3 =>
                let cp := (b0 - 240) * 262144 + (b1 - 128) * 4096
                          + (b2 - 128) * 64 + (b3 - 128) in
                let v := cp - 65536 in
                (55296 + v / 1024) :: (56320 + v mod 1024) :: utf8_decode r3
              end
          end
      end
  end.

Definition js (s : string) : jsstring :=
  utf8_decode (map N_of_ascii (list_ascii_of_string s)).

(** The single code unit of a one-character literal. *)
Definition ch (s : string) : N := hd 0 (js s).

Definition between (lo c hi : N) : bool := (lo <=? c) && (c <=? hi).

(** [\d]: ASCII digits only. *)
Definition isDigit (c : N) : bool := between 48 c 57.

(** The word characters of [\b] and [\w] for a pattern without the [u]
    flag: [A-Za-z0-9_], and nothing else. *)
Definition isWordChar (c : N) : bool :=
  between 97 c 122 || between 65 c 90 || between 48 c 57 || (c =? 95).

(** WhiteSpace and LineTerminator code points: what [\s] matches and what
    [String.prototype.trim] strips. *)
Definition isSpace (c : N) : bool :=
  between 9 c 13 || (c =? 32) || (c =? 160) || (c =? 5760)
  || between 8192 c 8202 || (c =? 8232) || (c =? 8233) || (c =? 8239)
  || (c =? 8287) || (c =? 12288) || (c =? 65279).

(** The simple upper-case mapping of a code unit, as [canonicalize]
    needs it.  The table is exact on
    Basic Latin, on the Cyrillic block, and on the seven Cyrillic Extended-C
    letters U+1C80..U+1C86, which upper-case into the Cyrillic block: these
    are all the code units whose image is the image of a character that
    occurs in one of the parser's patterns.  Other code units are left
    fixed, which changes no comparison the patterns make. *)
Definition upperChar (c : N) : N :=
  if between 97 c 122 then c - 32
  else if between 1072 c 1103 then c - 32
  else if between 1104 c 1119 then c - 80
  else if c =? 7296 then 1042
  else if c =? 7297 then 1044
  else if c =? 7298 then 1054
  else if c =? 7299 then 1057
  else if c =? 7300 then 1058
  else if c =? 7301 then 1058
  else if c =? 7302 then 1066
  else c.

(** The simple lower-case mapping, exact on the same blocks. *)
Definition lowerChar (c : N) : N :=
  if between 65 c 90 then c + 32
  else if between 1040 c 1071 then c + 32
  else if between 1024 c 1039 then c + 80
  else c.

(** Canonicalize of a case-insensitive pattern without the [u] flag: the
    upper-case mapping, refused when it would send a non-ASCII code unit to
    an ASCII one. *)
Definition canonicalize (c : N) : N :=
  let cu := upperChar c in
  if (128 <=? c) && (cu <? 128) then c else cu.

(** [String.prototype.toLowerCase], code unit by code unit: exact on Latin
    and Cyrillic text, the two scripts of the parser's keywords; text in
    other scripts is left as it is.  The parser lower-cases what a keyword
    pattern has captured, and the two sides of one comparison. *)
Definition toLowerCase (s : jsstring) : jsstring := map lowerChar s.

(** [String.prototype.toUpperCase] is Unicode's full upper-case mapping,
    code point by code point (as of Unicode 15).  The code points with a
    one-to-one mapping are listed as ranges [(first, last, step, image)]:
    every [step]-th code point from [first] to [last] goes to [image],
    the upper case of [first], plus its distance from [first]. *)
Definition upperRanges : list (N * N * N * N) :=
  [ (97, 122, 1, 65); (181, 181, 1, 924); (224, 246, 1, 192);
    (248, 254, 1, 216); (255, 255, 1, 376); (257, 303, 2, 256);
    (305, 305, 1, 73); (307, 311, 2, 306); (314, 328, 2, 313);
    (331, 375, 2, 330); (378, 382, 2, 377); (383, 383, 1, 83);
    (384, 384, 1, 579); (387, 389, 2, 386); (392, 392, 1, 391);
    (396, 396, 1, 395); (402, 402, 1, 401); (405, 405, 1, 502);
    (409, 409, 1, 408); (410, 410, 1, 573); (414, 414, 1, 544);
    (417, 421, 2, 416); (424, 424, 1, 423); (429, 429, 1, 428);
    (432, 432, 1, 431); (436, 438, 2, 435); (441, 441, 1, 440);
    (445, 445, 1, 444); (447, 447, 1, 503); (453, 453, 1, 452);
    (454, 454, 1, 452); (456, 456, 1, 455); (457, 457, 1, 455);
    (459, 459, 1, 458); (460, 460, 1, 458); (462, 476, 2, 461);
    (477, 477, 1, 398); (479, 495, 2, 478); (498, 498, 1, 497);
    (499, 499, 1, 497); (501, 501, 1, 500); (505, 543, 2, 504);
    (547, 563, 2, 546); (572, 572, 1, 571); (575, 576, 1, 11390);
    (578, 578, 1, 577); (583, 591, 2, 582); (592, 592, 1, 11375);
    (593, 593, 1, 11373); (594, 594, 1, 11376); (595, 595, 1, 385);
    (596, 596, 1, 390); (598, 599, 1, 393); (601, 601, 1, 399);
    (603, 603, 1, 400); (604, 604, 1, 42923); (608, 608, 1, 403);
    (609, 609, 1, 42924); (611, 611, 1, 404); (613, 613, 1, 42893);
    (614, 614, 1, 42922); (616, 616, 1, 407); (617, 617, 1, 406);
    (618, 618, 1, 42926); (619, 619, 1, 11362); (620, 620, 1, 42925);
    (623, 623, 1, 412); (625, 625, 1, 11374); (626, 626, 1, 413);
    (629, 629, 1, 415); (637, 637, 1, 11364); (640, 640, 1, 422);
    (642, 642, 1, 42949); (643, 643, 1, 425); (647, 647, 1, 42929);
    (648, 648, 1, 430); (649, 649, 1, 580); (650, 651, 1, 433);
    (652, 652, 1, 581); (658, 658, 1, 439); (669, 669, 1, 42930);
    (670, 670, 1, 42928); (837, 837, 1, 921); (881, 883, 2, 880);
    (887, 887, 1, 886); (891, 893, 1, 1021); (940, 940, 1, 902);
    (941, 943, 1, 904); (945, 961, 1, 913); (962, 962, 1, 931);
    (963, 971, 1, 931); (972, 972, 1, 908); (973, 974, 1, 910);
    (976, 976, 1, 914); (977, 977, 1, 920); (981, 981, 1, 934);
    (982, 982, 1, 928); (983, 983, 1, 975); (985, 1007, 2, 984);
    (1008, 1008, 1, 922); (1009, 1009, 1, 929); (1010, 1010, 1, 1017);
    (1011, 1011, 1, 895); (1013, 1013, 1, 917); (1016, 1016, 1, 1015);
    (1019, 1019, 1, 1018); (1072, 1103, 1, 1040); (1104, 1119, 1, 1024);
    (1121, 1153, 2, 1120); (1163, 1215, 2, 1162); (1218, 1230, 2, 1217);
    (1231, 1231, 1, 1216); (1233, 1327, 2, 1232); (1377, 1414, 1, 1329);
    (4304, 4346, 1, 7312); (4349, 4351, 1, 7357); (5112, 5117, 1, 5104);
    (7296, 7296, 1, 1042); (7297, 7297, 1, 1044); (7298, 7298, 1, 1054);
    (7299, 7300, 1, 1057); (7301, 7301, 1, 1058); (7302, 7302, 1, 1066);
    (7303, 7303, 1, 1122); (7304, 7304, 1, 42570); (7545, 7545, 1, 42877);
    (7549, 7549, 1, 11363); (7566, 7566, 1, 42950); (7681, 7829, 2, 7680);
    (7835, 7835, 1, 7776); (7841, 7935, 2, 7840); (7936, 7943, 1, 7944);
    (7952, 7957, 1, 7960); (7968, 7975, 1, 7976); (7984, 7991, 1, 7992);
    (8000, 8005, 1, 8008); (8017, 8023, 2, 8025); (8032, 8039, 1, 8040);
    (8048, 8049, 1, 8122); (8050, 8053, 1, 8136); (8054, 8055, 1, 8154);
    (8056, 8057, 1, 8184); (8058, 8059, 1, 8170); (8060, 8061, 1, 8186);
    (8112, 8113, 1, 8120); (8126, 8126, 1, 921); (8144, 8145, 1, 8152);
    (8160, 8161, 1, 8168); (8165, 8165, 1, 8172); (8526, 8526, 1, 8498);
    (8560, 8575, 1, 8544); (8580, 8580, 1, 8579); (9424, 9449, 1, 9398);
    (11312, 11359, 1, 11264); (11361, 11361, 1, 11360);
    (11365, 11365, 1, 570); (11366, 11366, 1, 574);
    (11368, 11372, 2, 11367); (11379, 11379, 1, 11378);
    (11382, 11382, 1, 11381); (11393, 11491, 2, 11392);
    (11500, 11502, 2, 11499); (11507, 11507, 1, 11506);
    (11520, 11557, 1, 4256); (11559, 11559, 1, 4295);
    (11565, 11565, 1, 4301); (42561, 42605, 2, 42560);
    (42625, 42651, 2, 42624); (42787, 42799, 2, 42786);
    (42803, 42863, 2, 42802); (42874, 42876, 2, 42873);
    (42879, 42887, 2, 42878); (42892, 42892, 1, 42891);
    (42897, 42899, 2, 42896); (42900, 42900, 1, 42948);
    (42903, 42921, 2, 42902); (42933, 42947, 2, 42932);
    (42952, 42954, 2, 42951); (42961, 42961, 1, 42960);
    (42967, 42969, 2, 42966); (42998, 42998, 1, 42997);
    (43859, 43859, 1, 42931); (43888, 43967, 1, 5024);
    (65345, 65370, 1, 65313) ].

(** The same beyond the Basic Multilingual Plane. *)
Definition upperRangesAstral : list (N * N * N * N) :=
  [ (66600, 66639, 1, 66560); (66776, 66811, 1, 66736);
    (66967, 66977, 1, 66928); (66979, 66993, 1, 66940);
    (66995, 67001, 1, 66956); (67003, 67004, 1, 66964);
    (68800, 68850, 1, 68736); (71872, 71903, 1, 71840);
    (93792, 93823, 1, 93760); (125218, 125251, 1, 125184) ].

(** The code points whose upper case is more than one code unit. *)
Definition upperSpecial : list (N * list N) :=
  [ (223, [83; 83]); (329, [700; 78]); (496, [74; 780]);
    (912, [921; 776; 769]); (944, [933; 776; 769]); (1415, [1333; 1362]);
    (7830, [72; 817]); (7831, [84; 776]); (7832, [87; 778]);
    (7833, [89; 778]); (7834, [65; 702]); (8016, [933; 787]);
    (8018, [933; 787; 768]); (8020, [933; 787; 769]);
    (8022, [933; 787; 834]); (8064, [7944; 921]); (8065, [7945; 921]);
    (8066, [7946; 921]); (8067, [7947; 921]); (8068, [7948; 921]);
    (8069, [7949; 921]); (8070, [7950; 921]); (8071, [7951; 921]);
    (8072, [7944; 921]); (8073, [7945; 921]); (8074, [7946; 921]);
    (8075, [7947; 921]); (8076, [7948; 921]); (8077, [7949; 921]);
    (8078, [7950; 921]); (8079, [7951; 921]); (8080, [7976; 921]);
    (8081, [7977; 921]); (8082, [7978; 921]); (8083, [7979; 921]);
    (8084, [7980; 921]); (8085, [7981; 921]); (8086, [7982; 921]);
    (8087, [7983; 921]); (8088, [7976; 921]); (8089, [7977; 921]);
    (8090, [7978; 921]); (8091, [7979; 921]); (8092, [7980; 921]);
    (8093, [7981; 921]); (8094, [7982; 921]); (8095, [7983; 921]);
    (8096, [8040; 921]); (8097, [8041; 921]); (8098, [8042; 921]);
    (8099, [8043; 921]); (8100, [8044; 921]); (8101, [8045; 921]);
    (8102, [8046; 921]); (8103, [8047; 921]); (8104, [8040; 921]);
    (8105, [8041; 921]); (8106, [8042; 921]); (8107, [8043; 921]);
    (8108, [8044; 921]); (8109, [8045; 921]); (8110, [8046; 921]);
    (8111, [8047; 921]); (8114, [8122; 921]); (8115, [913; 921]);
    (8116, [902; 921]); (8118, [913; 834]); (8119, [913; 834; 921]);
    (8124, [913; 921]); (8130, [8138; 921]); (8131, [919; 921]);
    (8132, [905; 921]); (8134, [919; 834]); (8135, [919; 834; 921]);
    (8140, [919; 921]); (8146, [921; 776; 768]); (8147, [921; 776; 769]);
    (8150, [921; 834]); (8151, [921; 776; 834]); (8162, [933; 776; 768]);
    (8163, [933; 776; 769]); (8164, [929; 787]); (8166, [933; 834]);
    (8167, [933; 776; 834]); (8178, [8186; 921]); (8179, [937; 921]);
    (8180, [911; 921]); (8182, [937; 834]); (8183, [937; 834; 921]);
    (8188, [937; 921]); (64256, [70; 70]); (64257, [70; 73]);
    (64258, [70; 76]); (64259, [70; 70; 73]); (64260, [70; 70; 76]);
    (64261, [83; 84]); (64262, [83; 84]); (64275, [1348; 1350]);
    (64276, [1348; 1333]); (64277, [1348; 1339]); (64278, [1358; 1350]);
    (64279, [1348; 1341]) ].


Definition inRange (c : N) (r : N * N * N * N) : bool :=
  let '(first, last, step, _) := r in
  between first c last && ((c - first) mod step =? 0).

Definition upperPoint (ranges : list (N * N * N * N)) (c : N) : N :=
  match find (inRange c) ranges with
  | Some (first, _, _, image) => image + (c - first)
  | None => c
  end.

(** The upper case of a code unit that is a code point by itself. *)
Definition upperUnit (c : N) : jsstring :=
  match find (fun e => fst e =? c) upperSpecial with
  | Some e => snd e
  | None => [upperPoint upperRanges c]
  end.

(** The upper case of a surrogate pair. *)
Definition upperPair (hi lo : N) : jsstring :=
  let cp := 65536 + (hi - 55296) * 1024 + (lo - 56320) in
  let v := upperPoint upperRangesAstral cp - 65536 in
  [55296 + v / 1024; 56320 + v mod 1024].

Fixpoint toUpperCase (s : jsstring) : jsstring :=
  match s with
  | [] => []
  | c :: r =>
    match r with
    | d :: r' =>
      if between 55296 c 56319 && between 56320 d 57343
      then upperPair c d ++ toUpperCase r'
      else upperUnit c ++ toUpperCase r
    | [] => upperUnit c
    end
  end.

Fixpoint trimStart (s : jsstring) : jsstring :=
  match s with
  | c :: r => if isSpace c then trimStart r else s
  | [] => []
  end.

Definition trimEnd (s : jsstring) : jsstring := rev (trimStart (rev s)).

Definition trim (s : jsstring) : jsstring := trimEnd (trimStart s).

(** [s.slice(a, b)] for [0 <= a <= b]. *)
Definition slice (s : jsstring) (a b : nat) : jsstring :=
  firstn (b - a) (skipn a s).

Definition charAt (s : jsstring) (i : nat) : jsstring :=
  match nth_error s i with Some c => [c] | None => [] end.

Fixpoint eqb (a b : jsstring) : bool :=
  match a, b with
  | [], [] => true
  | x :: a', y :: b' => (x =? y) && eqb a' b'
  | _, _ => false
  end.

(** [parseInt(s, 10)] on a string of ASCII digits: the integer that the
    digits denote.  JavaScript gives the Number nearest to it, which is
    that integer below 2^53, and computes with Numbers from there on; the
    integers here are exact.  What is stated below of a number read from
    the text either holds of both or is stated for the numbers below
    2^53. *)
Definition parseInt (s : jsstring) : Z :=
  fold_left (fun acc c => (10 * acc + (Z.of_N c - 48))%Z) s 0%Z.

End JsString.

(* ================================================================== *)
(** ** Regular expressions *)
(* ================================================================== *)

Module Regex.

Import JsString.

(** The members of a character class. *)
Inductive clsitem : Type :=
| CChar (c : N)            (* a literal character *)
| CRange (lo hi : N)       (* lo-hi; only digit ranges occur *)
| CDigit                   (* \d *)
| CSpace.                  (* \s *)

(** The pattern constructs the parser uses. *)
Inductive regex : Type :=
| Eps                                        (* the empty pattern *)
| Chr (c : N)                                (* a literal character *)
| Cls (invert : bool) (items : list clsitem) (* [...] and [^...] *)
| Seq (r1 r2 : regex)                        (* r1 r2 *)
| Alt (r1 r2 : regex)                        (* r1|r2 *)
| Rep (min : nat) (max : option nat) (r : regex)
                                             (* greedy r{min,max} *)
| Grp (i : nat) (r : regex)                  (* the i-th capture group *)
| WordB                                      (* \b *)
| NegLook (r : regex).                       (* (?!r) *)

(** A match state: the end index reached and the captures made so far, the
    latest first. *)
Record mstate : Type := MState {
  pos : nat;
  caps : list (nat * (nat * nat))
}.

Section Matcher.

Variable input : jsstring.

Definition charIs (i : nat) (p : N -> bool) : bool :=
  match nth_error input i with Some c => p c | None => false end.

(** IsWordChar(e): false before the start and at the end of the input. *)
Definition isWordCharAt (e : nat) : bool := charIs e isWordChar.

Definition isWordBoundary (e : nat) : bool :=
  let a := match e with O => false | S e' => isWordCharAt e' end in
  let b := isWordCharAt e in
  negb (Bool.eqb a b).

(** Class membership under the [i] flag: some member of the class has the
    canonical form of the input character.  Digits and white space are
    their own canonical forms and are the canonical form of nothing else. *)
Definition inItem (c : N) (it : clsitem) : bool :=
  match it with
  | CChar a => N.eqb (canonicalize a) (canonicalize c)
  | CRange lo hi => between lo c hi
  | CDigit => isDigit c
  | CSpace => isSpace c
  end.

Definition inClass (invert : bool) (items : list clsitem) (c : N) : bool :=
  let found := existsb (inItem c) items in
  if invert then negb found else found.

Definition advance (st : mstate) : mstate :=
  MState (S (pos st)) (caps st).

(** The matcher, in continuation-passing style as in the ECMAScript
    specification: [m r k st] matches [r] at [st] and hands every way of
    doing so to [k] in priority order, until [k] succeeds.

    A quantifier tries one more iteration before it tries to stop; an
    iteration that is not needed to reach [min] and matches the empty
    string is refused.  Its counter starts at [min] plus the length of the
    input, so that it reaches zero only where no further iteration could
    advance. *)
Fixpoint m (r : regex) (k : mstate -> option mstate) (st : mstate)
  {struct r} : option mstate :=
  match r with
  | Eps => k st
  | Chr c =>
    if charIs (pos st) (fun x => N.eqb (canonicalize x) (canonicalize c))
    then k (advance st) else None
  | Cls invert items =>
    if charIs (pos st) (inClass invert items) then k (advance st) else None
  | Seq r1 r2 => m r1 (m r2 k) st
  | Alt r1 r2 =>
    match m r1 k st with
    | Some res => Some res
    | None => m r2 k st
    end
  | Rep min max r1 =>
    (fix rep (fuel : nat) (min : nat) (max : option nat) (st : mstate)
       {struct fuel} : option mstate :=
       match max with
       | Some O => k st
       | _ =>
         match fuel with
         | O => k st
         | S fuel' =>
           match
             m r1
               (fun st' =>
                  if (min =? 0)%nat && (pos st' =? pos st)%nat then None
                  else rep fuel' (Nat.pred min) (option_map Nat.pred max) st')
               st
           with
           | Some res => Some res
           | None => if (min =? 0)%nat then k st else None
           end
         end
       end) (min + List.length input)%nat min max st
  | Grp i r1 =>
    m r1 (fun st' => k (MState (pos st') ((i, (pos st, pos st')) :: caps st')))
      st
  | WordB => if isWordBoundary (pos st) then k st else None
  | NegLook r1 =>
    match m r1 (fun st' => Some st') st with
    | Some _ => None
    | None => k st
    end
  end.

(** One attempt at index [i]. *)
Definition matchAt (r : regex) (i : nat) : option (nat * mstate) :=
  match m r (fun st => Some st) (MState i []) with
  | Some st => Some (i, st)
  | None => None
  end.

(** RegExpBuiltinExec: the first index from [i] on at which the pattern
    matches; [n] counts the indices left to try. *)
Fixpoint searchFrom (r : regex) (n : nat) (i : nat) : option (nat * mstate) :=
  match matchAt r i with
  | Some res => Some res
  | None =>
    match n with
    | O => None
    | S n' => searchFrom r n' (S i)
    end
  end.

Definition search (r : regex) (lastIndex : nat) : option (nat * mstate) :=
  if (lastIndex <=? List.length input)%nat
  then searchFrom r (List.length input - lastIndex) lastIndex
  else None.

End Matcher.

(** The text of capture group [i] of a match. *)
Definition group (s : jsstring) (st : mstate) (i : nat) : option jsstring :=
  match find (fun c => (fst c =? i)%nat) (caps st) with
  | Some (_, (a, b)) => Some (slice s a b)
  | None => None
  end.

(** A successful match as the parser sees it: index, end, and groups 1
    and 2. *)
Record matched : Type := Matched {
  m_index : nat;
  m_end : nat;
  m_1 : option jsstring;
  m_2 : option jsstring
}.

Definition result_of (s : jsstring) (res : nat * mstate) : matched :=
  Matched (fst res) (pos (snd res)) (group s (snd res) 1) (group s (snd res) 2).

(** [s.match(re)] for a pattern without the [g] flag. *)
Definition jsmatch (re : regex) (s : jsstring) : option matched :=
  option_map (result_of s) (search s re 0).

(** [re.test(s)] for a pattern without the [g] flag. *)
Definition test (re : regex) (s : jsstring) : bool :=
  match jsmatch re s with Some _ => true | None => false end.

(** [s.replace(re, by)] for a pattern without the [g] flag: the first match
    is replaced. *)
Definition replace (re : regex) (by_ : jsstring) (s : jsstring) : jsstring :=
  match jsmatch re s with
  | Some mt => firstn (m_index mt) s ++ by_ ++ skipn (m_end mt) s
  | None => s
  end.

(** The successive matches of a pattern with the [g] flag, as the loop
    [while ((x = re.exec(s)) !== null)] and [replace] enumerate them: each
    search starts where the last match ended ([replace] starts one further
    after an empty match; the patterns that carry the flag match no empty
    string).  [n] bounds the number of matches by the length of the text. *)
Fixpoint matchesFrom (re : regex) (s : jsstring) (n : nat) (lastIndex : nat)
  : list matched :=
  match n with
  | O => []
  | S n' =>
    match search s re lastIndex with
    | None => []
    | Some res =>
      let mt := result_of s res in
      mt :: matchesFrom re s n'
              (if (m_end mt =? m_index mt)%nat then S (m_end mt) else m_end mt)
    end
  end.

Definition execAll (re : regex) (s : jsstring) : list matched :=
  matchesFrom re s (S (List.length s)) 0.

(** [s.replace(re, by)] for a pattern with the [g] flag. *)
Fixpoint spliceAll (s : jsstring) (by_ : jsstring) (from : nat)
  (ms : list matched) : jsstring :=
  match ms with
  | [] => skipn from s
  | mt :: ms' =>
    slice s from (m_index mt) ++ by_ ++ spliceAll s by_ (m_end mt) ms'
  end.

Definition replaceAll (re : regex) (by_ : jsstring) (s : jsstring) : jsstring :=
  spliceAll s by_ 0 (execAll re s).

(** Pattern-building shorthands. *)
Definition lit (s : string) : regex :=
  fold_right (fun c r => Seq (Chr c) r) Eps (js s).

Definition seq (rs : list regex) : regex := fold_right Seq Eps rs.

Fixpoint alts (rs : list regex) : regex :=
  match rs with
  | [] => Cls false []
  | [r] => r
  | r :: rs' => Alt r (alts rs')
  end.

Definition opt (r : regex) : regex := Rep 0 (Some 1%nat) r.
Definition plus (r : regex) : regex := Rep 1 None r.
Definition digit : regex := Cls false [CDigit].
Definition space : regex := Cls false [CSpace].
Definition oneOf (s : string) : regex := Cls false (map CChar (js s)).
Definition noneOf (items : list clsitem) : regex := Cls true items.

End Regex.

(* ================================================================== *)
(** ** Dates *)
(* ================================================================== *)

Module JsDate.

Import JsString.
Local Open Scope Z_scope.

(** A [Date] holds a time value, milliseconds since the epoch, or NaN
    ([None], an Invalid Date).  Local time is UTC. *)
Definition Date : Type := option Z.

Definition msPerDay : Z := 86400000.
Definition msPerHour : Z := 3600000.
Definition msPerMinute : Z := 60000.
Definition msPerSecond : Z := 1000.

Definition TimeClip (t : Z) : Date :=
  if Z.abs t <=? 8640000000000000 then Some t else None.

Definition Day (t : Z) : Z := t / msPerDay.
Definition TimeWithinDay (t : Z) : Z := t mod msPerDay.

Definition InLeapYear (y : Z) : bool :=
  if negb (y mod 4 =? 0) then false
  else if negb (y mod 100 =? 0) then true
  else y mod 400 =? 0.

Definition DayFromYear (y : Z) : Z :=
  365 * (y - 1970) + (y - 1969) / 4 - (y - 1901) / 100 + (y - 1601) / 400.

(** The year of a day number: the largest [y] with [DayFromYear y <= n].
    The mean year has 146097/400 days, which places the year within one of
    the estimate. *)
Definition YearFromDay (n : Z) : Z :=
  let y := 1970 + (400 * n) / 146097 in
  if DayFromYear (y + 1) <=? n then y + 1
  else if DayFromYear y <=? n then y
  else y - 1.

(** The number of days before month [m] (0 = January) in a year. *)
Definition daysBeforeMonth (leap : bool) (m : Z) : Z :=
  let l := if leap then 1 else 0 in
  if m <=? 0 then 0
  else if m =? 1 then 31
  else if m =? 2 then 59 + l
  else if m =? 3 then 90 + l
  else if m =? 4 then 120 + l
  else if m =? 5 then 151 + l
  else if m =? 6 then 181 + l
  else if m =? 7 then 212 + l
  else if m =? 8 then 243 + l
  else if m =? 9 then 273 + l
  else if m =? 10 then 304 + l
  else if m =? 11 then 334 + l
  else 365 + l.

Definition daysInMonth (y m : Z) : Z :=
  daysBeforeMonth (InLeapYear y) (m + 1) - daysBeforeMonth (InLeapYear y) m.

Definition DayWithinYear (n : Z) : Z := n - DayFromYear (YearFromDay n).

(** The month of day [d] of a year, both counted from 0. *)
Definition monthOfDay (leap : bool) (d : Z) : Z :=
  let b := daysBeforeMonth leap in
  if d <? b 1 then 0 else if d <? b 2 then 1 else if d <? b 3 then 2
  else if d <? b 4 then 3 else if d <? b 5 then 4 else if d <? b 6 then 5
  else if d <? b 7 then 6 else if d <? b 8 then 7 else if d <? b 9 then 8
  else if d <? b 10 then 9 else if d <? b 11 then 10 else 11.

Definition MonthFromDay (n : Z) : Z :=
  monthOfDay (InLeapYear (YearFromDay n)) (DayWithinYear n).

Definition DateFromDay (n : Z) : Z :=
  DayWithinYear n
  - daysBeforeMonth (InLeapYear (YearFromDay n)) (MonthFromDay n) + 1.

Definition YearFromTime (t : Z) : Z := YearFromDay (Day t).
Definition MonthFromTime (t : Z) : Z := MonthFromDay (Day t).
Definition DateFromTime (t : Z) : Z := DateFromDay (Day t).
Definition WeekDay (t : Z) : Z := (Day t + 4) mod 7.
Definition HourFromTime (t : Z) : Z := (t / msPerHour) mod 24.
Definition MinFromTime (t : Z) : Z := (t / msPerMinute) mod 60.
Definition SecFromTime (t : Z) : Z := (t / msPerSecond) mod 60.
Definition msFromTime (t : Z) : Z := t mod msPerSecond.

Definition MakeTime (h m s ms : Z) : Z :=
  h * msPerHour + m * msPerMinute + s * msPerSecond + ms.

(** The day number of day [dt] of month [m] of year [y]; months outside
    0..11 carry into the year, days outside the month into the next or the
    previous ones. *)
Definition MakeDay (y m dt : Z) : Z :=
  let ym := y + m / 12 in
  let mn := m mod 12 in
  DayFromYear ym + daysBeforeMonth (InLeapYear ym) mn + dt - 1.

Definition MakeDate (day time : Z) : Z := day * msPerDay + time.

(** *** [Date.prototype] *)

Definition getTime (d : Date) : option Z := d.
Definition getDay (d : Date) : option Z := option_map WeekDay d.
Definition getFullYear (d : Date) : option Z := option_map YearFromTime d.
Definition getMonth (d : Date) : option Z := option_map MonthFromTime d.
Definition getDate (d : Date) : option Z := option_map DateFromTime d.
Definition getHours (d : Date) : option Z := option_map HourFromTime d.
Definition getMinutes (d : Date) : option Z := option_map MinFromTime d.
Definition getSeconds (d : Date) : option Z := option_map SecFromTime d.

Definition withTime (d : Date) (f : Z -> Z) : Date :=
  match d with
  | Some t => TimeClip (f t)
  | None => None
  end.

(** [d.setHours(h)], [d.setMinutes(m)], [d.setSeconds(s)],
    [d.setMilliseconds(ms)]: one field replaced, the others kept. *)
Definition setHours1 (d : Date) (h : Z) : Date :=
  withTime d (fun t =>
    MakeDate (Day t) (MakeTime h (MinFromTime t) (SecFromTime t) (msFromTime t))).

Definition setMinutes1 (d : Date) (m : Z) : Date :=
  withTime d (fun t =>
    MakeDate (Day t) (MakeTime (HourFromTime t) m (SecFromTime t) (msFromTime t))).

Definition setSeconds1 (d : Date) (s : Z) : Date :=
  withTime d (fun t =>
    MakeDate (Day t) (MakeTime (HourFromTime t) (MinFromTime t) s (msFromTime t))).

Definition setMilliseconds1 (d : Date) (ms : Z) : Date :=
  withTime d (fun t =>
    MakeDate (Day t) (MakeTime (HourFromTime t) (MinFromTime t) (SecFromTime t) ms)).

(** [d.setHours(h, m, s, ms)] and [d.setMinutes(m, s, ms)]. *)
Definition setHours4 (d : Date) (h m s ms : Z) : Date :=
  withTime d (fun t => MakeDate (Day t) (MakeTime h m s ms)).

Definition setMinutes3 (d : Date) (m s ms : Z) : Date :=
  withTime d (fun t => MakeDate (Day t) (MakeTime (HourFromTime t) m s ms)).

(** [d.setDate(dt)]: MakeDay of the date's year and month with day [dt] is
    the date's day number moved by [dt] less its day of the month. *)
Definition setDate (d : Date) (dt : Z) : Date :=
  withTime d (fun t =>
    MakeDate (Day t + (dt - DateFromTime t)) (TimeWithinDay t)).

(** [new Date(y, m, dt)]: a year from 0 to 99 means 1900 + y. *)
Definition newDate (y m dt : Z) : Date :=
  let yr := if (0 <=? y) && (y <=? 99) then 1900 + y else y in
  TimeClip (MakeDate (MakeDay yr m dt) 0).

(** Digits of [v], exactly [width] of them. *)
Fixpoint pad (width : nat) (v : Z) : jsstring :=
  match width with
  | O => []
  | S w => pad w (v / 10) ++ [Z.to_N (48 + v mod 10)]
  end.

(** [d.toISOString()]; [None] is the RangeError thrown for an Invalid
    Date. *)
Definition toISOString (d : Date) : option jsstring :=
  match d with
  | None => None
  | Some t =>
    let y := YearFromTime t in
    let year :=
      if (0 <=? y) && (y <=? 9999) then pad 4 y
      else (if y <? 0 then js "-" else js "+") ++ pad 6 (Z.abs y) in
    Some (year ++ js "-" ++ pad 2 (MonthFromTime t + 1)
               ++ js "-" ++ pad 2 (DateFromTime t)
               ++ js "T" ++ pad 2 (HourFromTime t)
               ++ js ":" ++ pad 2 (MinFromTime t)
               ++ js ":" ++ pad 2 (SecFromTime t)
               ++ js "." ++ pad 3 (msFromTime t) ++ js "Z")
  end.

(** *** [date-fns] *)

Definition isBefore (a b : Date) : bool :=
  match a, b with
  | Some x, Some y => x <? y
  | _, _ => false
  end.

Definition startOfDay (d : Date) : Date := setHours4 d 0 0 0 0.

Definition setHours (d : Date) (h : Z) : Date := setHours1 d h.
Definition setMinutes (d : Date) (m : Z) : Date := setMinutes1 d m.
Definition setSeconds (d : Date) (s : Z) : Date := setSeconds1 d s.
Definition setMilliseconds (d : Date) (ms : Z) : Date := setMilliseconds1 d ms.

(** [addDays(d, n)]: the date itself for [n = 0], else
    [d.setDate(d.getDate() + n)]. *)
Definition addDays (d : Date) (amount : Z) : Date :=
  if amount =? 0 then d
  else match d with
       | Some t => setDate d (DateFromTime t + amount)
       | None => None
       end.

(** [getDaysInMonth(d)]; [None] is NaN. *)
Definition getDaysInMonth (d : Date) : option Z :=
  option_map (fun t => daysInMonth (YearFromTime t) (MonthFromTime t)) d.

(** [addMonths(d, n)] for [n <> 0]: the same day of the month [n] months
    on, or the last day of that month when it is shorter. *)
Definition addMonths (d : Date) (amount : Z) : Date :=
  match d with
  | None => None
  | Some t =>
    let dayOfMonth := DateFromTime t in
    (* endOfDesiredMonth.setMonth(date.getMonth() + amount + 1, 0) *)
    let endOfDesiredMonth :=
      TimeClip (MakeDate (MakeDay (YearFromTime t)
                                  (MonthFromTime t + amount + 1) 0)
                         (TimeWithinDay t)) in
    match endOfDesiredMonth with
    | None => None
    | Some e =>
      let daysInMonth := DateFromTime e in
      if dayOfMonth >=? daysInMonth then endOfDesiredMonth
      else
        (* date.setFullYear(end.getFullYear(), end.getMonth(), dayOfMonth) *)
        TimeClip (MakeDate (MakeDay (YearFromTime e) (MonthFromTime e)
                                    dayOfMonth)
                           (TimeWithinDay t))
    end
  end.

End JsDate.

(* ================================================================== *)
(** ** The parser *)
(* ================================================================== *)

Module QuickAddRu.

Import JsString Regex JsDate.
Local Open Scope Z_scope.

Record ParsedTaskPatch : Type := Patch {
  due_date : option jsstring;
  priority : option Z;
  project_name : option jsstring;
  labels : option (list jsstring);
  repeat_after : option Z;
  repeat_mode : option Z;
  cleaned_title : option jsstring
}.

(** [const patch: ParsedTaskPatch = {}] *)
Definition emptyPatch : ParsedTaskPatch :=
  Patch None None None None None None None.

Definition set_due_date (v : option jsstring) (p : ParsedTaskPatch) :=
  Patch v (priority p) (project_name p) (labels p) (repeat_after p)
        (repeat_mode p) (cleaned_title p).
Definition set_priority (v : option Z) (p : ParsedTaskPatch) :=
  Patch (due_date p) v (project_name p) (labels p) (repeat_after p)
        (repeat_mode p) (cleaned_title p).
Definition set_project_name (v : option jsstring) (p : ParsedTaskPatch) :=
  Patch (due_date p) (priority p) v (labels p) (repeat_after p)
        (repeat_mode p) (cleaned_title p).
Definition set_labels (v : option (list jsstring)) (p : ParsedTaskPatch) :=
  Patch (due_date p) (priority p) (project_name p) v (repeat_after p)
        (repeat_mode p) (cleaned_title p).
Definition set_repeat_after (v : option Z) (p : ParsedTaskPatch) :=
  Patch (due_date p) (priority p) (project_name p) (labels p) v
        (repeat_mode p) (cleaned_title p).
Definition set_repeat_mode (v : option Z) (p : ParsedTaskPatch) :=
  Patch (due_date p) (priority p) (project_name p) (labels p)
        (repeat_after p) v (cleaned_title p).
Definition set_cleaned_title (v : option jsstring) (p : ParsedTaskPatch) :=
  Patch (due_date p) (priority p) (project_name p) (labels p)
        (repeat_after p) (repeat_mode p) v.

(** *** Constants *)

(** A [Record<string, T>] literal: its keys in insertion order. *)
Definition lookup {T : Type} (tbl : list (string * T)) (key : jsstring)
  : option T :=
  option_map snd (find (fun kv => JsString.eqb (js (fst kv)) key) tbl).

(** [Object.keys(tbl).join('|')] as a pattern. *)
Definition keysRe {T : Type} (tbl : list (string * T)) : regex :=
  alts (map (fun kv => lit (fst kv)) tbl).

Definition PRIORITY_MAP : list (string * Z) :=
  [ ("срочно", 5); ("urgent", 5); ("важно", 4); ("important", 4) ]%string.

Definition WEEKDAY_MAP : list (string * Z) :=
  [ ("воскресенье", 0); ("sunday", 0); ("sun", 0);
    ("понедельник", 1); ("monday", 1); ("mon", 1);
    ("вторник", 2); ("tuesday", 2); ("tue", 2);
    ("среду", 3); ("среда", 3); ("wednesday", 3); ("wed", 3);
    ("четверг", 4); ("thursday", 4); ("thu", 4);
    ("пятницу", 5); ("пятница", 5); ("friday", 5); ("fri", 5);
    ("субботу", 6); ("суббота", 6); ("saturday", 6); ("sat", 6) ]%string.

Definition TIME_MARKER_MAP : list (string * (Z * Z)) :=
  [ ("утром", (8, 0)); ("днем", (13, 0)); ("днём", (13, 0));
    ("вечером", (20, 0)); ("ночью", (23, 0)) ]%string.

(** *** Helpers *)

Definition atTime (date : Date) (h m : Z) : Date :=
  setMilliseconds (setSeconds (setMinutes (setHours date h) m) 0) 0.

Definition atEndOfDay (date : Date) : Date := atTime date 23 59.

(** [toIso] throws a RangeError on an Invalid Date. *)
Inductive outcome (A : Type) : Type :=
| Ok (a : A)
| RangeError.
Arguments RangeError {A}.

Definition bind {A B : Type} (x : outcome A) (f : A -> outcome B)
  : outcome B :=
  match x with
  | Ok a => f a
  | RangeError => RangeError
  end.

Notation "x <- e ;; k" := (bind e (fun x => k))
  (at level 61, e at next level, right associativity).

Definition toIso (date : Date) : outcome jsstring :=
  match toISOString date with
  | Some s => Ok s
  | None => RangeError
  end.

(** On an Invalid Date [getDay] is NaN, so is [delta], neither comparison
    holds, and [addDays] returns an Invalid Date. *)
Definition nextWeekday (from : Date) (targetWeekday : Z) (allowToday : bool)
  : Date :=
  match getDay from with
  | None => None
  | Some fromDay =>
    let delta := targetWeekday - fromDay in
    let delta :=
      if (delta <? 0) || ((delta =? 0) && negb allowToday)
      then delta + 7 else delta in
    addDays (startOfDay from) delta
  end.

(** On an Invalid Date every number is NaN, [isBefore] is false, and the
    Invalid candidate is returned. *)
Definition nearestDayOfMonth (from : Date) (day : Z) : Date :=
  match getDaysInMonth from, getFullYear from, getMonth from with
  | Some daysInCurrent, Some y, Some mo =>
    let clampedDay := Z.min day daysInCurrent in
    let candidate := newDate y mo clampedDay in
    if negb (isBefore candidate (startOfDay from)) then candidate
    else
      let next := addMonths from 1 in
      match getDaysInMonth next, getFullYear next, getMonth next with
      | Some daysInNext, Some ny, Some nmo =>
        newDate ny nmo (Z.min day daysInNext)
      | _, _, _ => None
      end
  | _, _, _ => None
  end.

Definition ceilToHour (d : Date) : Date :=
  match getMinutes d, getSeconds d with
  | Some 0, Some 0 => d
  | _, _ =>
    let rounded := setMinutes3 d 0 0 0 in
    match getHours rounded with
    | Some h => setHours1 rounded (h + 1)
    | None => None
    end
  end.

(** *** Patterns *)

Definition dquote : N := 34%N.
Definition tokenChar : regex :=
  noneOf [CSpace; CChar (ch "!"); CChar (ch "+"); CChar (ch "*"); CChar dquote].
Definition quoted : regex :=
  seq [Chr dquote; Grp 1 (plus (noneOf [CChar dquote])); Chr dquote].

(* /!([1-5])\b/i *)
Definition prioNumRe : regex :=
  seq [lit "!"; Grp 1 (Cls false [CRange (ch "1") (ch "5")]); WordB].
(* new RegExp(`!(${prioWordKeys})\\b`, 'i') *)
Definition prioWordRe : regex :=
  seq [lit "!"; Grp 1 (keysRe PRIORITY_MAP); WordB].
(* /\+\x22([^\x22]+)\x22/i, writing \x22 for the double quote *)
Definition projectQuotedRe : regex := seq [lit "+"; quoted].
(* /\+([^\s!+*\x22]+)/i *)
Definition projectSimpleRe : regex := seq [lit "+"; Grp 1 (plus tokenChar)].
(* /\*\x22([^\x22]+)\x22/gi *)
Definition labelQuotedRe : regex := seq [lit "*"; quoted].
(* /\*([^\s!+*\x22]+)/gi *)
Definition labelSimpleRe : regex := seq [lit "*"; Grp 1 (plus tokenChar)].
(* /(?:в\s+)?(\d{1,2}):(\d{2})(?!\d)/i *)
Definition explicitTimeRe : regex :=
  seq [opt (seq [lit "в"; plus space]);
       Grp 1 (Rep 1 (Some 2%nat) digit); lit ":";
       Grp 2 (Rep 2 (Some 2%nat) digit); NegLook digit].
(* /\bв\s+(\d{1,2})\b(?!:)/i *)
Definition hourOnlyTimeRe : regex :=
  seq [WordB; lit "в"; plus space; Grp 1 (Rep 1 (Some 2%nat) digit); WordB;
       NegLook (lit ":")].
(* new RegExp(`\\b(${timeMarkerKeys})\\b`, 'i') *)
Definition timeMarkerRe : regex :=
  seq [WordB; Grp 1 (keysRe TIME_MARKER_MAP); WordB].
(* /\bкаждый\s+день\b/i *)
Definition everyDayRe : regex :=
  seq [WordB; lit "каждый"; plus space; lit "день"; WordB].
(* /\bкаждую\s+неделю\b/i *)
Definition everyWeekRe : regex :=
  seq [WordB; lit "каждую"; plus space; lit "неделю"; WordB].
(* /\bкаждый\s+месяц\b/i *)
Definition everyMonthRe : regex :=
  seq [WordB; lit "каждый"; plus space; lit "месяц"; WordB].
(* /\bкаждый\s+час\b/i *)
Definition everyHourRe : regex :=
  seq [WordB; lit "каждый"; plus space; lit "час"; WordB].
(* /\bкаждые\s+(\d+)\s+часов?\b/i *)
Definition everyNHoursRe : regex :=
  seq [WordB; lit "каждые"; plus space; Grp 1 (plus digit); plus space;
       lit "часо"; opt (lit "в"); WordB].
(* new RegExp(`\\b(?:каждый|каждую|каждое)\\s+(${weekdayKeys})\\b`, 'i') *)
Definition everyWeekdayRe : regex :=
  seq [WordB; alts [lit "каждый"; lit "каждую"; lit "каждое"]; plus space;
       Grp 1 (keysRe WEEKDAY_MAP); WordB].
(* /\bкаждое\s+(\d{1,2})\s+числ[оа]?\b/i *)
Definition everyDayOfMonthRe : regex :=
  seq [WordB; lit "каждое"; plus space; Grp 1 (Rep 1 (Some 2%nat) digit);
       plus space; lit "числ"; opt (oneOf "оа"); WordB].
(* /\bвторой\s+день\s+каждой\s+недели\b/i *)
Definition secondDayOfWeekRe : regex :=
  seq [WordB; lit "второй"; plus space; lit "день"; plus space;
       lit "каждой"; plus space; lit "недели"; WordB].
(* /\b(сегодня|today)\b/i *)
Definition todayRe : regex :=
  seq [WordB; Grp 1 (alts [lit "сегодня"; lit "today"]); WordB].
(* /\b(завтра|tomorrow)\b/i *)
Definition tomorrowRe : regex :=
  seq [WordB; Grp 1 (alts [lit "завтра"; lit "tomorrow"]); WordB].
(* /\bпослезавтра\b/i *)
Definition dayAfterTomorrowRe : regex :=
  seq [WordB; lit "послезавтра"; WordB].
(* /\bчерез\s+(\d+)\s+дн[еёяй]?\b/i *)
Definition inNDaysRe : regex :=
  seq [WordB; lit "через"; plus space; Grp 1 (plus digit); plus space;
       lit "дн"; opt (oneOf "еёяй"); WordB].
(* new RegExp(`\\b(?:в\\s+)?(${weekdayKeys})\\b`, 'i') *)
Definition weekdayOnceRe : regex :=
  seq [WordB; opt (seq [lit "в"; plus space]); Grp 1 (keysRe WEEKDAY_MAP);
       WordB].
(* /\s{2,}/g *)
Definition spacesRe : regex := Rep 2 None space.

(** *** The pipeline *)

(** The state the stages share: the remaining text, the patch, and the
    local variables of the two time stages. *)
Record state : Type := State {
  remaining : jsstring;
  patch : ParsedTaskPatch;
  parsedHour : option Z;
  parsedMinute : option Z;
  markerHour : option Z;
  markerMinute : option Z
}.

Definition with_remaining (r : jsstring) (st : state) : state :=
  State r (patch st) (parsedHour st) (parsedMinute st)
        (markerHour st) (markerMinute st).
Definition with_patch (f : ParsedTaskPatch -> ParsedTaskPatch) (st : state)
  : state :=
  State (remaining st) (f (patch st)) (parsedHour st) (parsedMinute st)
        (markerHour st) (markerMinute st).
Definition with_parsed (h m : option Z) (st : state) : state :=
  State (remaining st) (patch st) h m (markerHour st) (markerMinute st).
Definition with_marker (h m : option Z) (st : state) : state :=
  State (remaining st) (patch st) (parsedHour st) (parsedMinute st) h m.

(** [remaining = remaining.replace(re, ' ')] *)
Definition erase (re : regex) (st : state) : state :=
  with_remaining (replace re (js " ") (remaining st)) st.

(** [match[1] as string] *)
Definition g1 (mt : matched) : jsstring :=
  match m_1 mt with Some s => s | None => [] end.
Definition g2 (mt : matched) : jsstring :=
  match m_2 mt with Some s => s | None => [] end.

Definition isNone {A : Type} (o : option A) : bool :=
  match o with None => true | Some _ => false end.

(** 1. Priority *)
Definition stagePriority (st : state) : state :=
  let prioNumMatch := jsmatch prioNumRe (remaining st) in
  let prioWordMatch := jsmatch prioWordRe (remaining st) in
  match prioNumMatch with
  | Some mt =>
    erase prioNumRe (with_patch (set_priority (Some (parseInt (g1 mt)))) st)
  | None =>
    match prioWordMatch with
    | Some mt =>
      let key := toLowerCase (g1 mt) in
      erase prioWordRe (with_patch (set_priority (lookup PRIORITY_MAP key)) st)
    | None => st
    end
  end.

(** 2. Project *)
Definition stageProject (st : state) : state :=
  let quotedProjMatch := jsmatch projectQuotedRe (remaining st) in
  let simpleProjMatch := jsmatch projectSimpleRe (remaining st) in
  match quotedProjMatch with
  | Some mt =>
    erase projectQuotedRe
          (with_patch (set_project_name (Some (trim (g1 mt)))) st)
  | None =>
    match simpleProjMatch with
    | Some mt =>
      erase projectSimpleRe
            (with_patch (set_project_name (Some (trim (g1 mt)))) st)
    | None => st
    end
  end.

(** 3. Labels *)
Definition stageLabels (st : state) : state :=
  let quotedLabels :=
    map (fun mt => trim (g1 mt)) (execAll labelQuotedRe (remaining st)) in
  let remaining1 := replaceAll labelQuotedRe (js " ") (remaining st) in
  let simpleLabels :=
    map (fun mt => trim (g1 mt)) (execAll labelSimpleRe remaining1) in
  let remaining2 := replaceAll labelSimpleRe (js " ") remaining1 in
  let labels := quotedLabels ++ simpleLabels in
  let st := with_remaining remaining2 st in
  if (0 <? List.length labels)%nat
  then with_patch (set_labels (Some labels)) st
  else st.

(** 4. Explicit time extraction *)
Definition stageExplicitTime (st : state) : state :=
  let explicitTimeMatch := jsmatch explicitTimeRe (remaining st) in
  let hourOnlyMatch := jsmatch hourOnlyTimeRe (remaining st) in
  match explicitTimeMatch with
  | Some mt =>
    erase explicitTimeRe
          (with_parsed (Some (parseInt (g1 mt))) (Some (parseInt (g2 mt))) st)
  | None =>
    match hourOnlyMatch with
    | Some mt =>
      erase hourOnlyTimeRe
            (with_parsed (Some (parseInt (g1 mt))) (Some 0) st)
    | None => st
    end
  end.

(** 5. Time-of-day markers *)
Definition stageTimeMarker (st : state) : state :=
  match jsmatch timeMarkerRe (remaining st) with
  | Some mt =>
    let key := toLowerCase (g1 mt) in
    let st :=
      match lookup TIME_MARKER_MAP key with
      | Some tm => with_marker (Some (fst tm)) (Some (snd tm)) st
      | None => st
      end in
    erase timeMarkerRe st
  | None => st
  end.

(** Explicit time wins over marker: [parsedHour ?? markerHour]. *)
Definition effectiveHour (st : state) : option Z :=
  match parsedHour st with Some h => Some h | None => markerHour st end.
Definition effectiveMinute (st : state) : option Z :=
  match parsedMinute st with Some m => Some m | None => markerMinute st end.

Definition applyTime (st : state) (base : Date) : Date :=
  match effectiveHour st, effectiveMinute st with
  | Some h, Some m => atTime base h m
  | _, _ => atEndOfDay base
  end.

(** [patch.repeat_after = a; patch.repeat_mode = 0] *)
Definition interval (a : Z) (p : ParsedTaskPatch) : ParsedTaskPatch :=
  set_repeat_mode (Some 0) (set_repeat_after (Some a) p).

(** 6. Recurrence keywords *)
Definition stageRecurrence (st : state) : state :=
  if test everyDayRe (remaining st) then
    erase everyDayRe (with_patch (interval 86400) st)
  else if test everyWeekRe (remaining st) then
    erase everyWeekRe (with_patch (interval 604800) st)
  else if test everyMonthRe (remaining st) then
    erase everyMonthRe (with_patch (set_repeat_mode (Some 1)) st)
  else if test everyHourRe (remaining st) then
    erase everyHourRe (with_patch (interval 3600) st)
  else
    match jsmatch everyNHoursRe (remaining st) with
    | Some mt =>
      let n := parseInt (g1 mt) in
      erase everyNHoursRe (with_patch (interval (3600 * n)) st)
    | None => st
    end.

(** [if (patch.repeat_after === undefined && patch.repeat_mode === undefined)] *)
Definition noRecurrence (p : ParsedTaskPatch) : bool :=
  isNone (repeat_after p) && isNone (repeat_mode p).

Definition weeklyIfUnset (p : ParsedTaskPatch) : ParsedTaskPatch :=
  if noRecurrence p then interval 604800 p else p.

Definition monthlyIfUnset (p : ParsedTaskPatch) : ParsedTaskPatch :=
  if noRecurrence p then set_repeat_mode (Some 1) p else p.

(** [patch.due_date = toIso(d)] *)
Definition setDue (d : Date) (st : state) : outcome state :=
  s <- toIso d ;; Ok (with_patch (set_due_date (Some s)) st).

Section Stages.

Variable text : jsstring.
Variable now : Date.

(** The second day of each week *)
Definition stageSecondDayOfWeek (st : state) : outcome state :=
  if test secondDayOfWeekRe (remaining st) && isNone (due_date (patch st))
  then
    let st := with_patch weeklyIfUnset st in
    let base := nextWeekday (startOfDay now) 2 true in
    st <- setDue (applyTime st base) st ;;
    Ok (erase secondDayOfWeekRe st)
  else Ok st.

(** Every <weekday> *)
Definition stageEveryWeekday (st : state) : outcome state :=
  let weekdayRecurMatch :=
    if isNone (due_date (patch st))
    then jsmatch everyWeekdayRe (remaining st) else None in
  match weekdayRecurMatch with
  | Some mt =>
    let dayKey := toLowerCase (g1 mt) in
    st <-
      match lookup WEEKDAY_MAP dayKey with
      | Some targetDay =>
        let st := with_patch weeklyIfUnset st in
        let base := nextWeekday (startOfDay now) targetDay true in
        setDue (applyTime st base) st
      | None => Ok st
      end ;;
    Ok (erase everyWeekdayRe st)
  | None => Ok st
  end.

(** Every <day of the month> *)
Definition stageEveryDayOfMonth (st : state) : outcome state :=
  let dayOfMonthMatch :=
    if isNone (due_date (patch st))
    then jsmatch everyDayOfMonthRe (remaining st) else None in
  match dayOfMonthMatch with
  | Some mt =>
    let day := parseInt (g1 mt) in
    let st := with_patch monthlyIfUnset st in
    let base := nearestDayOfMonth (startOfDay now) day in
    st <- setDue (applyTime st base) st ;;
    Ok (erase everyDayOfMonthRe st)
  | None => Ok st
  end.

(** 7. Date expressions *)
Definition stageDateExpressions (st : state) : outcome state :=
  if isNone (due_date (patch st)) then
    if test todayRe (remaining st) then
      st <- setDue (applyTime st (startOfDay now)) st ;;
      Ok (erase todayRe st)
    else if test tomorrowRe (remaining st) then
      st <- setDue (applyTime st (startOfDay (addDays now 1))) st ;;
      Ok (erase tomorrowRe st)
    else if test dayAfterTomorrowRe (remaining st) then
      st <- setDue (applyTime st (startOfDay (addDays now 2))) st ;;
      Ok (erase dayAfterTomorrowRe st)
    else
      match jsmatch inNDaysRe (remaining st) with
      | Some mt =>
        let n := parseInt (g1 mt) in
        st <- setDue (applyTime st (startOfDay (addDays now n))) st ;;
        Ok (erase inNDaysRe st)
      | None =>
        match jsmatch weekdayOnceRe (remaining st) with
        | Some mt =>
          let dayKey := toLowerCase (g1 mt) in
          st <-
            match lookup WEEKDAY_MAP dayKey with
            | Some targetDay =>
              setDue
                (applyTime st (nextWeekday (startOfDay now) targetDay false))
                st
            | None => Ok st
            end ;;
          Ok (erase weekdayOnceRe st)
        | None => Ok st
        end
      end
  else Ok st.

(** 8. Time-only (no date matched) *)
Definition stageTimeOnly (st : state) : outcome state :=
  match due_date (patch st), effectiveHour st, effectiveMinute st with
  | None, Some h, Some m =>
    let candidate := atTime (startOfDay now) h m in
    if isBefore candidate now
    then setDue (atTime (startOfDay (addDays now 1)) h m) st
    else setDue candidate st
  | _, _, _ => Ok st
  end.

(** 9. Hourly repeat: set due_date if still missing *)
Definition stageHourlyRepeat (st : state) : outcome state :=
  match repeat_after (patch st), due_date (patch st) with
  | Some a, None =>
    if a <? 86400 then setDue (ceilToHour now) st else Ok st
  | _, _ => Ok st
  end.

(** 10. Monthly repeat fallback: use today if no date *)
Definition stageMonthlyRepeat (st : state) : outcome state :=
  match repeat_mode (patch st), due_date (patch st) with
  | Some 1, None =>
    let candidate := applyTime st (startOfDay now) in
    if isBefore candidate now
    then setDue (applyTime st (startOfDay (addDays now 1))) st
    else setDue candidate st
  | _, _ => Ok st
  end.

(** 11. Build cleaned_title *)
Definition cleanedOf (st : state) : jsstring :=
  trim (replaceAll spacesRe (js " ") (remaining st)).

Definition titleChanged (cleaned : jsstring) : bool :=
  (0 <? List.length cleaned)%nat
  && negb (JsString.eqb (toLowerCase cleaned) (trim (toLowerCase text))).

Definition stageTitle (st : state) : state :=
  let cleaned := cleanedOf st in
  if titleChanged cleaned
  then
    with_patch
      (set_cleaned_title
         (Some (toUpperCase (charAt cleaned 0) ++ skipn 1 cleaned))) st
  else st.

(** The stages in the order the function runs them. *)
Definition pure (f : state -> state) (st : state) : outcome state :=
  Ok (f st).

Definition stages : list (state -> outcome state) :=
  [ pure stagePriority; pure stageProject; pure stageLabels;
    pure stageExplicitTime; pure stageTimeMarker; pure stageRecurrence;
    stageSecondDayOfWeek; stageEveryWeekday; stageEveryDayOfMonth;
    stageDateExpressions; stageTimeOnly; stageHourlyRepeat;
    stageMonthlyRepeat; pure stageTitle ].

Fixpoint run (fs : list (state -> outcome state)) (st : state)
  : outcome state :=
  match fs with
  | [] => Ok st
  | f :: fs' => st' <- f st ;; run fs' st'
  end.

Definition initial : state :=
  State text emptyPatch None None None None.

(** Return null if nothing was enriched. *)
Definition hasMeaningfulPatch (p : ParsedTaskPatch) : bool :=
  negb (isNone (due_date p))
  || negb (isNone (priority p))
  || negb (isNone (project_name p))
  || match labels p with Some l => (0 <? List.length l)%nat | None => false end
  || negb (isNone (repeat_after p))
  || negb (isNone (repeat_mode p)).

Definition gate (p : ParsedTaskPatch) : option ParsedTaskPatch :=
  if negb (hasMeaningfulPatch p) && isNone (cleaned_title p)
  then None else Some p.

(** [parseQuickAddRu(text, now)]: [Ok None] is [null]. *)
Definition parseQuickAddRu : outcome (option ParsedTaskPatch) :=
  if (List.length text =? 0)%nat || (List.length (trim text) =? 0)%nat
  then Ok None
  else st <- run stages initial ;; Ok (gate (patch st)).

End Stages.

End QuickAddRu.

(* ================================================================== *)
(** ** The Vikunja client (src/services/vikunjaClient.ts) *)
(* ================================================================== *)

Module VikunjaClient.

Import JsString.

(** An [Error]: its name and its message. *)
Record Error : Type := MkError {
  name : jsstring;
  message : jsstring
}.

(** A settled promise. *)
Inductive settled (A : Type) : Type :=
| Fulfilled (a : A)
| Rejected (e : Error).
Arguments Rejected {A}.

(** [s.startsWith(sub)] and [s.includes(sub)]. *)
Fixpoint startsWith (s sub : jsstring) {struct sub} : bool :=
  match sub, s with
  | [], _ => true
  | c :: sub', d :: s' => N.eqb c d && startsWith s' sub'
  | _ :: _, [] => false
  end.

Fixpoint includes (s sub : jsstring) : bool :=
  startsWith s sub
  || match s with
     | [] => false
     | _ :: s' => includes s' sub
     end.

(** [String(n)] for a natural number: its decimal digits.  [fuel] bounds
    their count. *)
Fixpoint digits (fuel : nat) (n : N) : jsstring :=
  match fuel with
  | O => []
  | S fuel' =>
    if (n <? 10)%N then [(48 + n)%N]
    else digits fuel' (n / 10)%N ++ [(48 + n mod 10)%N]
  end.

Definition decimal (n : N) : jsstring := digits (S (N.to_nat (N.log2 n))) n.

(** *** [request] *)

(** What the client reads of a [Response]: [ok], [status], the outcome of
    [text()], the [content-type] header (absent is [null]) and the outcome
    of [json()]. *)
Record Response (T : Type) : Type := MkResponse {
  ok : bool;
  status : N;
  text : settled jsstring;
  contentType : option jsstring;
  json : settled T
}.

(** What [await fetch(...)] does: a response, or an error thrown; an
    aborted fetch throws an error named AbortError. *)
Inductive fetched (T : Type) : Type :=
| Responded (r : Response T)
| Failed (e : Error).
Arguments Failed {T}.

Section Request.

Variable T : Type.

(** [{} as T] *)
Variable emptyObject : T.

(** The [try] block of one attempt: the value returned, or the error
    thrown. *)
Definition attemptOnce (f : fetched T) : settled T :=
  match f with
  | Failed e => Rejected e
  | Responded r =>
    if negb (ok r) then
      (* response.text().catch(() => '') *)
      let body := match text r with Fulfilled s => s | Rejected _ => [] end in
      Rejected
        (MkError (js "Error")
                 (js "Vikunja API error " ++ decimal (status r) ++ js ": "
                     ++ body))
    else
      (* response.headers.get('content-type') ?? '' *)
      let ct := match contentType r with Some s => s | None => [] end in
      if includes ct (js "application/json") then json r
      else Fulfilled emptyObject
  end.

Definition isServerError (e : Error) : bool :=
  includes (message e) (js "5")
  || includes (message e) (js "timeout")
  || JsString.eqb (name e) (js "AbortError").

Definition unknownError : Error :=
  MkError (js "Error") (js "Unknown error in VikunjaClient.request").

(** The [for] loop from [attempt] on, [left] iterations being left to run:
    the outcome of the request and the number of fetches made.  [fetch]
    gives what the fetch of each attempt does. *)
Fixpoint attempts (fetch : nat -> fetched T) (retries : nat)
  (left : nat) (attempt : nat) (lastError : option Error)
  : settled T * nat :=
  match left with
  | O =>
    (* throw lastError ?? new Error('Unknown error ...') *)
    (Rejected (match lastError with Some e => e | None => unknownError end),
     O)
  | S left' =>
    match attemptOnce (fetch attempt) with
    | Fulfilled v => (Fulfilled v, 1%nat)
    | Rejected e =>
      if (attempt <? retries)%nat && isServerError e then
        let (r, n) := attempts fetch retries left' (S attempt) (Some e) in
        (r, S n)
      else (Rejected e, 1%nat)
    end
  end.

(** [for (let attempt = 0; attempt <= this.retries; attempt++)] *)
Definition request (fetch : nat -> fetched T) (retries : nat)
  : settled T * nat :=
  attempts fetch retries (S retries) 0 None.

End Request.

(** *** Projects and labels *)

Record Project : Type := MkProject {
  project_id : Z;
  project_title : jsstring
}.

Record Label : Type := MkLabel {
  label_id : Z;
  label_title : jsstring
}.

(** What a request is fulfilled with: the JSON of the reply, taken to be
    of the type the caller names, or the empty object that [request]
    answers a success without JSON with ([{} as T]). *)
Inductive reply (T : Type) : Type :=
| Json (v : T)
| EmptyObject.
Arguments EmptyObject {T}.

(** [created.id]: [undefined], here [None], on the empty object. *)
Definition idOf (created : reply Label) : option Z :=
  match created with
  | Json l => Some (label_id l)
  | EmptyObject => None
  end.

(** The TypeError of a call of an array method on the empty object. *)
Definition notAFunction (method : jsstring) : Error :=
  MkError (js "TypeError") (method ++ js " is not a function").

(** A [Map<string, number>]: the entries set, the latest first.  The
    value of an entry is [undefined] when the id set was. *)
Definition Map : Type := list (jsstring * option Z).

(** [labelMap.get(key)]: [undefined] for a key that is not set, and for
    a key set to [undefined]. *)
Definition Map_get (key : jsstring) (mp : Map) : option Z :=
  match find (fun kv => JsString.eqb (fst kv) key) mp with
  | Some kv => snd kv
  | None => None
  end.

Definition Map_set (key : jsstring) (v : option Z) (mp : Map) : Map :=
  (key, v) :: mp.

(** [new Map(entries)]: the entries are set in order. *)
Definition Map_of (entries : list (jsstring * option Z)) : Map :=
  fold_left (fun mp kv => Map_set (fst kv) (snd kv) mp) entries [].

Section Resolve.

(** [String.prototype.toLowerCase].  Titles and names are text in any
    script; the two methods use the function only to compare its
    results, so it is left open here, and what is proved of the methods
    holds whatever it maps a string to. *)
Variable toLowerCase : jsstring -> jsstring.

(** [title.toLowerCase().trim()] *)
Definition normalise (title : jsstring) : jsstring :=
  trim (toLowerCase title).

(** The server, and what a call does to it. *)
Variable W : Type.
Variable getProjects : W -> settled (reply (list Project)) * W.
Variable getLabels : W -> settled (reply (list Label)) * W.
Variable createLabel : jsstring -> W -> settled (reply Label) * W.

(** The loop of [resolveLabels]. *)
Fixpoint resolveEach (names : list jsstring) (labelMap : Map)
  (ids : list (option Z)) (w : W) : settled (list (option Z)) * W :=
  match names with
  | [] => (Fulfilled ids, w)
  | name :: names' =>
    let key := normalise name in
    match Map_get key labelMap with
    | Some existingId =>
      resolveEach names' labelMap (ids ++ [Some existingId]) w
    | None =>
      match createLabel name w with
      | (Fulfilled created, w') =>
        resolveEach names' (Map_set key (idOf created) labelMap)
                    (ids ++ [idOf created]) w'
      | (Rejected e, w') => (Rejected e, w')
      end
    end
  end.

Definition resolveLabels (names : list jsstring) (w : W)
  : settled (list (option Z)) * W :=
  match getLabels w with
  | (Fulfilled (Json existing), w') =>
    let labelMap :=
      Map_of (map (fun l => (normalise (label_title l), Some (label_id l)))
                  existing) in
    resolveEach names labelMap [] w'
  | (Fulfilled EmptyObject, w') =>
    (Rejected (notAFunction (js "existing.map")), w')
  | (Rejected e, w') => (Rejected e, w')
  end.

(** [undefined] is [None]. *)
Definition resolveProjectId (name : jsstring) (w : W)
  : settled (option Z) * W :=
  match getProjects w with
  | (Fulfilled (Json projects), w') =>
    let needle := normalise name in
    let found :=
      find (fun p => JsString.eqb (normalise (project_title p)) needle)
           projects in
    (Fulfilled (option_map project_id found), w')
  | (Fulfilled EmptyObject, w') =>
    (Rejected (notAFunction (js "projects.find")), w')
  | (Rejected e, w') => (Rejected e, w')
  end.

End Resolve.

End VikunjaClient.

(* ================================================================== *)
(** ** The webhook route (src/routes/vikunjaWebhook.ts) *)
(* ================================================================== *)

Module VikunjaWebhook.

Import JsString JsDate QuickAddRu VikunjaClient.
Local Open Scope Z_scope.

(** The fields of the payload the handler reads, after validation by the
    schema; a [due_date] that is [null] or absent is [None]. *)
Record Task : Type := MkTask {
  id : Z;
  title : jsstring;
  task_due_date : option jsstring
}.

Record WebhookPayload : Type := MkPayload {
  event_name : jsstring;
  task : Task
}.

(** [TaskPatch] of src/types/vikunja.ts. *)
Record TaskPatch : Type := MkTaskPatch {
  patch_title : option jsstring;
  patch_due_date : option jsstring;
  patch_priority : option Z;
  patch_project_id : option Z;
  patch_repeat_after : option Z;
  patch_repeat_mode : option Z
}.

(** [task.due_date && task.due_date !== '0001-01-01T00:00:00Z'] *)
Definition hasDueDate (t : Task) : bool :=
  match task_due_date t with
  | Some d =>
    negb (List.length d =? 0)%nat
    && negb (JsString.eqb d (js "0001-01-01T00:00:00Z"))
  | None => false
  end.

(** The patch built from the defined fields of the parser's result,
    [project_id] apart. *)
Definition buildPatch (parsed : ParsedTaskPatch) : TaskPatch :=
  MkTaskPatch (cleaned_title parsed) (due_date parsed) (priority parsed)
              None (repeat_after parsed) (repeat_mode parsed).

Definition withProject (projectId : Z) (p : TaskPatch) : TaskPatch :=
  MkTaskPatch (patch_title p) (patch_due_date p) (patch_priority p)
              (Some projectId) (patch_repeat_after p) (patch_repeat_mode p).

Section Handler.

(** The server, and what the client's methods do to it.  An id that is
    [undefined] is [None]. *)
Variable W : Type.
Variable resolveProjectId : jsstring -> W -> settled (option Z) * W.
Variable updateTask : Z -> TaskPatch -> W -> settled unit * W.
Variable resolveLabels :
  list jsstring -> W -> settled (list (option Z)) * W.
Variable setTaskLabels : Z -> list (option Z) -> W -> settled unit * W.

(** Resolve project name to ID: a project that is not found and a failed
    lookup both leave the patch without [project_id]. *)
Definition resolveProject (parsed : ParsedTaskPatch) (p : TaskPatch) (w : W)
  : TaskPatch * W :=
  match project_name parsed with
  | Some projectName =>
    match resolveProjectId projectName w with
    | (Fulfilled (Some projectId), w') => (withProject projectId p, w')
    | (Fulfilled None, w') => (p, w')
    | (Rejected _, w') => (p, w')
    end
  | None => (p, w)
  end.

(** Attach labels: a failure is logged and goes no further. *)
Definition attachLabels (t : Task) (parsed : ParsedTaskPatch) (w : W) : W :=
  match labels parsed with
  | Some names =>
    if (0 <? List.length names)%nat then
      match resolveLabels names w with
      | (Fulfilled labelIds, w') => snd (setTaskLabels (id t) labelIds w')
      | (Rejected _, w') => w'
      end
    else w
  | None => w
  end.

(** [handleWebhook], after the reply, which is sent first and is always
    200.  [body] is the payload when the schema accepts it; [now] is the
    clock at the call of the parser.  The promise is fulfilled ([Ok]) with
    the server as the calls have left it, or rejected with the RangeError
    of the parser, which nothing catches. *)
Definition handleWebhook (body : option WebhookPayload) (now : Z) (w : W)
  : outcome W :=
  match body with
  | None => Ok w
  | Some payload =>
    let t := task payload in
    if negb (JsString.eqb (event_name payload) (js "task.created")) then Ok w
    else if hasDueDate t then Ok w
    else
      parsed <- parseQuickAddRu (title t) (Some now) ;;
      match parsed with
      | None => Ok w
      | Some parsed =>
        let (p, w1) := resolveProject parsed (buildPatch parsed) w in
        match updateTask (id t) p w1 with
        | (Rejected _, w2) => Ok w2
        | (Fulfilled _, w2) => Ok (attachLabels t parsed w2)
        end
      end
  end.

End Handler.

End VikunjaWebhook.

(* ================================================================== *)
(** ** Vocabulary of the properties *)
(* ================================================================== *)

Import JsString Regex JsDate QuickAddRu.
Local Open Scope Z_scope.

(** The reference instant of the test suite: Wednesday 2024-01-10
    12:00:00 UTC. *)
Definition NOW : Date := Some 1704888000000.

(** A patch that carries a due date and, possibly, a title. *)
Definition dueOnly (due : string) (title : option string)
  : ParsedTaskPatch :=
  Patch (Some (js due)) None None None None None (option_map js title).

(** The state of a run that did not throw. *)
Definition stateOf (r : outcome state) : state :=
  match r with
  | Ok st => st
  | RangeError => initial []
  end.

(** The invariant of the recurrence fields: a mode that is set is 0 or 1,
    and an interval comes with mode 0. *)
Definition recurrenceOk (p : ParsedTaskPatch) : Prop :=
  (repeat_mode p = None \/ repeat_mode p = Some 0 \/ repeat_mode p = Some 1)
  /\ (repeat_after p <> None -> repeat_mode p = Some 0).

(** A stage step that leaves the recurrence fields alone. *)
Definition sameRecurrence (p q : ParsedTaskPatch) : Prop :=
  repeat_after q = repeat_after p /\ repeat_mode q = repeat_mode p.

(** A stage keeps the recurrence invariant and never replaces a due date
    that is already set. *)
Definition keeps (f : state -> outcome state) : Prop :=
  forall st st', f st = Ok st' ->
    (recurrenceOk (patch st) -> recurrenceOk (patch st'))
    /\ (forall d, due_date (patch st) = Some d ->
                  due_date (patch st') = Some d).

(** Every stage of the pipeline leaves a due date that is set as it is. *)
Definition keepsDue (f : state -> outcome state) : Prop :=
  forall st st' d, f st = Ok st' ->
    due_date (patch st) = Some d -> due_date (patch st') = Some d.

(** A stage keeps the recurrence invariant. *)
Definition keepsRecurrence (f : state -> outcome state) : Prop :=
  forall st st', f st = Ok st' ->
    recurrenceOk (patch st) -> recurrenceOk (patch st').

(** A stage leaves [cleaned_title] alone. *)
Definition keepsTitle (f : state -> outcome state) : Prop :=
  forall st st', f st = Ok st' ->
    cleaned_title (patch st') = cleaned_title (patch st).

(** The stages before the title stage. *)
Definition beforeTitle (now : Date) : list (state -> outcome state) :=
  [ pure stagePriority; pure stageProject; pure stageLabels;
    pure stageExplicitTime; pure stageTimeMarker; pure stageRecurrence;
    stageSecondDayOfWeek now; stageEveryWeekday now;
    stageEveryDayOfMonth now; stageDateExpressions now; stageTimeOnly now;
    stageHourlyRepeat now; stageMonthlyRepeat now ].

(** The recurrence table of the specification, in its priority order: a
    pattern, and what a match of it puts in the patch. *)
Definition recurrenceKeywords
  : list (regex * (matched -> ParsedTaskPatch -> ParsedTaskPatch)) :=
  [ (everyDayRe, fun _ => interval 86400);
    (everyWeekRe, fun _ => interval 604800);
    (everyMonthRe, fun _ => set_repeat_mode (Some 1));
    (everyHourRe, fun _ => interval 3600);
    (everyNHoursRe, fun mt => interval (3600 * parseInt (g1 mt))) ].

(** The first entry of a table whose pattern matches, with its match. *)
Fixpoint firstMatch {A : Type} (tbl : list (regex * A)) (s : jsstring)
  : option (regex * A * matched) :=
  match tbl with
  | [] => None
  | (re, a) :: tbl' =>
    match jsmatch re s with
    | Some mt => Some (re, a, mt)
    | None => firstMatch tbl' s
    end
  end.

(** The keyword stage as the specification words it: the first keyword
    that matches populates the patch and is erased; the rest are not
    looked at. *)
Definition recurrenceBySpec (st : state) : state :=
  match firstMatch recurrenceKeywords (remaining st) with
  | Some (re, act, mt) => erase re (with_patch (act mt) st)
  | None => st
  end.

(** The largest time value of a valid [Date]. *)
Definition maxTime : Z := 8640000000000000.

(** Months are numbered 0 to 11. *)
Definition isMonth (m : Z) : Prop := 0 <= m <= 11.

(** The month after month [m] of year [y]. *)
Definition nextMonth (y m : Z) : Z * Z :=
  if m =? 11 then (y + 1, 0) else (y, m + 1).

(** The resolver as the specification words it, on day numbers: clamp the
    day to the length of the month of [t]; if that day of the month is not
    before the day of [t], take it; otherwise take the day, clamped to its
    length, of the next month. *)
Definition resolveDayOfMonth (t day : Z) : Z :=
  let y := YearFromTime t in
  let m := MonthFromTime t in
  let candidate := MakeDay y m (Z.min day (daysInMonth y m)) in
  if candidate <? Day t then
    let ny := fst (nextMonth y m) in
    let nm := snd (nextMonth y m) in
    MakeDay ny nm (Z.min day (daysInMonth ny nm))
  else candidate.

(** The patterns of the extraction stages, in the order of the source. *)
Definition stagePatterns : list regex :=
  [ prioNumRe; prioWordRe; projectQuotedRe; projectSimpleRe; labelQuotedRe;
    labelSimpleRe; explicitTimeRe; hourOnlyTimeRe; timeMarkerRe; everyDayRe;
    everyWeekRe; everyMonthRe; everyHourRe; everyNHoursRe;
    secondDayOfWeekRe; everyWeekdayRe; everyDayOfMonthRe; todayRe;
    tomorrowRe; dayAfterTomorrowRe; inNDaysRe; weekdayOnceRe ].

(** Text without markers: no pattern of any stage matches it. *)
Definition markerFree (text : jsstring) : bool :=
  forallb (fun re => negb (test re text)) stagePatterns.

(** Text in which no run of white space needs collapsing. *)
Definition singleSpaced (text : jsstring) : bool :=
  negb (test spacesRe text).

(** Text in which no code unit is an ASCII letter, digit or underscore:
    Russian text without digits, for one. *)
Definition noWordChars (text : jsstring) : bool :=
  forallb (fun c => negb (isWordChar c)) text.

(** The time the fallback stages apply: the effective time, or 23:59. *)
Definition timeOrEndOfDay (st : state) : Z * Z :=
  match effectiveHour st, effectiveMinute st with
  | Some h, Some m => (h, m)
  | _, _ => (23, 59)
  end.

(** Today at [h:m] when that is not before [t], tomorrow at [h:m]
    otherwise. *)
Definition todayOrTomorrow (t h m : Z) : Z :=
  let today := Day t * msPerDay + h * msPerHour + m * msPerMinute in
  if today <? t then today + msPerDay else today.

(** Two states that differ at most in the value of a due date that both
    have or both lack. *)
Definition sameButDue (a b : state) : Prop :=
  remaining a = remaining b
  /\ parsedHour a = parsedHour b /\ parsedMinute a = parsedMinute b
  /\ markerHour a = markerHour b /\ markerMinute a = markerMinute b
  /\ set_due_date None (patch a) = set_due_date None (patch b)
  /\ isNone (due_date (patch a)) = isNone (due_date (patch b)).

(** Two stages that keep such states such. *)
Definition inStep (f g : state -> outcome state) : Prop :=
  forall a b a' b',
    sameButDue a b -> f a = Ok a' -> g b = Ok b' -> sameButDue a' b'.

(** A stage leaves the due date as it finds it, set or not. *)
Definition leavesDue (f : state -> outcome state) : Prop :=
  forall st st', f st = Ok st' ->
    due_date (patch st') = due_date (patch st).

(** [times n R]: [n] steps of [R] in a row. *)
Fixpoint times {A : Type} (n : nat) (R : A -> A -> Prop) (a b : A) : Prop :=
  match n with
  | O => b = a
  | S n' => exists c, R a c /\ times n' R c b
  end.

(** What a successful run of the matcher over pattern [r] has done between
    two match states: the characters it has read and the captures it has
    recorded.  A quantifier has made at least [min] iterations, unless its
    [max] is below its [min]. *)
Fixpoint steps (s : jsstring) (r : regex) (a b : mstate) : Prop :=
  match r with
  | Eps => b = a
  | Chr c =>
    charIs s (pos a) (fun x => N.eqb (canonicalize x) (canonicalize c)) = true
    /\ b = advance a
  | Cls invert items =>
    charIs s (pos a) (inClass invert items) = true /\ b = advance a
  | Seq r1 r2 => exists c, steps s r1 a c /\ steps s r2 c b
  | Alt r1 r2 => steps s r1 a b \/ steps s r2 a b
  | Rep min max r1 =>
    exists n, times n (steps s r1) a b
              /\ ((min <= n)%nat
                  \/ exists mx, max = Some mx /\ (mx < min)%nat)
  | Grp i r1 =>
    exists c, steps s r1 a c
              /\ b = MState (pos c) ((i, (pos a, pos c)) :: caps c)
  | WordB => isWordBoundary s (pos a) = true /\ b = a
  | NegLook _ => b = a
  end.

(** A stage leaves the fields of the extraction stages alone: priority,
    project and labels. *)
Definition keepsExtracted (f : state -> outcome state) : Prop :=
  forall st st', f st = Ok st' ->
    priority (patch st') = priority (patch st)
    /\ project_name (patch st') = project_name (patch st)
    /\ labels (patch st') = labels (patch st).

(** The stages after the three extraction stages. *)
Definition afterExtraction (text : jsstring) (now : Date)
  : list (state -> outcome state) :=
  [ pure stageExplicitTime; pure stageTimeMarker; pure stageRecurrence;
    stageSecondDayOfWeek now; stageEveryWeekday now;
    stageEveryDayOfMonth now; stageDateExpressions now; stageTimeOnly now;
    stageHourlyRepeat now; stageMonthlyRepeat now; pure (stageTitle text) ].

(** Every capture group of [r] has a body that [ok] accepts. *)
Fixpoint groupsOk (ok : regex -> bool) (r : regex) : bool :=
  match r with
  | Eps | Chr _ | Cls _ _ | WordB | NegLook _ => true
  | Seq r1 r2 | Alt r1 r2 => groupsOk ok r1 && groupsOk ok r2
  | Rep _ _ r1 => groupsOk ok r1
  | Grp _ r1 => ok r1
  end.

(** A repetition of one character class that [q] accepts. *)
Definition classRun (q : bool -> list clsitem -> bool) (r : regex) : bool :=
  match r with
  | Rep _ _ (Cls invert items) => q invert items
  | _ => false
  end.

(** The class [\d]. *)
Definition digitClass (invert : bool) (items : list clsitem) : bool :=
  negb invert
  && forallb (fun it => match it with CDigit => true | _ => false end) items.

(** A negated class that lists the double quote. *)
Definition quoteFreeClass (invert : bool) (items : list clsitem) : bool :=
  invert
  && existsb (fun it => match it with
                        | CChar c => N.eqb c dquote
                        | _ => false
                        end) items.

(** Every capture of a match state is a piece of text made of [P]. *)
Definition capsAll (s : jsstring) (P : N -> Prop) (st : mstate) : Prop :=
  forall i x y, In (i, (x, y)) (caps st) -> Forall P (slice s x y).

(** A string as [trim] leaves it: empty, or with no white space at either
    end. *)
Definition trimmed (s : jsstring) : bool :=
  match s with
  | [] => true
  | c :: _ => negb (isSpace c) && negb (isSpace (last s c))
  end.

(** An interval that is set is a whole, non-negative number of hours, in
    seconds. *)
Definition intervalOk (p : ParsedTaskPatch) : Prop :=
  forall a, repeat_after p = Some a -> exists n, 0 <= n /\ a = 3600 * n.

(** A stage keeps that. *)
Definition keepsInterval (f : state -> outcome state) : Prop :=
  forall st st', f st = Ok st' ->
    intervalOk (patch st) -> intervalOk (patch st').

Section Loop.

Variable input : jsstring.
Variable r1 : regex.
Variable k : mstate -> option mstate.

(** The loop of a quantifier in [m], with its counter as an argument. *)
Fixpoint repLoop (fuel : nat) (min : nat) (max : option nat) (st : mstate)
  {struct fuel} : option mstate :=
  match max with
  | Some O => k st
  | _ =>
    match fuel with
    | O => k st
    | S fuel' =>
      match
        m input r1
          (fun st' =>
             if (min =? 0)%nat && (pos st' =? pos st)%nat then None
             else repLoop fuel' (Nat.pred min) (option_map Nat.pred max) st')
          st
      with
      | Some res => Some res
      | None => if (min =? 0)%nat then k st else None
      end
    end
  end.

End Loop.

(** The number of white-space characters at the head of a string. *)
Fixpoint spaceRun (s : jsstring) : nat :=
  match s with
  | c :: r => if isSpace c then S (spaceRun r) else O
  | [] => O
  end.

(** No two white-space characters in a row. *)
Fixpoint noSpaceRun (s : jsstring) : bool :=
  match s with
  | a :: r =>
    match r with
    | b :: _ => negb (isSpace a && isSpace b) && noSpaceRun r
    | [] => true
    end
  | [] => true
  end.

(** Empty, or not starting with white space. *)
Definition headNonSpace (s : jsstring) : bool :=
  match s with
  | c :: _ => negb (isSpace c)
  | [] => true
  end.

(** No white space from [a] to [b]. *)
Definition spaceFree (a b : N) : bool :=
  forallb (fun xy => (snd xy <? a) || (b <? fst xy))%N
    [(9, 13); (32, 32); (160, 160); (5760, 5760); (8192, 8202);
     (8232, 8233); (8239, 8239); (8287, 8287); (12288, 12288);
     (65279, 65279)]%N.

(** A date that, when valid, is not before the start of the day of [t]. *)
Definition notBefore (t : Z) (d : Date) : Prop :=
  forall r, d = Some r -> Day t * msPerDay <= r.

(** The hours and minutes a state holds are not negative. *)
Definition timesOk (st : state) : Prop :=
  (forall h, parsedHour st = Some h -> 0 <= h)
  /\ (forall m, parsedMinute st = Some m -> 0 <= m)
  /\ (forall h, markerHour st = Some h -> 0 <= h)
  /\ (forall m, markerMinute st = Some m -> 0 <= m).

(** A due date that is set is the ISO form of an instant not before the
    start of the day of [t]. *)
Definition dueFrom (t : Z) (p : ParsedTaskPatch) : Prop :=
  forall d, due_date p = Some d ->
    exists r, toISOString (Some r) = Some d /\ Day t * msPerDay <= r.

(** A stage keeps both. *)
Definition keepsFrom (t : Z) (f : state -> outcome state) : Prop :=
  forall st st', f st = Ok st' ->
    timesOk st -> dueFrom t (patch st) ->
    timesOk st' /\ dueFrom t (patch st').

(** A call that keeps, beside the server, a log of its arguments and
    results. *)
Definition logged {W A B : Type}
  (call : A -> W -> VikunjaClient.settled B * W) (a : A)
  (wl : W * list (A * VikunjaClient.settled B))
  : VikunjaClient.settled B * (W * list (A * VikunjaClient.settled B)) :=
  let (r, w') := call a (fst wl) in (r, (w', snd wl ++ [(a, r)])).

(** A call that leaves such a log alone. *)
Definition unlogged {W L B : Type}
  (call : W -> VikunjaClient.settled B * W) (wl : W * L)
  : VikunjaClient.settled B * (W * L) :=
  let (r, w') := call (fst wl) in (r, (w', snd wl)).

(** A due date that is set is what [toISOString] gives for some date. *)
Definition isoDue (p : ParsedTaskPatch) : Prop :=
  forall d, due_date p = Some d -> exists r, toISOString (Some r) = Some d.

(** A stage keeps that. *)
Definition keepsIso (f : state -> outcome state) : Prop :=
  forall st st', f st = Ok st' -> isoDue (patch st) -> isoDue (patch st').

(** The calls the handler makes on the client. *)
Inductive Call : Type :=
| ResolveProjectId (name : jsstring)
| UpdateTask (taskId : Z) (p : VikunjaWebhook.TaskPatch)
| ResolveLabels (names : list jsstring)
| SetTaskLabels (taskId : Z) (labelIds : list (option Z)).

(** A method of the client that logs the call made. *)
Definition logging {W B : Type} (c : Call)
  (call : W -> VikunjaClient.settled B * W) (wl : W * list Call)
  : VikunjaClient.settled B * (W * list Call) :=
  let (r, w') := call (fst wl) in (r, (w', snd wl ++ [c])).

(** The handler on a client that logs. *)
Definition handleLogged {W : Type}
  (resolveProjectId : jsstring -> W -> VikunjaClient.settled (option Z) * W)
  (updateTask : Z -> VikunjaWebhook.TaskPatch -> W
                -> VikunjaClient.settled unit * W)
  (resolveLabels : list jsstring -> W
                   -> VikunjaClient.settled (list (option Z)) * W)
  (setTaskLabels : Z -> list (option Z) -> W
                   -> VikunjaClient.settled unit * W)
  : option VikunjaWebhook.WebhookPayload -> Z -> W * list Call
    -> outcome (W * list Call) :=
  VikunjaWebhook.handleWebhook
    (fun name => logging (ResolveProjectId name) (resolveProjectId name))
    (fun i p => logging (UpdateTask i p) (updateTask i p))
    (fun names => logging (ResolveLabels names) (resolveLabels names))
    (fun i ids => logging (SetTaskLabels i ids) (setTaskLabels i ids)).

(** A patch for the API whose fields are in their ranges: a priority from
    1 to 5, a repeat mode 0 or 1, an interval with mode 0 that is a whole
    number of hours when it is below 2^53, a normalised title, an ISO due
    date. *)
Definition wellFormed (p : VikunjaWebhook.TaskPatch) : Prop :=
  (forall v, VikunjaWebhook.patch_priority p = Some v -> 1 <= v <= 5)
  /\ (forall m, VikunjaWebhook.patch_repeat_mode p = Some m ->
        m = 0 \/ m = 1)
  /\ (forall a, VikunjaWebhook.patch_repeat_after p = Some a ->
        VikunjaWebhook.patch_repeat_mode p = Some 0
        /\ (a < 2 ^ 53 -> exists n, 0 <= n /\ a = 3600 * n))
  /\ (forall t, VikunjaWebhook.patch_title p = Some t ->
        t <> [] /\ trim t = t /\ noSpaceRun t = true)
  /\ (forall d, VikunjaWebhook.patch_due_date p = Some d ->
        exists r, toISOString (Some r) = Some d).

(** A call that attaches labels. *)
Definition isLabelCall (c : Call) : bool :=
  match c with
  | ResolveLabels _ | SetTaskLabels _ _ => true
  | _ => false
  end.

Definition isUpdateCall (c : Call) : bool :=
  match c with
  | UpdateTask _ _ => true
  | _ => false
  end.

(** Every match of [r] reads a digit. *)
Fixpoint needsDigit (r : regex) : bool :=
  match r with
  | Cls invert items => digitClass invert items
  | Seq r1 r2 => needsDigit r1 || needsDigit r2
  | Alt r1 r2 => needsDigit r1 && needsDigit r2
  | Rep min max r1 =>
    (1 <=? min)%nat
    && match max with Some mx => (min <=? mx)%nat | None => true end
    && needsDigit r1
  | Grp _ r1 => needsDigit r1
  | _ => false
  end.

(** Text without digits. *)
Definition digitFree (s : jsstring) : bool :=
  forallb (fun c => negb (isDigit c)) s.

(** A state on digit-free text: no explicit time, and a marker time, if
    any, that is a time of day. *)
Definition plainTimes (st : state) : Prop :=
  digitFree (remaining st) = true
  /\ parsedHour st = None /\ parsedMinute st = None
  /\ (forall h, markerHour st = Some h -> 0 <= h <= 23)
  /\ (forall m, markerMinute st = Some m -> 0 <= m <= 59).

(** A stage that returns on such states, with such a state. *)
Definition succeeds (f : state -> outcome state) : Prop :=
  forall st, plainTimes st -> exists st', f st = Ok st' /\ plainTimes st'.


(* ================================================================== *)
(** ** Properties *)
(* ================================================================== *)

(** *** Stage by stage *)

Lemma setDue_inv (d : Date) (st st' : state) :
  setDue d st = Ok st' ->
  exists s, toIso d = Ok s /\ st' = with_patch (set_due_date (Some s)) st.
Proof.
  unfold setDue, bind. destruct (toIso d) as [s|]; [|discriminate].
  intros H; inversion H; eauto.
Qed.

Lemma bind_inv {A B : Type} (x : outcome A) (f : A -> outcome B) (b : B) :
  bind x f = Ok b -> exists a, x = Ok a /\ f a = Ok b.
Proof. destruct x as [a|]; simpl; [eauto | discriminate]. Qed.

Lemma recurrenceOk_interval (a : Z) (p : ParsedTaskPatch) :
  recurrenceOk (interval a p).
Proof. split; simpl; auto. Qed.

Lemma recurrenceOk_weekly (p : ParsedTaskPatch) :
  recurrenceOk p -> recurrenceOk (weeklyIfUnset p).
Proof.
  unfold weeklyIfUnset. destruct (noRecurrence p); auto.
  intros _; apply recurrenceOk_interval.
Qed.

Lemma recurrenceOk_monthly (p : ParsedTaskPatch) :
  recurrenceOk p -> recurrenceOk (monthlyIfUnset p).
Proof.
  unfold monthlyIfUnset, noRecurrence, recurrenceOk.
  destruct (repeat_after p) eqn:Ha, (repeat_mode p) eqn:Hm; simpl;
    rewrite ?Ha, ?Hm; auto.
  intros _; split; auto. congruence.
Qed.

Lemma recurrenceOk_same (p q : ParsedTaskPatch) :
  sameRecurrence p q -> recurrenceOk p -> recurrenceOk q.
Proof. unfold sameRecurrence, recurrenceOk. intros [-> ->]; auto. Qed.

Ltac break_stage :=
  repeat match goal with
  | |- context [match ?x with _ => _ end] => destruct x eqn:?
  end.

Ltac invert_stage :=
  repeat match goal with
  | H : Ok _ = Ok _ |- _ => inversion H; subst; clear H
  | H : RangeError = Ok _ |- _ => discriminate H
  | H : bind _ _ = Ok _ |- _ =>
      apply bind_inv in H; destruct H as [? [? H]]
  | H : setDue _ _ = Ok _ |- _ =>
      apply setDue_inv in H; destruct H as [? [_ ->]]
  | H : (match ?x with _ => _ end) = Ok _ |- _ => destruct x eqn:?
  end.

Lemma stagePriority_patch (st : state) :
  sameRecurrence (patch st) (patch (stagePriority st))
  /\ due_date (patch (stagePriority st)) = due_date (patch st).
Proof. unfold stagePriority, sameRecurrence; break_stage; simpl; auto. Qed.

Lemma stageProject_patch (st : state) :
  sameRecurrence (patch st) (patch (stageProject st))
  /\ due_date (patch (stageProject st)) = due_date (patch st).
Proof. unfold stageProject, sameRecurrence; break_stage; simpl; auto. Qed.

Lemma stageLabels_patch (st : state) :
  sameRecurrence (patch st) (patch (stageLabels st))
  /\ due_date (patch (stageLabels st)) = due_date (patch st).
Proof. unfold stageLabels, sameRecurrence; break_stage; simpl; auto. Qed.

Lemma stageExplicitTime_patch (st : state) :
  patch (stageExplicitTime st) = patch st.
Proof. unfold stageExplicitTime; break_stage; reflexivity. Qed.

Lemma stageTimeMarker_patch (st : state) :
  patch (stageTimeMarker st) = patch st.
Proof. unfold stageTimeMarker; break_stage; reflexivity. Qed.

Lemma stageRecurrence_due (st : state) :
  due_date (patch (stageRecurrence st)) = due_date (patch st).
Proof. unfold stageRecurrence; break_stage; reflexivity. Qed.

Lemma stageRecurrence_ok (st : state) :
  noRecurrence (patch st) = true -> recurrenceOk (patch (stageRecurrence st)).
Proof.
  unfold noRecurrence, isNone. intros H.
  destruct (repeat_after (patch st)) eqn:Ha; [discriminate|].
  destruct (repeat_mode (patch st)) eqn:Hm; [discriminate|].
  unfold stageRecurrence; break_stage; simpl;
    try apply recurrenceOk_interval;
    unfold recurrenceOk; simpl; rewrite ?Ha, ?Hm; split; auto; congruence.
Qed.

Lemma keeps_guarded (f : state -> outcome state) :
  (forall st st', isNone (due_date (patch st)) = true -> f st = Ok st' ->
     recurrenceOk (patch st) -> recurrenceOk (patch st')) ->
  (forall st, isNone (due_date (patch st)) = false -> f st = Ok st) ->
  keeps f.
Proof.
  intros Hset Hskip st st' H.
  destruct (isNone (due_date (patch st))) eqn:Hn.
  - split; [eauto|]. intros d Hd. rewrite Hd in Hn. discriminate.
  - rewrite (Hskip st Hn) in H. inversion H; subst. auto.
Qed.

Lemma keeps_secondDayOfWeek (now : Date) : keeps (stageSecondDayOfWeek now).
Proof.
  apply keeps_guarded; unfold stageSecondDayOfWeek; intros st.
  - intros st' _ H Hok. apply recurrenceOk_weekly in Hok as Hok'.
    invert_stage; simpl; auto.
  - intros ->. rewrite andb_false_r. reflexivity.
Qed.

Lemma keeps_everyWeekday (now : Date) : keeps (stageEveryWeekday now).
Proof.
  apply keeps_guarded; unfold stageEveryWeekday; intros st.
  - intros st' _ H Hok. apply recurrenceOk_weekly in Hok as Hok'.
    invert_stage; simpl; auto.
  - intros ->. reflexivity.
Qed.

Lemma keeps_everyDayOfMonth (now : Date) : keeps (stageEveryDayOfMonth now).
Proof.
  apply keeps_guarded; unfold stageEveryDayOfMonth; intros st.
  - intros st' _ H Hok. apply recurrenceOk_monthly in Hok as Hok'.
    invert_stage; simpl; auto.
  - intros ->. reflexivity.
Qed.

Lemma keeps_dateExpressions (now : Date) : keeps (stageDateExpressions now).
Proof.
  apply keeps_guarded; unfold stageDateExpressions; intros st.
  - intros st' _ H Hok. invert_stage; simpl; auto.
  - intros ->. reflexivity.
Qed.

Lemma keeps_timeOnly (now : Date) : keeps (stageTimeOnly now).
Proof.
  intros st st' H. unfold stageTimeOnly in H.
  destruct (due_date (patch st)) eqn:Hd.
  - inversion H; subst. rewrite Hd. auto.
  - invert_stage; simpl; split; auto; discriminate.
Qed.

Lemma keeps_hourlyRepeat (now : Date) : keeps (stageHourlyRepeat now).
Proof.
  intros st st' H. unfold stageHourlyRepeat in H.
  destruct (due_date (patch st)) eqn:Hd.
  - destruct (repeat_after (patch st)); inversion H; subst;
      rewrite Hd; auto.
  - invert_stage; simpl; split; auto; try discriminate;
      rewrite Hd; discriminate.
Qed.

Lemma keeps_monthlyRepeat (now : Date) : keeps (stageMonthlyRepeat now).
Proof.
  intros st st' H. unfold stageMonthlyRepeat in H.
  destruct (due_date (patch st)) eqn:Hd.
  - assert (st' = st) as ->.
    { destruct (repeat_mode (patch st)) as [[|[]|]|]; congruence. }
    rewrite Hd. auto.
  - assert (Hsame : (exists s, st' = with_patch (set_due_date (Some s)) st)
                    \/ st' = st).
    { destruct (repeat_mode (patch st)) as [[|[]|]|];
        try (right; congruence).
      left. destruct (isBefore _ now);
        apply setDue_inv in H; destruct H as [s [_ ->]]; eauto. }
    destruct Hsame as [[s ->] | ->]; simpl; split; auto; try discriminate;
      rewrite Hd; discriminate.
Qed.

Lemma stageTitle_patch (text : jsstring) (st : state) :
  sameRecurrence (patch st) (patch (stageTitle text st))
  /\ due_date (patch (stageTitle text st)) = due_date (patch st).
Proof. unfold stageTitle, sameRecurrence; break_stage; simpl; auto. Qed.

Lemma keepsDue_pure (f : state -> state) :
  (forall st, due_date (patch (f st)) = due_date (patch st)) ->
  keepsDue (pure f).
Proof.
  intros Hf st st' d H Hd. unfold pure in H. inversion H; subst.
  rewrite Hf. exact Hd.
Qed.

Lemma keepsDue_keeps (f : state -> outcome state) : keeps f -> keepsDue f.
Proof. intros Hf st st' d H. apply (Hf st st' H). Qed.

Lemma stages_keepDue (text : jsstring) (now : Date) :
  Forall keepsDue (stages text now).
Proof.
  unfold stages.
  repeat apply Forall_cons; try apply Forall_nil;
    try (apply keepsDue_keeps;
         first [ apply keeps_secondDayOfWeek | apply keeps_everyWeekday
               | apply keeps_everyDayOfMonth | apply keeps_dateExpressions
               | apply keeps_timeOnly | apply keeps_hourlyRepeat
               | apply keeps_monthlyRepeat ]);
    apply keepsDue_pure; intros st.
  - apply stagePriority_patch.
  - apply stageProject_patch.
  - apply stageLabels_patch.
  - rewrite stageExplicitTime_patch; reflexivity.
  - rewrite stageTimeMarker_patch; reflexivity.
  - apply stageRecurrence_due.
  - apply stageTitle_patch.
Qed.

Lemma run_keepsDue (fs : list (state -> outcome state)) :
  Forall keepsDue fs ->
  forall st st' d, run fs st = Ok st' ->
    due_date (patch st) = Some d -> due_date (patch st') = Some d.
Proof.
  induction 1 as [|f fs Hf _ IH]; simpl; intros st st' d Hrun Hd.
  - inversion Hrun; subst; exact Hd.
  - apply bind_inv in Hrun. destruct Hrun as [st1 [H1 H2]].
    eapply IH; eauto.
Qed.

Lemma run_app (fs gs : list (state -> outcome state)) (st : state) :
  run (fs ++ gs) st = bind (run fs st) (run gs).
Proof.
  revert st; induction fs as [|f fs IH]; intros st; simpl; auto.
  destruct (f st); simpl; auto.
Qed.

Lemma run_pure (f : state -> state) (fs : list (state -> outcome state))
  (st : state) :
  run (pure f :: fs) st = run fs (f st).
Proof. reflexivity. Qed.

Lemma keepsRecurrence_keeps (f : state -> outcome state) :
  keeps f -> keepsRecurrence f.
Proof. intros Hf st st' H. apply (Hf st st' H). Qed.

Lemma run_keepsRecurrence (fs : list (state -> outcome state)) :
  Forall keepsRecurrence fs ->
  forall st st', run fs st = Ok st' ->
    recurrenceOk (patch st) -> recurrenceOk (patch st').
Proof.
  induction 1 as [|f fs Hf _ IH]; simpl; intros st st' Hrun Hok.
  - inversion Hrun; subst; exact Hok.
  - apply bind_inv in Hrun. destruct Hrun as [st1 [H1 H2]].
    eapply IH; eauto.
Qed.

(** The recurrence fields of every state the pipeline can end in: the
    first five stages leave them unset, the keyword stage sets them, the
    later stages keep what they find. *)
Lemma run_recurrenceOk (text : jsstring) (now : Date) (st : state) :
  run (stages text now) (initial text) = Ok st -> recurrenceOk (patch st).
Proof.
  unfold stages. rewrite !run_pure. intros H.
  eapply run_keepsRecurrence; [ | exact H | ].
  - repeat apply Forall_cons; try apply Forall_nil;
      try (apply keepsRecurrence_keeps;
           first [ apply keeps_secondDayOfWeek | apply keeps_everyWeekday
                 | apply keeps_everyDayOfMonth | apply keeps_dateExpressions
                 | apply keeps_timeOnly | apply keeps_hourlyRepeat
                 | apply keeps_monthlyRepeat ]).
    intros s s' Hs. unfold pure in Hs. inversion Hs; subst.
    apply recurrenceOk_same, stageTitle_patch.
  - apply stageRecurrence_ok.
    rewrite stageTimeMarker_patch, stageExplicitTime_patch.
    unfold noRecurrence.
    destruct (stageLabels_patch (stageProject (stagePriority (initial text))))
      as [[-> ->] _].
    destruct (stageProject_patch (stagePriority (initial text)))
      as [[-> ->] _].
    destruct (stagePriority_patch (initial text)) as [[-> ->] _].
    reflexivity.
Qed.

Lemma parse_patch (text : jsstring) (now : Date) (p : ParsedTaskPatch) :
  parseQuickAddRu text now = Ok (Some p) ->
  exists st, run (stages text now) (initial text) = Ok st /\ patch st = p
             /\ gate p = Some p.
Proof.
  unfold parseQuickAddRu.
  destruct ((List.length text =? 0)%nat || _); [discriminate|].
  intros H. apply bind_inv in H. destruct H as [st [Hrun H]].
  inversion H as [Hg]. exists st. split; auto.
  unfold gate in Hg.
  destruct (negb (hasMeaningfulPatch (patch st)) && _) eqn:Hc;
    [discriminate|].
  inversion Hg; subst. split; [reflexivity|].
  unfold gate. rewrite Hc. reflexivity.
Qed.

(** *** Word boundaries and Cyrillic keywords *)

Lemma noWordChars_at (text : jsstring) (e : nat) :
  noWordChars text = true -> isWordCharAt text e = false.
Proof.
  unfold noWordChars, isWordCharAt, charIs. intros H.
  destruct (nth_error text e) as [c|] eqn:Hc; [|reflexivity].
  apply nth_error_In in Hc.
  rewrite forallb_forall in H. apply negb_true_iff, H, Hc.
Qed.

(** Such a text has no word boundary anywhere. *)
Lemma noWordChars_boundary (text : jsstring) (e : nat) :
  noWordChars text = true -> isWordBoundary text e = false.
Proof.
  intros H. unfold isWordBoundary.
  rewrite (noWordChars_at text e H).
  destruct e as [|e']; [reflexivity|].
  rewrite (noWordChars_at text e' H). reflexivity.
Qed.

Lemma searchFrom_none (text : jsstring) (re : regex) (n i : nat) :
  (forall j, matchAt text re j = None) -> searchFrom text re n i = None.
Proof.
  intros H. revert i. induction n as [|n IH]; intros i; simpl;
    rewrite H; auto.
Qed.

(** So a pattern that starts with [\b] cannot match it. *)
Lemma anchored_no_match (text : jsstring) (r : regex) :
  noWordChars text = true -> jsmatch (Seq WordB r) text = None.
Proof.
  intros H. unfold jsmatch, search.
  destruct (0 <=? List.length text)%nat; [|reflexivity].
  rewrite searchFrom_none; [reflexivity|].
  intros j. unfold matchAt. cbn [m pos].
  rewrite (noWordChars_boundary text j H). reflexivity.
Qed.

(** A code unit that matches the Cyrillic preposition is no word
    character. *)
Lemma cyrillic_not_word (c : N) :
  isWordChar c = true -> canonicalize c <> canonicalize (ch "в").
Proof.
  change (canonicalize (ch "в")) with 1042%N.
  unfold isWordChar, canonicalize, upperChar, between. intros H.
  repeat match goal with
  | |- context [N.leb ?a ?b] => destruct (N.leb_spec a b); try lia
  | |- context [N.ltb ?a ?b] => destruct (N.ltb_spec a b); try lia
  | |- context [N.eqb ?a ?b] => destruct (N.eqb_spec a b); try lia
  | H : context [N.leb ?a ?b] |- _ => destruct (N.leb_spec a b); try lia
  | H : context [N.eqb ?a ?b] |- _ => destruct (N.eqb_spec a b); try lia
  end; cbn in *; try lia; try discriminate.
Qed.

(** C1.  The claim expects, at NOW, weekly recurrence and the due date
    2024-01-16T20:00:00.000Z for "every tuesday evening ...".  The code
    gives neither.  The every-weekday pattern and the time-marker pattern
    start with a word boundary, so they match no text without ASCII word
    characters: on the test suite's own input the result is [null].  On the
    claim's English wording only the one-shot weekday pattern sees
    "tuesday": the due date is 23:59 and there is no recurrence.  Where the
    boundaries do hold (ASCII word characters next to the keywords) the
    stages do what the claim describes. *)
Theorem every_tuesday_evening_at_NOW :
  (forall text, noWordChars text = true ->
     jsmatch everyWeekdayRe text = None /\ jsmatch timeMarkerRe text = None)
  /\ parseQuickAddRu (js "вынести мусор каждый вторник вечером") NOW = Ok None
  /\ parseQuickAddRu (js "every tuesday evening trash") NOW
     = Ok (Some (dueOnly "2024-01-16T23:59:00.000Z"
                         (Some "Every evening trash"%string)))
  /\ parseQuickAddRu (js "trash_каждый вторник_ _вечером_") NOW
     = Ok (Some (Patch (Some (js "2024-01-16T20:00:00.000Z")) None None None
                       (Some 604800) (Some 0) (Some (js "Trash_ _ _ _")))).
Proof.
  split.
  - intros text H. split; apply anchored_no_match, H.
  - repeat split; vm_compute; reflexivity.
Qed.

Lemma every_tuesday_evening_at_NOW_witness :
  jsmatch everyWeekdayRe (js "вынести мусор каждый вторник вечером") = None
  /\ jsmatch timeMarkerRe (js "вынести мусор каждый вторник вечером") = None.
Proof.
  apply (proj1 every_tuesday_evening_at_NOW).
  vm_compute. reflexivity.
Defined.

(** C2.  The claim expects the due date 2024-01-11T09:00:00.000Z for the
    hour-only form "at 9 ...".  The hour-only pattern starts with a word
    boundary in front of a Cyrillic preposition, which holds only after an
    ASCII word character: on the test suite's input nothing matches and the
    result is [null]; the English wording has no time preposition the
    pattern knows.  With an ASCII word character in front of the
    preposition the stages do what the claim describes. *)
Theorem at_9_at_NOW :
  (forall text i,
     isWordBoundary text i = true ->
     charIs text i (fun c => N.eqb (canonicalize c) (canonicalize (ch "в")))
     = true ->
     exists i', i = S i' /\ isWordCharAt text i' = true)
  /\ parseQuickAddRu (js "в 9 позвонить") NOW = Ok None
  /\ parseQuickAddRu (js "at 9 call") NOW = Ok None
  /\ parseQuickAddRu (js "call_в 9") NOW
     = Ok (Some (dueOnly "2024-01-11T09:00:00.000Z" (Some "Call_"%string))).
Proof.
  split; [|repeat split; vm_compute; reflexivity].
  intros text i Hb Hc. unfold isWordBoundary in Hb.
  assert (Hw : isWordCharAt text i = false).
  { unfold isWordCharAt, charIs in *.
    destruct (nth_error text i) as [c|]; [|reflexivity].
    apply N.eqb_eq in Hc. apply not_true_is_false. intros Hword.
    apply (cyrillic_not_word c Hword). exact Hc. }
  rewrite Hw in Hb. destruct i as [|i']; [discriminate|].
  exists i'. split; [reflexivity|].
  destruct (isWordCharAt text i'); [reflexivity | discriminate].
Qed.

Lemma at_9_at_NOW_witness :
  exists i', 5%nat = S i' /\ isWordCharAt (js "call_в 9") i' = true.
Proof.
  apply (proj1 at_9_at_NOW (js "call_в 9") 5%nat); vm_compute; reflexivity.
Defined.

(** *** The due date is assigned once *)

(** C4.  The due date is assigned at most once per parse: no stage of the
    pipeline changes a due date that is set, so wherever the pipeline is
    cut, a due date present at the cut is the due date of the final state
    and of the patch returned. *)
Theorem due_date_assigned_at_most_once
  (text : jsstring) (now : Date)
  (fs1 fs2 : list (state -> outcome state)) (st1 st2 : state) (d : jsstring) :
  stages text now = fs1 ++ fs2 ->
  run fs1 (initial text) = Ok st1 ->
  due_date (patch st1) = Some d ->
  run fs2 st1 = Ok st2 ->
  Forall keepsDue (stages text now)
  /\ due_date (patch st2) = Some d
  /\ forall p, parseQuickAddRu text now = Ok (Some p) -> due_date p = Some d.
Proof.
  intros Hcut H1 Hd H2.
  pose proof (stages_keepDue text now) as Hall.
  assert (Hd2 : due_date (patch st2) = Some d).
  { rewrite Hcut in Hall. apply Forall_app in Hall.
    eapply run_keepsDue; [apply Hall | exact H2 | exact Hd]. }
  repeat split; auto.
  intros p Hp. apply parse_patch in Hp. destruct Hp as [st [Hrun [<- _]]].
  rewrite Hcut, run_app, H1 in Hrun. simpl in Hrun.
  rewrite H2 in Hrun. inversion Hrun; subst. exact Hd2.
Qed.

(** The cut after the every-day-of-month stage on a text that also says
    "today": the 5th of February stays. *)
Lemma due_date_assigned_at_most_once_witness :
  let text := js "_каждое 5 числа_ today" in
  let fs1 := firstn 9 (stages text NOW) in
  let fs2 := skipn 9 (stages text NOW) in
  let st1 := stateOf (run fs1 (initial text)) in
  let st2 := stateOf (run fs2 st1) in
  run fs1 (initial text) = Ok st1
  /\ run fs2 st1 = Ok st2
  /\ due_date (patch st2) = Some (js "2024-02-05T23:59:00.000Z").
Proof.
  intros text fs1 fs2 st1 st2.
  assert (H1 : run fs1 (initial text) = Ok st1) by (vm_compute; reflexivity).
  assert (H2 : run fs2 st1 = Ok st2) by (vm_compute; reflexivity).
  split; [exact H1|]. split; [exact H2|].
  refine (proj1 (proj2 (@due_date_assigned_at_most_once
            text NOW fs1 fs2 st1 st2 (js "2024-02-05T23:59:00.000Z")
            _ H1 _ H2))).
  - symmetry. apply firstn_skipn.
  - vm_compute. reflexivity.
Defined.

(** *** The recurrence fields *)

(** C7.  The engine never produces repeat_mode = 3: a repeat_mode in a
    returned patch is 0 or 1. *)
Theorem repeat_mode_never_reserved
  (text : jsstring) (now : Date) (p : ParsedTaskPatch) (mode : Z) :
  parseQuickAddRu text now = Ok (Some p) ->
  repeat_mode p = Some mode ->
  (mode = 0 \/ mode = 1) /\ mode <> 3.
Proof.
  intros Hp Hm. apply parse_patch in Hp. destruct Hp as [st [Hrun [<- _]]].
  apply run_recurrenceOk in Hrun. destruct Hrun as [[H|[H|H]] _];
    rewrite Hm in H; inversion H; subst; split; auto; discriminate.
Qed.

Lemma repeat_mode_never_reserved_witness :
  exists p,
    parseQuickAddRu (js "rent_каждый месяц_") NOW = Ok (Some p)
    /\ repeat_mode p = Some 1
    /\ ((1 = 0 \/ 1 = 1) /\ 1 <> 3).
Proof.
  eexists. split; [vm_compute; reflexivity|]. split; [reflexivity|].
  eapply (@repeat_mode_never_reserved (js "rent_каждый месяц_") NOW);
    vm_compute; reflexivity.
Defined.

(** C9.  Whenever the returned patch has repeat_after set, its repeat_mode
    is 0; so repeat_after never accompanies repeat_mode = 1. *)
Theorem repeat_after_means_interval
  (text : jsstring) (now : Date) (p : ParsedTaskPatch) :
  parseQuickAddRu text now = Ok (Some p) ->
  (forall a, repeat_after p = Some a -> repeat_mode p = Some 0)
  /\ (repeat_mode p = Some 1 -> repeat_after p = None).
Proof.
  intros Hp. apply parse_patch in Hp. destruct Hp as [st [Hrun [<- _]]].
  apply run_recurrenceOk in Hrun. destruct Hrun as [_ H]. split.
  - intros a Ha. apply H. congruence.
  - intros Hm. destruct (repeat_after (patch st)) eqn:Ha; auto.
    rewrite H in Hm; [discriminate | congruence].
Qed.

Lemma repeat_after_means_interval_witness :
  exists p,
    parseQuickAddRu (js "logs_каждые 2 часов_") NOW = Ok (Some p)
    /\ repeat_after p = Some 7200
    /\ repeat_mode p = Some 0.
Proof.
  eexists. split; [vm_compute; reflexivity|]. split; [reflexivity|].
  eapply (proj1 (@repeat_after_means_interval
                   (js "logs_каждые 2 часов_") NOW _ _)).
  reflexivity.
  Unshelve. vm_compute; reflexivity.
Defined.

(** *** Times out of range *)

(** C10.  The explicit-time pattern does not validate its digits: for the
    text "в 25:70" the parser returns a patch with a due date, 25 hours and
    70 minutes after the start of 2024-01-10, that is 02:10 on the 11th. *)
Theorem explicit_time_out_of_range :
  jsmatch explicitTimeRe (js "в 25:70")
  = Some (Matched 0 7 (Some (js "25")) (Some (js "70")))
  /\ atTime (startOfDay NOW) 25 70
     = Some (1704844800000 + 25 * msPerHour + 70 * msPerMinute)
  /\ parseQuickAddRu (js "в 25:70") NOW
     = Ok (Some (dueOnly "2024-01-11T02:10:00.000Z" None)).
Proof. repeat split; vm_compute; reflexivity. Qed.

(** *** The result gate *)

Lemma jsstring_eqb_eq (a b : jsstring) : JsString.eqb a b = true <-> a = b.
Proof.
  revert b; induction a as [|x a IH]; intros [|y b]; simpl;
    try (split; [discriminate | discriminate]); try tauto.
  rewrite andb_true_iff, N.eqb_eq, IH.
  split; [intros [-> ->]; reflexivity | intros H; inversion H; auto].
Qed.

Lemma stages_beforeTitle (text : jsstring) (now : Date) :
  stages text now = beforeTitle now ++ [pure (stageTitle text)].
Proof. reflexivity. Qed.

Lemma cleaned_title_weekly (p : ParsedTaskPatch) :
  cleaned_title (weeklyIfUnset p) = cleaned_title p.
Proof. unfold weeklyIfUnset; destruct (noRecurrence p); reflexivity. Qed.

Lemma cleaned_title_monthly (p : ParsedTaskPatch) :
  cleaned_title (monthlyIfUnset p) = cleaned_title p.
Proof. unfold monthlyIfUnset; destruct (noRecurrence p); reflexivity. Qed.

Ltac title_stage :=
  intros st st' H; unfold pure in H; invert_stage; simpl;
  rewrite ?cleaned_title_weekly, ?cleaned_title_monthly; try reflexivity.

Lemma beforeTitle_keepsTitle (now : Date) :
  Forall keepsTitle (beforeTitle now).
Proof.
  unfold beforeTitle. repeat apply Forall_cons; try apply Forall_nil.
  - title_stage. unfold stagePriority; break_stage; reflexivity.
  - title_stage. unfold stageProject; break_stage; reflexivity.
  - title_stage. unfold stageLabels; break_stage; reflexivity.
  - title_stage. rewrite stageExplicitTime_patch; reflexivity.
  - title_stage. rewrite stageTimeMarker_patch; reflexivity.
  - title_stage. unfold stageRecurrence; break_stage; reflexivity.
  - unfold stageSecondDayOfWeek; title_stage.
  - unfold stageEveryWeekday; title_stage.
  - unfold stageEveryDayOfMonth; title_stage.
  - unfold stageDateExpressions; title_stage.
  - unfold stageTimeOnly; title_stage.
  - unfold stageHourlyRepeat; title_stage.
  - unfold stageMonthlyRepeat; title_stage.
Qed.

Lemma run_keepsTitle (fs : list (state -> outcome state)) :
  Forall keepsTitle fs ->
  forall st st', run fs st = Ok st' ->
    cleaned_title (patch st') = cleaned_title (patch st).
Proof.
  induction 1 as [|f fs Hf _ IH]; simpl; intros st st' Hrun.
  - inversion Hrun; subst; reflexivity.
  - apply bind_inv in Hrun. destruct Hrun as [st1 [H1 H2]].
    rewrite (IH _ _ H2). apply Hf, H1.
Qed.



Lemma parse_blank (text : jsstring) (now : Date) :
  trim text = [] -> parseQuickAddRu text now = Ok None.
Proof.
  intros H. unfold parseQuickAddRu. rewrite H.
  change (List.length (@nil N) =? 0)%nat with true.
  rewrite orb_true_r. reflexivity.
Qed.

(** *** Plain text *)

Lemma isSpace_letters (c : N) :
  (65 <= c <= 122 \/ 1024 <= c <= 1119)%N -> isSpace c = false.
Proof.
  intros H. unfold isSpace, between.
  repeat match goal with
  | |- context [N.leb ?a ?b] => destruct (N.leb_spec a b); try lia
  | |- context [N.eqb ?a ?b] => destruct (N.eqb_spec a b); try lia
  end; reflexivity.
Qed.

Lemma isSpace_lowerChar (c : N) : isSpace (lowerChar c) = isSpace c.
Proof.
  unfold lowerChar, between.
  repeat match goal with
  | |- context [if (N.leb ?a ?b) && _ then _ else _] =>
      destruct (N.leb_spec a b); cbn [andb]
  | |- context [if (N.leb ?a ?b) then _ else _] =>
      destruct (N.leb_spec a b)
  end; try reflexivity;
    rewrite !isSpace_letters by lia; reflexivity.
Qed.

Lemma trimStart_toLowerCase (s : jsstring) :
  trimStart (toLowerCase s) = toLowerCase (trimStart s).
Proof.
  unfold toLowerCase. induction s as [|c s IH]; [reflexivity|].
  cbn [map trimStart]. rewrite isSpace_lowerChar.
  destruct (isSpace c); [exact IH | reflexivity].
Qed.

Lemma trim_toLowerCase (s : jsstring) :
  trim (toLowerCase s) = toLowerCase (trim s).
Proof.
  unfold trim, trimEnd. rewrite trimStart_toLowerCase.
  unfold toLowerCase at 1. rewrite <- map_rev.
  fold (toLowerCase (rev (trimStart s))).
  rewrite trimStart_toLowerCase. unfold toLowerCase. symmetry. apply map_rev.
Qed.

Lemma jsstring_eqb_refl (s : jsstring) : JsString.eqb s s = true.
Proof. apply jsstring_eqb_eq. reflexivity. Qed.

(** A pattern that does not match leaves everything as it is. *)
Lemma test_false (re : regex) (s : jsstring) :
  test re s = false ->
  jsmatch re s = None
  /\ execAll re s = []
  /\ replace re (js " ") s = s
  /\ replaceAll re (js " ") s = s.
Proof.
  unfold test, replace, replaceAll, execAll, jsmatch.
  cbn [matchesFrom].
  destruct (search s re 0); cbn [option_map]; [discriminate|].
  intros _. repeat split.
Qed.

Lemma run_cons (f : state -> outcome state)
  (fs : list (state -> outcome state)) (st : state) :
  run (f :: fs) st = bind (f st) (run fs).
Proof. reflexivity. Qed.

Ltac no_match H :=
  apply negb_true_iff, test_false in H;
  let Hm := fresh "Hm" in
  let He := fresh "He" in
  let Hr := fresh "Hr" in
  let Ha := fresh "Ha" in
  destruct H as [Hm [He [Hr Ha]]].

(** On marker-free text every stage before the title stage is the
    identity, and so is the title stage when the spacing is single. *)
Lemma run_markerFree (text : jsstring) (now : Date) :
  markerFree text = true ->
  run (beforeTitle now) (initial text) = Ok (initial text).
Proof.
  unfold markerFree, stagePatterns. cbn [forallb]. intros H.
  repeat (apply andb_true_iff in H;
          let H1 := fresh "P" in destruct H as [H1 H]).
  clear H.
  no_match P. no_match P0. no_match P1. no_match P2. no_match P3.
  no_match P4. no_match P5. no_match P6. no_match P7. no_match P8.
  no_match P9. no_match P10. no_match P11. no_match P12. no_match P13.
  no_match P14. no_match P15. no_match P16. no_match P17. no_match P18.
  no_match P19. no_match P20.
  assert (S1 : stagePriority (initial text) = initial text).
  { unfold stagePriority. cbn [remaining initial]. rewrite Hm, Hm0.
    reflexivity. }
  assert (S2 : stageProject (initial text) = initial text).
  { unfold stageProject. cbn [remaining initial]. rewrite Hm1, Hm2.
    reflexivity. }
  assert (S3 : stageLabels (initial text) = initial text).
  { unfold stageLabels. cbn [remaining initial].
    rewrite He3, Ha3, He4, Ha4. reflexivity. }
  assert (S4 : stageExplicitTime (initial text) = initial text).
  { unfold stageExplicitTime. cbn [remaining initial]. rewrite Hm5, Hm6.
    reflexivity. }
  assert (S5 : stageTimeMarker (initial text) = initial text).
  { unfold stageTimeMarker. cbn [remaining initial]. rewrite Hm7.
    reflexivity. }
  assert (S6 : stageRecurrence (initial text) = initial text).
  { unfold stageRecurrence, test. cbn [remaining initial].
    rewrite Hm8, Hm9, Hm10, Hm11, Hm12. reflexivity. }
  assert (S7 : stageSecondDayOfWeek now (initial text) = Ok (initial text)).
  { unfold stageSecondDayOfWeek, test. cbn [remaining initial].
    rewrite Hm13. reflexivity. }
  assert (S8 : stageEveryWeekday now (initial text) = Ok (initial text)).
  { unfold stageEveryWeekday. cbn [remaining initial patch due_date
      emptyPatch isNone]. rewrite Hm14. reflexivity. }
  assert (S9 : stageEveryDayOfMonth now (initial text) = Ok (initial text)).
  { unfold stageEveryDayOfMonth. cbn [remaining initial patch due_date
      emptyPatch isNone]. rewrite Hm15. reflexivity. }
  assert (S10 : stageDateExpressions now (initial text) = Ok (initial text)).
  { unfold stageDateExpressions, test. cbn [remaining initial patch due_date
      emptyPatch isNone]. rewrite Hm16, Hm17, Hm18, Hm19, Hm20.
    reflexivity. }
  unfold beforeTitle. rewrite !run_pure, S1, S2, S3, S4, S5, S6.
  rewrite run_cons, S7. cbn [bind].
  rewrite run_cons, S8. cbn [bind].
  rewrite run_cons, S9. cbn [bind].
  rewrite run_cons, S10. cbn [bind].
  reflexivity.
Qed.

Lemma stageTitle_plain (text : jsstring) :
  singleSpaced text = true -> stageTitle text (initial text) = initial text.
Proof.
  unfold singleSpaced. intros H. no_match H.
  unfold stageTitle, cleanedOf, titleChanged. cbn [remaining initial].
  rewrite Ha, trim_toLowerCase, jsstring_eqb_refl, andb_false_r.
  reflexivity.
Qed.

Lemma parse_plain (text : jsstring) (now : Date) :
  markerFree text = true -> singleSpaced text = true ->
  parseQuickAddRu text now = Ok None.
Proof.
  intros Hm Hs. unfold parseQuickAddRu.
  destruct (_ || _); [reflexivity|].
  rewrite stages_beforeTitle, run_app, (run_markerFree text now Hm).
  cbn [bind run]. unfold pure. rewrite (stageTitle_plain text Hs).
  reflexivity.
Qed.

(** *** The recurrence keywords *)

(** C5.  The five recurrence keywords are tried in the fixed order daily,
    weekly, monthly, hourly, every-N-hours, and the first that matches
    short-circuits the rest: the stage is the first-match rule over the
    ordered table.  So whatever else the text holds, a text with the daily
    keyword gets repeat_after = 86400 and mode 0, and only the daily
    keyword is erased; at NOW a text with the daily and the hourly keyword
    keeps the hourly one in its title. *)
Theorem recurrence_keywords_first_match_wins (st : state) :
  test everyDayRe (remaining st) = true ->
  stageRecurrence st = recurrenceBySpec st
  /\ repeat_after (patch (stageRecurrence st)) = Some 86400
  /\ repeat_mode (patch (stageRecurrence st)) = Some 0
  /\ remaining (stageRecurrence st)
     = replace everyDayRe (js " ") (remaining st)
  /\ (forall st', stageRecurrence st' = recurrenceBySpec st')
  /\ parseQuickAddRu (js "1каждый день2 3каждый час4") NOW
     = Ok (Some (Patch None None None None (Some 86400) (Some 0)
                       (Some (js "1 2 3каждый час4")))).
Proof.
  assert (Hspec : forall st', stageRecurrence st' = recurrenceBySpec st').
  { intros st'. unfold stageRecurrence, recurrenceBySpec, test.
    cbn [firstMatch recurrenceKeywords].
    destruct (jsmatch everyDayRe (remaining st')); [reflexivity|].
    destruct (jsmatch everyWeekRe (remaining st')); [reflexivity|].
    destruct (jsmatch everyMonthRe (remaining st')); [reflexivity|].
    destruct (jsmatch everyHourRe (remaining st')); [reflexivity|].
    destruct (jsmatch everyNHoursRe (remaining st')); reflexivity. }
  intros Hday. split; [apply Hspec|].
  unfold stageRecurrence. rewrite Hday.
  split; [reflexivity|]. split; [reflexivity|]. split; [reflexivity|].
  split; [exact Hspec|]. vm_compute. reflexivity.
Qed.

Lemma recurrence_keywords_first_match_wins_witness :
  let st := initial (js "1каждый день2 3каждый час4") in
  test everyHourRe (remaining st) = true
  /\ repeat_after (patch (stageRecurrence st)) = Some 86400
  /\ remaining (stageRecurrence st) = js "1 2 3каждый час4".
Proof.
  intros st.
  assert (Hday : test everyDayRe (remaining st) = true)
    by (vm_compute; reflexivity).
  pose proof (recurrence_keywords_first_match_wins st Hday)
    as [_ [Ha [_ [Hr _]]]].
  split; [vm_compute; reflexivity|]. split; [exact Ha|].
  rewrite Hr. vm_compute. reflexivity.
Defined.

(** *** Weekdays *)

Lemma TimeClip_Some (t : Z) : Z.abs t <= maxTime -> TimeClip t = Some t.
Proof.
  unfold TimeClip, maxTime. intros H.
  destruct (Z.leb_spec (Z.abs t) 8640000000000000); [reflexivity | lia].
Qed.

Lemma Day_bounds (t : Z) :
  Day t * msPerDay <= t < Day t * msPerDay + msPerDay.
Proof. unfold Day, msPerDay. Z.div_mod_to_equations. lia. Qed.

Lemma Day_mul (q : Z) : Day (q * msPerDay) = q.
Proof. unfold Day, msPerDay. apply Z.div_mul. discriminate. Qed.

Lemma TimeWithinDay_mul (q : Z) : TimeWithinDay (q * msPerDay) = 0.
Proof. unfold TimeWithinDay, msPerDay. apply Z.mod_mul. discriminate. Qed.

Lemma Day_abs (t : Z) :
  Z.abs t <= maxTime -> Z.abs (Day t * msPerDay) <= maxTime.
Proof.
  unfold maxTime, Day, msPerDay. intros H. Z.div_mod_to_equations. lia.
Qed.

Lemma startOfDay_Some (t : Z) :
  Z.abs t <= maxTime -> startOfDay (Some t) = Some (Day t * msPerDay).
Proof.
  intros H. unfold startOfDay, setHours4, withTime, MakeDate, MakeTime.
  replace (Day t * msPerDay + _) with (Day t * msPerDay) by lia.
  apply TimeClip_Some, Day_abs, H.
Qed.

Lemma addDays_Some (t n : Z) :
  Z.abs (t + n * msPerDay) <= maxTime ->
  addDays (Some t) n = Some (t + n * msPerDay).
Proof.
  intros H. unfold addDays. destruct (Z.eqb_spec n 0) as [->|_].
  - f_equal. lia.
  - unfold setDate, withTime, MakeDate.
    replace (_ + TimeWithinDay t) with (t + n * msPerDay).
    + apply TimeClip_Some, H.
    + unfold Day, TimeWithinDay, msPerDay.
      pose proof (Z.div_mod t 86400000). lia.
Qed.

(** The next occurrence of a weekday from the start of the day of [t]:
    [lo] days ahead at least, with [lo = 0] when today is allowed and
    [lo = 1] when it is not, and less than a week after that. *)
Lemma nextWeekday_spec (t target : Z) (allowToday : bool) :
  - maxTime <= t <= maxTime - 7 * msPerDay ->
  0 <= target <= 6 ->
  exists r,
    nextWeekday (startOfDay (Some t)) target allowToday = Some r
    /\ WeekDay r = target
    /\ TimeWithinDay r = 0
    /\ Day t + (if allowToday then 0 else 1) <= Day r
       < Day t + (if allowToday then 7 else 8).
Proof.
  intros Ht Htarget.
  assert (Habs : Z.abs t <= maxTime) by (unfold maxTime, msPerDay in *; lia).
  pose proof (Day_bounds t) as Hday.
  rewrite (startOfDay_Some t Habs).
  unfold nextWeekday, getDay, option_map.
  rewrite (startOfDay_Some _ (Day_abs t Habs)), Day_mul.
  set (fromDay := WeekDay (Day t * msPerDay)).
  assert (HfromDay : fromDay = (Day t + 4) mod 7).
  { unfold fromDay, WeekDay. rewrite Day_mul. reflexivity. }
  set (delta0 := target - fromDay).
  set (delta := if (delta0 <? 0) || ((delta0 =? 0) && negb allowToday)
                then delta0 + 7 else delta0).
  assert (Hdelta : (if allowToday then 0 else 1) <= delta
                   < (if allowToday then 7 else 8)
                   /\ (Day t + delta + 4) mod 7 = target).
  { unfold delta, delta0. rewrite HfromDay.
    destruct (Z.ltb_spec (target - (Day t + 4) mod 7) 0);
      destruct (Z.eqb_spec (target - (Day t + 4) mod 7) 0);
      destruct allowToday; cbn [orb andb negb];
      split; Z.div_mod_to_equations; lia. }
  destruct Hdelta as [Hrange Hmod].
  exists (Day t * msPerDay + delta * msPerDay).
  assert (Hr : Day t * msPerDay + delta * msPerDay
               = (Day t + delta) * msPerDay) by lia.
  split.
  - apply addDays_Some. unfold maxTime, msPerDay in *.
    destruct allowToday; lia.
  - rewrite Hr. unfold WeekDay. rewrite Day_mul, TimeWithinDay_mul.
    split; [exact Hmod|]. split; [reflexivity|].
    destruct allowToday; lia.
Qed.

Lemma WEEKDAY_MAP_range (key : jsstring) (targetDay : Z) :
  lookup WEEKDAY_MAP key = Some targetDay -> 0 <= targetDay <= 6.
Proof.
  unfold lookup, WEEKDAY_MAP. cbn [find fst snd].
  repeat match goal with
  | |- context [if ?b then _ else _] => destruct b
  end; cbn [option_map snd]; intros H; inversion H; lia.
Qed.

(** C3.  The claim expects a bare weekday name to give the next
    occurrence of that weekday, today excluded.  The code does so only
    where its pattern can match.  The one-shot weekday pattern starts
    with a word boundary, so it matches no text without ASCII word
    characters: on the test suite's own input, "в среду подготовить
    отчёт" at NOW, a Wednesday, the result is [null], where the test
    expects 2024-01-17T23:59:00.000Z.  On the claim's English wording,
    and on the Russian name between ASCII word characters, the code gives
    the claimed date; and wherever the pattern matches a weekday of the
    table, the branch asks [nextWeekday] for a day one to seven days
    ahead that falls on that weekday.  So the stage is as claimed and the
    defect is the anchoring. *)
Theorem bare_weekday_at_NOW :
  (forall text, noWordChars text = true ->
     jsmatch weekdayOnceRe text = None)
  /\ parseQuickAddRu (js "в среду подготовить отчёт") NOW = Ok None
  /\ parseQuickAddRu (js "on wednesday report") NOW
     = Ok (Some (dueOnly "2024-01-17T23:59:00.000Z"
                         (Some "On report"%string)))
  /\ parseQuickAddRu (js "report_в среду_") NOW
     = Ok (Some (dueOnly "2024-01-17T23:59:00.000Z"
                         (Some "Report_ _"%string)))
  /\ (forall (now : Z) (st : state) (mt : matched) (targetDay : Z),
        - maxTime <= now <= maxTime - 7 * msPerDay ->
        due_date (patch st) = None ->
        test todayRe (remaining st) = false ->
        test tomorrowRe (remaining st) = false ->
        test dayAfterTomorrowRe (remaining st) = false ->
        jsmatch inNDaysRe (remaining st) = None ->
        jsmatch weekdayOnceRe (remaining st) = Some mt ->
        lookup WEEKDAY_MAP (toLowerCase (g1 mt)) = Some targetDay ->
        exists r,
          nextWeekday (startOfDay (Some now)) targetDay false = Some r
          /\ WeekDay r = targetDay
          /\ TimeWithinDay r = 0
          /\ Day now < Day r <= Day now + 7
          /\ stageDateExpressions (Some now) st
             = bind (setDue (applyTime st (Some r)) st)
                    (fun st' => Ok (erase weekdayOnceRe st'))).
Proof.
  split; [intros text H; apply anchored_no_match, H|].
  split; [vm_compute; reflexivity|].
  split; [vm_compute; reflexivity|].
  split; [vm_compute; reflexivity|].
  intros now st mt targetDay Hnow Hdue Htoday Htomorrow Hafter HinN Hmatch
         Hkey.
  destruct (@nextWeekday_spec now targetDay false Hnow
              (WEEKDAY_MAP_range _ Hkey)) as [r [Hr [Hw [Ht Hd]]]].
  exists r. repeat split; auto; try lia.
  unfold stageDateExpressions.
  rewrite Hdue, Htoday, Htomorrow, Hafter, HinN, Hmatch, Hkey, Hr.
  reflexivity.
Qed.

Lemma bare_weekday_at_NOW_witness :
  jsmatch weekdayOnceRe (js "в среду подготовить отчёт") = None.
Proof.
  apply (proj1 bare_weekday_at_NOW).
  vm_compute. reflexivity.
Defined.

(** *** The calendar and the day of the month *)

Lemma DayFromYear_succ (y : Z) :
  DayFromYear (y + 1)
  = DayFromYear y + 365 + (if InLeapYear y then 1 else 0).
Proof.
  unfold DayFromYear, InLeapYear.
  destruct (Z.eqb_spec (y mod 4) 0); cbn [negb];
    [destruct (Z.eqb_spec (y mod 100) 0); cbn [negb];
      [destruct (Z.eqb_spec (y mod 400) 0)|]|];
    Z.div_mod_to_equations; lia.
Qed.

Lemma YearFromDay_spec (n : Z) :
  DayFromYear (YearFromDay n) <= n < DayFromYear (YearFromDay n + 1).
Proof.
  unfold YearFromDay.
  set (y := 1970 + 400 * n / 146097).
  destruct (Z.leb_spec (DayFromYear (y + 1)) n);
    [|destruct (Z.leb_spec (DayFromYear y) n)].
  - split; [assumption|]. unfold DayFromYear, y in *.
    Z.div_mod_to_equations. lia.
  - split; [assumption|]. lia.
  - split; [|replace (y - 1 + 1) with y by lia; assumption].
    unfold DayFromYear, y in *. Z.div_mod_to_equations. lia.
Qed.

Lemma DayFromYear_mono (y y' : Z) :
  y < y' -> DayFromYear (y + 1) <= DayFromYear y'.
Proof.
  unfold DayFromYear. intros H. Z.div_mod_to_equations. lia.
Qed.

Lemma YearFromDay_unique (n y : Z) :
  DayFromYear y <= n < DayFromYear (y + 1) -> YearFromDay n = y.
Proof.
  intros H. pose proof (YearFromDay_spec n) as Hn.
  destruct (Z.lt_trichotomy (YearFromDay n) y) as [Hlt|[Heq|Hgt]]; auto.
  - pose proof (DayFromYear_mono Hlt). lia.
  - pose proof (DayFromYear_mono Hgt). lia.
Qed.

Lemma isMonth_cases (m : Z) :
  isMonth m ->
  m = 0 \/ m = 1 \/ m = 2 \/ m = 3 \/ m = 4 \/ m = 5 \/ m = 6 \/ m = 7
  \/ m = 8 \/ m = 9 \/ m = 10 \/ m = 11.
Proof. unfold isMonth. lia. Qed.

Ltac month_cases m H :=
  apply isMonth_cases in H;
  repeat (destruct H as [H|H]); subst m.

Ltac closed_term k :=
  match k with
  | context [?v] => is_var v; fail 1
  | _ => idtac
  end.

(** Evaluate the month table at constant arguments. *)
Ltac eval_days :=
  repeat match goal with
  | |- context [daysBeforeMonth ?l ?k] =>
      closed_term l; closed_term k;
      let v := eval vm_compute in (daysBeforeMonth l k) in
      progress change (daysBeforeMonth l k) with v
  | H : context [daysBeforeMonth ?l ?k] |- _ =>
      closed_term l; closed_term k;
      let v := eval vm_compute in (daysBeforeMonth l k) in
      progress change (daysBeforeMonth l k) with v in H
  end.

Lemma monthOfDay_spec (leap : bool) (d : Z) :
  0 <= d < 365 + (if leap then 1 else 0) ->
  isMonth (monthOfDay leap d)
  /\ daysBeforeMonth leap (monthOfDay leap d) <= d
     < daysBeforeMonth leap (monthOfDay leap d + 1).
Proof.
  intros Hd. unfold monthOfDay, isMonth. cbv zeta. destruct leap; eval_days;
    repeat match goal with
    | |- context [if ?a <? ?b then _ else _] =>
        destruct (Z.ltb_spec a b); cbv iota; [eval_days; lia|]
    end; eval_days; lia.
Qed.

Lemma monthOfDay_unique (leap : bool) (d m : Z) :
  isMonth m ->
  daysBeforeMonth leap m <= d < daysBeforeMonth leap (m + 1) ->
  monthOfDay leap d = m.
Proof.
  intros Hm. unfold monthOfDay. cbv zeta.
  month_cases m Hm; destruct leap; eval_days; intros Hd;
    repeat match goal with
    | |- context [if ?a <? ?b then _ else _] =>
        destruct (Z.ltb_spec a b); cbv iota; [first [reflexivity | lia]|]
    end; first [reflexivity | lia].
Qed.

Lemma daysInMonth_range (y m : Z) :
  isMonth m -> 28 <= daysInMonth y m <= 31.
Proof.
  intros H. unfold daysInMonth. month_cases m H;
    destruct (InLeapYear y); eval_days; lia.
Qed.

Lemma MakeDay_month (y m dt : Z) :
  isMonth m ->
  MakeDay y m dt
  = DayFromYear y + daysBeforeMonth (InLeapYear y) m + dt - 1.
Proof.
  intros H. unfold MakeDay.
  assert (Hq : m / 12 = 0) by (apply Z.div_small; unfold isMonth in H; lia).
  assert (Hr : m mod 12 = m)
    by (apply Z.mod_small; unfold isMonth in H; lia).
  rewrite Hq, Hr, Z.add_0_r. reflexivity.
Qed.

Lemma daysBeforeMonth_range (leap : bool) (m : Z) :
  isMonth m ->
  0 <= daysBeforeMonth leap m
  /\ daysBeforeMonth leap (m + 1) <= 365 + (if leap then 1 else 0).
Proof.
  intros H. month_cases m H; destruct leap; eval_days; lia.
Qed.

(** Day [d] of month [m] of year [y] is that day: the fields of its day
    number are [y], [m] and [d]. *)
Lemma MakeDay_fields (y m d : Z) :
  isMonth m -> 1 <= d <= daysInMonth y m ->
  YearFromDay (MakeDay y m d) = y
  /\ MonthFromDay (MakeDay y m d) = m
  /\ DateFromDay (MakeDay y m d) = d.
Proof.
  intros Hm Hd. rewrite (MakeDay_month y d Hm).
  pose proof (daysBeforeMonth_range (InLeapYear y) Hm) as Hb.
  unfold daysInMonth in Hd.
  set (n := DayFromYear y + daysBeforeMonth (InLeapYear y) m + d - 1).
  assert (Hy : YearFromDay n = y).
  { apply YearFromDay_unique. rewrite DayFromYear_succ. unfold n. lia. }
  assert (Hw : DayWithinYear n = daysBeforeMonth (InLeapYear y) m + d - 1).
  { unfold DayWithinYear. rewrite Hy. unfold n. lia. }
  assert (Hmo : MonthFromDay n = m).
  { unfold MonthFromDay. rewrite Hy, Hw.
    apply monthOfDay_unique; [exact Hm | lia]. }
  repeat split; auto.
  unfold DateFromDay. rewrite Hmo, Hy, Hw. lia.
Qed.

(** Every day number is the day of its own fields. *)
Lemma fields_MakeDay (n : Z) :
  isMonth (MonthFromDay n)
  /\ 1 <= DateFromDay n <= daysInMonth (YearFromDay n) (MonthFromDay n)
  /\ MakeDay (YearFromDay n) (MonthFromDay n) (DateFromDay n) = n.
Proof.
  pose proof (YearFromDay_spec n) as Hn.
  rewrite DayFromYear_succ in Hn.
  assert (Hd : 0 <= DayWithinYear n
               < 365 + (if InLeapYear (YearFromDay n) then 1 else 0))
    by (unfold DayWithinYear; lia).
  destruct (monthOfDay_spec _ Hd) as [Hm Hr].
  fold (MonthFromDay n) in Hm, Hr.
  split; [exact Hm|]. split.
  - unfold DateFromDay, daysInMonth. lia.
  - rewrite (MakeDay_month _ _ Hm). unfold DateFromDay, DayWithinYear. lia.
Qed.

Lemma nextMonth_isMonth (y m : Z) :
  isMonth m -> isMonth (snd (nextMonth y m)).
Proof.
  unfold nextMonth, isMonth. destruct (Z.eqb_spec m 11); simpl; lia.
Qed.

Lemma MakeDay_carry (y m dt : Z) :
  12 <= m <= 23 -> MakeDay y m dt = MakeDay (y + 1) (m - 12) dt.
Proof.
  intros H. unfold MakeDay.
  assert (H1 : m / 12 = 1) by (Z.div_mod_to_equations; lia).
  assert (H2 : m mod 12 = m - 12) by (Z.div_mod_to_equations; lia).
  assert (H3 : (m - 12) / 12 = 0) by (Z.div_mod_to_equations; lia).
  assert (H4 : (m - 12) mod 12 = m - 12) by (Z.div_mod_to_equations; lia).
  rewrite H1, H2, H3, H4, Z.add_0_r. reflexivity.
Qed.

(** The first day of the next month follows the last day of this one, and
    day 0 of the month after next is the last day of the next. *)
Lemma nextMonth_days (y m : Z) :
  isMonth m ->
  MakeDay (fst (nextMonth y m)) (snd (nextMonth y m)) 1
  = MakeDay y m (daysInMonth y m) + 1
  /\ MakeDay y (m + 1 + 1) 0
     = MakeDay (fst (nextMonth y m)) (snd (nextMonth y m))
               (daysInMonth (fst (nextMonth y m)) (snd (nextMonth y m))).
Proof.
  intros Hm. pose proof (nextMonth_isMonth y Hm) as Hn.
  rewrite !(MakeDay_month _ _ Hn), (MakeDay_month _ _ Hm).
  unfold daysInMonth. pose proof (DayFromYear_succ y) as Hy.
  unfold nextMonth in *. unfold isMonth in Hm.
  destruct (Z.eqb_spec m 11) as [->|Hne]; cbn [fst snd] in *.
  - rewrite (@MakeDay_carry y (11 + 1 + 1) 0) by lia.
    rewrite MakeDay_month by (unfold isMonth; lia).
    destruct (InLeapYear y), (InLeapYear (y + 1)); eval_days; lia.
  - destruct (Z.eqb_spec m 10) as [->|Hne'].
    + rewrite (@MakeDay_carry y (10 + 1 + 1) 0) by lia.
      rewrite MakeDay_month by (unfold isMonth; lia).
      destruct (InLeapYear y), (InLeapYear (y + 1)); eval_days; lia.
    + rewrite MakeDay_month by (unfold isMonth; lia). lia.
Qed.

Lemma DayFromYear_le (y y' : Z) : y <= y' -> DayFromYear y <= DayFromYear y'.
Proof. unfold DayFromYear. intros H. Z.div_mod_to_equations. lia. Qed.

Lemma Day_MakeDate (q tm : Z) :
  0 <= tm < msPerDay -> Day (MakeDate q tm) = q.
Proof.
  unfold Day, MakeDate, msPerDay. intros H. Z.div_mod_to_equations. lia.
Qed.

Lemma TimeWithinDay_range (t : Z) : 0 <= TimeWithinDay t < msPerDay.
Proof. unfold TimeWithinDay, msPerDay. Z.div_mod_to_equations. lia. Qed.

Lemma newDate_Some (y m c : Z) :
  100 <= y ->
  Z.abs (MakeDate (MakeDay y m c) 0) <= maxTime ->
  newDate y m c = Some (MakeDate (MakeDay y m c) 0).
Proof.
  intros Hy Hb. unfold newDate.
  destruct (Z.leb_spec y 99); [lia|].
  rewrite andb_false_r. apply TimeClip_Some, Hb.
Qed.

Lemma Day_low (t : Z) : 100 <= YearFromTime t -> -683003 <= Day t.
Proof.
  intros Hy. pose proof (YearFromDay_spec (Day t)) as [Hn _].
  pose proof (DayFromYear_le Hy) as Hlow.
  fold (YearFromTime t) in Hn.
  assert (Hv : DayFromYear 100 = -683003) by reflexivity.
  lia.
Qed.

(** [addMonths(d, 1)] lands in the next month, at the time of day of [d],
    on the same day of the month or on the last one. *)
Lemma addMonths_one (t : Z) :
  100 <= YearFromTime t -> t <= maxTime - 62 * msPerDay ->
  let ny := fst (nextMonth (YearFromTime t) (MonthFromTime t)) in
  let nm := snd (nextMonth (YearFromTime t) (MonthFromTime t)) in
  exists nd,
    addMonths (Some t) 1 = Some (MakeDate nd (TimeWithinDay t))
    /\ YearFromDay nd = ny /\ MonthFromDay nd = nm
    /\ DateFromDay nd = Z.min (DateFromTime t) (daysInMonth ny nm).
Proof.
  intros Hy Ht ny nm.
  pose proof (Day_low t Hy) as Hlow.
  pose proof (Day_bounds t) as Hday.
  pose proof (TimeWithinDay_range t) as Htw.
  destruct (fields_MakeDay (Day t)) as [Hm [Hd Hn]].
  fold (YearFromTime t) (MonthFromTime t) (DateFromTime t) in Hm, Hd, Hn.
  destruct (nextMonth_days (YearFromTime t) Hm) as [Hfirst Hlast].
  fold ny nm in Hfirst, Hlast.
  pose proof (nextMonth_isMonth (YearFromTime t) Hm) as Hnm. fold nm in Hnm.
  pose proof (daysInMonth_range ny Hnm) as HdimN.
  pose proof (daysInMonth_range (YearFromTime t) Hm) as Hdim.
  rewrite (MakeDay_month _ _ Hm) in Hfirst.
  rewrite (MakeDay_month _ _ Hm) in Hn.
  assert (Hfirst' := Hfirst). rewrite (MakeDay_month _ _ Hnm) in Hfirst'.
  destruct (@MakeDay_fields ny nm (daysInMonth ny nm) Hnm) as [Ey [Em Ed]];
    [lia|].
  unfold addMonths. rewrite Hlast.
  set (E := MakeDay ny nm (daysInMonth ny nm)) in *.
  assert (HE : E = Day t + (daysInMonth (YearFromTime t) (MonthFromTime t)
                            - DateFromTime t) + daysInMonth ny nm).
  { unfold E. rewrite (MakeDay_month _ _ Hnm). lia. }
  rewrite TimeClip_Some
    by (unfold MakeDate, maxTime, msPerDay in *; lia).
  unfold DateFromTime at 2. rewrite (Day_MakeDate _ Htw), Ed.
  rewrite Z.geb_leb.
  destruct (Z.leb_spec (daysInMonth ny nm) (DateFromTime t)).
  - exists E. repeat split; auto. lia.
  - unfold YearFromTime at 1, MonthFromTime at 1.
    rewrite (Day_MakeDate _ Htw), Ey, Em.
    destruct (@MakeDay_fields ny nm (DateFromTime t) Hnm) as [Fy [Fm Fd]];
      [lia|].
    exists (MakeDay ny nm (DateFromTime t)). repeat split; auto; try lia.
    apply TimeClip_Some. rewrite (MakeDay_month _ _ Hnm).
    unfold MakeDate, maxTime, msPerDay in *. lia.
Qed.

Lemma fields_at_midnight (q : Z) :
  YearFromTime (MakeDate q 0) = YearFromDay q
  /\ MonthFromTime (MakeDate q 0) = MonthFromDay q
  /\ DateFromTime (MakeDate q 0) = DateFromDay q.
Proof.
  assert (H0 : 0 <= 0 < msPerDay) by (unfold msPerDay; lia).
  unfold YearFromTime, MonthFromTime, DateFromTime.
  rewrite (Day_MakeDate _ H0). auto.
Qed.

(** C6.  The day-of-month resolver never rejects a day: it clamps the day
    to the length of the reference month; when that day is not before the
    reference day it is the result, otherwise the result is the day,
    clamped to its length, of the next month.  Day 31 in a 30-day month
    gives the 30th, and on 2024-01-10 the 5th resolves to 2024-02-05. *)
Theorem nearestDayOfMonth_clamps (t day : Z) :
  100 <= YearFromTime t -> t <= maxTime - 62 * msPerDay -> 0 <= day ->
  let y := YearFromTime t in
  let m := MonthFromTime t in
  let ny := fst (nextMonth y m) in
  let nm := snd (nextMonth y m) in
  exists r,
    nearestDayOfMonth (Some t) day = Some r
    /\ r = MakeDate (resolveDayOfMonth t day) 0
    /\ (DateFromTime t <= Z.min day (daysInMonth y m) ->
        YearFromTime r = y /\ MonthFromTime r = m
        /\ DateFromTime r = Z.min day (daysInMonth y m))
    /\ (Z.min day (daysInMonth y m) < DateFromTime t -> 1 <= day ->
        YearFromTime r = ny /\ MonthFromTime r = nm
        /\ DateFromTime r = Z.min day (daysInMonth ny nm))
    /\ nearestDayOfMonth (newDate 2024 3 10) 31 = newDate 2024 3 30
    /\ nearestDayOfMonth (startOfDay NOW) 5 = newDate 2024 1 5
    /\ parseQuickAddRu (js "_каждое 5 число_") NOW
       = Ok (Some (Patch (Some (js "2024-02-05T23:59:00.000Z")) None None
                         None None (Some 1) (Some (js "_ _")))).
Proof.
  intros Hy Ht Hday y m ny nm.
  pose proof (Day_low t Hy) as Hlow.
  pose proof (Day_bounds t) as Hbounds.
  destruct (fields_MakeDay (Day t)) as [Hm [Hd Hn]].
  fold (YearFromTime t) (MonthFromTime t) (DateFromTime t) in Hm, Hd, Hn.
  fold y m in Hm, Hd, Hn.
  pose proof (daysInMonth_range y Hm) as Hdim.
  pose proof (nextMonth_isMonth y Hm) as Hnm. fold nm in Hnm.
  pose proof (daysInMonth_range ny Hnm) as HdimN.
  destruct (nextMonth_days y Hm) as [Hfirst _]. fold ny nm in Hfirst.
  rewrite (MakeDay_month _ _ Hm) in Hfirst.
  rewrite (MakeDay_month _ _ Hnm) in Hfirst.
  rewrite (MakeDay_month _ _ Hm) in Hn.
  assert (Hny : 100 <= ny).
  { unfold ny, nextMonth. destruct (m =? 11); simpl; lia. }
  set (c := Z.min day (daysInMonth y m)).
  set (cn := Z.min day (daysInMonth ny nm)).
  assert (Hc : Z.abs (MakeDate (MakeDay y m c) 0) <= maxTime).
  { rewrite (MakeDay_month _ _ Hm).
    unfold MakeDate, maxTime, msPerDay, c in *. lia. }
  assert (Hcn : Z.abs (MakeDate (MakeDay ny nm cn) 0) <= maxTime).
  { rewrite (MakeDay_month _ _ Hnm).
    unfold MakeDate, maxTime, msPerDay, cn in *. lia. }
  assert (Hbefore : (MakeDay y m c <? Day t) = (c <? DateFromTime t)).
  { rewrite (MakeDay_month _ _ Hm).
    destruct (Z.ltb_spec c (DateFromTime t));
      destruct (Z.ltb_spec
                  (DayFromYear y + daysBeforeMonth (InLeapYear y) m + c - 1)
                  (Day t)); auto; lia. }
  assert (Hres : nearestDayOfMonth (Some t) day
                 = Some (MakeDate (resolveDayOfMonth t day) 0)).
  { unfold nearestDayOfMonth, resolveDayOfMonth, getDaysInMonth,
      getFullYear, getMonth, option_map.
    fold y m c. cbv zeta. fold ny nm cn.
    rewrite (@newDate_Some y m c Hy Hc).
    rewrite startOfDay_Some by (unfold maxTime, msPerDay in *; lia).
    unfold isBefore.
    replace (MakeDate (MakeDay y m c) 0 <? Day t * msPerDay)
      with (MakeDay y m c <? Day t).
    2:{ unfold MakeDate, msPerDay.
        destruct (Z.ltb_spec (MakeDay y m c) (Day t));
          destruct (Z.ltb_spec (MakeDay y m c * 86400000 + 0)
                               (Day t * 86400000)); auto; lia. }
    destruct (MakeDay y m c <? Day t); cbn [negb]; [|reflexivity].
    destruct (@addMonths_one t Hy Ht) as [nd [-> [Hyn [Hmn _]]]].
    fold y m ny nm in Hyn, Hmn.
    pose proof (TimeWithinDay_range t) as Htw.
    unfold YearFromTime, MonthFromTime.
    rewrite (Day_MakeDate _ Htw), Hyn, Hmn. fold cn.
    apply newDate_Some; assumption. }
  exists (MakeDate (resolveDayOfMonth t day) 0).
  split; [exact Hres|]. split; [reflexivity|].
  destruct (fields_at_midnight (resolveDayOfMonth t day)) as [-> [-> ->]].
  unfold resolveDayOfMonth. fold y m c. cbv zeta. fold ny nm cn.
  rewrite Hbefore.
  split; [|split].
  - intros Hle. destruct (Z.ltb_spec c (DateFromTime t)); [lia|].
    apply MakeDay_fields; [exact Hm | lia].
  - intros Hlt Hone. destruct (Z.ltb_spec c (DateFromTime t)); [|lia].
    apply MakeDay_fields; [exact Hnm | unfold cn; lia].
  - repeat split; vm_compute; reflexivity.
Qed.

Lemma nearestDayOfMonth_clamps_witness :
  exists r,
    nearestDayOfMonth (Some 1704844800000) 5 = Some r
    /\ YearFromTime r = 2024 /\ MonthFromTime r = 1 /\ DateFromTime r = 5.
Proof.
  assert (H1 : 100 <= YearFromTime 1704844800000) by (vm_compute; discriminate).
  assert (H2 : 1704844800000 <= maxTime - 62 * msPerDay)
    by (vm_compute; discriminate).
  assert (H3 : 0 <= 5) by lia.
  destruct (@nearestDayOfMonth_clamps 1704844800000 5 H1 H2 H3)
    as [r [Hr [_ [_ [Hnext _]]]]].
  exists r. split; [exact Hr|].
  apply Hnext; [vm_compute; reflexivity | lia].
Defined.



(** *** Times of day *)

Lemma atTime_Some (t h m : Z) :
  0 <= h -> 0 <= m ->
  - maxTime <= t ->
  Day t * msPerDay + h * msPerHour + m * msPerMinute + msPerHour <= maxTime ->
  atTime (Some t) h m
  = Some (Day t * msPerDay + h * msPerHour + m * msPerMinute).
Proof.
  intros Hh Hm Hlo Hhi.
  pose proof (Day_bounds t) as Hd.
  unfold atTime, setMilliseconds, setSeconds, setMinutes, setHours,
    setMilliseconds1, setSeconds1, setMinutes1, setHours1, withTime.
  set (t1 := MakeDate (Day t)
               (MakeTime h (MinFromTime t) (SecFromTime t) (msFromTime t))).
  assert (E1 : t1 = Day t * msPerDay + h * msPerHour
                    + (t mod msPerHour)).
  { unfold t1, MakeDate, MakeTime, MinFromTime, SecFromTime, msFromTime,
      msPerHour, msPerMinute, msPerSecond, msPerDay.
    Z.div_mod_to_equations. lia. }
  assert (R1 : 0 <= t mod msPerHour < msPerHour)
    by (unfold msPerHour; Z.div_mod_to_equations; lia).
  rewrite (TimeClip_Some t1)
    by (unfold maxTime, msPerDay, msPerHour, msPerMinute in *; lia).
  set (t2 := MakeDate (Day t1)
               (MakeTime (HourFromTime t1) m (SecFromTime t1) (msFromTime t1))).
  assert (E2 : t2 = Day t * msPerDay + h * msPerHour + m * msPerMinute
                    + (t mod msPerMinute)).
  { unfold t2. rewrite E1.
    unfold MakeDate, MakeTime, Day, HourFromTime, SecFromTime, msFromTime,
      msPerHour, msPerMinute, msPerSecond, msPerDay in *.
    Z.div_mod_to_equations. lia. }
  assert (R2 : 0 <= t mod msPerMinute < msPerMinute)
    by (unfold msPerMinute; Z.div_mod_to_equations; lia).
  rewrite (TimeClip_Some t2)
    by (unfold maxTime, msPerDay, msPerHour, msPerMinute in *; lia).
  set (t3 := MakeDate (Day t2)
               (MakeTime (HourFromTime t2) (MinFromTime t2) 0 (msFromTime t2))).
  assert (E3 : t3 = Day t * msPerDay + h * msPerHour + m * msPerMinute
                    + (t mod msPerSecond)).
  { unfold t3. rewrite E2.
    unfold MakeDate, MakeTime, Day, HourFromTime, MinFromTime, msFromTime,
      msPerHour, msPerMinute, msPerSecond, msPerDay in *.
    Z.div_mod_to_equations. lia. }
  assert (R3 : 0 <= t mod msPerSecond < msPerSecond)
    by (unfold msPerSecond; Z.div_mod_to_equations; lia).
  rewrite (TimeClip_Some t3)
    by (unfold maxTime, msPerDay, msPerHour, msPerMinute, msPerSecond in *;
        lia).
  rewrite TimeClip_Some.
  - f_equal. rewrite E3.
    unfold MakeDate, MakeTime, Day, HourFromTime, MinFromTime, SecFromTime,
      msPerHour, msPerMinute, msPerSecond, msPerDay in *.
    Z.div_mod_to_equations. lia.
  - rewrite E3.
    unfold MakeDate, MakeTime, Day, HourFromTime, MinFromTime, SecFromTime,
      maxTime, msPerHour, msPerMinute, msPerSecond, msPerDay in *.
    Z.div_mod_to_equations. lia.
Qed.

Lemma fields_of_time (q h m : Z) :
  0 <= h < 24 -> 0 <= m < 60 ->
  let r := q * msPerDay + h * msPerHour + m * msPerMinute in
  Day r = q /\ HourFromTime r = h /\ MinFromTime r = m
  /\ SecFromTime r = 0 /\ msFromTime r = 0.
Proof.
  intros Hh Hm r. unfold r, Day, HourFromTime, MinFromTime, SecFromTime,
    msFromTime, msPerDay, msPerHour, msPerMinute, msPerSecond.
  repeat split; Z.div_mod_to_equations; lia.
Qed.

(** X1.  [atTime] does not validate the hour and the minute: for any
    non-negative [h] and [m] it returns the start of the date's day plus
    [h] hours and [m] minutes, seconds and milliseconds cleared; with
    [h < 24] and [m < 60] that is [h:m:00.000] of the same day, and
    [atEndOfDay] is 23:59:00.000 of the same day. *)
Theorem atTime_adds_hours_and_minutes (t h m : Z) :
  0 <= h -> 0 <= m ->
  - maxTime <= t ->
  Day t * msPerDay + h * msPerHour + m * msPerMinute + msPerHour <= maxTime ->
  let r := Day t * msPerDay + h * msPerHour + m * msPerMinute in
  atTime (Some t) h m = Some r
  /\ (h < 24 -> m < 60 ->
      Day r = Day t /\ HourFromTime r = h /\ MinFromTime r = m
      /\ SecFromTime r = 0 /\ msFromTime r = 0)
  /\ (h = 23 -> m = 59 -> atEndOfDay (Some t) = Some r).
Proof.
  intros Hh Hm Hlo Hhi r.
  pose proof (atTime_Some Hh Hm Hlo Hhi) as H. fold r in H.
  split; [exact H|]. split.
  - intros Hh' Hm'. apply fields_of_time; lia.
  - intros -> ->. exact H.
Qed.

Lemma atTime_adds_hours_and_minutes_witness :
  atTime (Some 1704888000000) 25 70
  = Some (Day 1704888000000 * msPerDay + 25 * msPerHour + 70 * msPerMinute).
Proof.
  apply (@atTime_adds_hours_and_minutes 1704888000000 25 70);
    vm_compute; discriminate.
Defined.

(** *** Weekdays, today included *)

Lemma nextWeekday_startOfDay (t target : Z) (allowToday : bool) :
  Z.abs t <= maxTime ->
  nextWeekday (Some t) target allowToday
  = nextWeekday (startOfDay (Some t)) target allowToday.
Proof.
  intros H. rewrite (startOfDay_Some t H).
  unfold nextWeekday, getDay, option_map.
  rewrite (startOfDay_Some t H), (startOfDay_Some _ (Day_abs t H)).
  unfold WeekDay. rewrite !Day_mul. reflexivity.
Qed.

(** X2.  [nextWeekday] with today allowed returns the start of the first
    day, from the day of [from] on, that falls on the target weekday: today
    itself when today is that weekday, and otherwise a day at most six days
    ahead. *)
Theorem nextWeekday_includes_today (t target : Z) :
  - maxTime <= t <= maxTime - 7 * msPerDay ->
  0 <= target <= 6 ->
  exists r,
    nextWeekday (Some t) target true = Some r
    /\ WeekDay r = target
    /\ TimeWithinDay r = 0
    /\ Day t <= Day r <= Day t + 6
    /\ (WeekDay t = target -> r = Day t * msPerDay).
Proof.
  intros Ht Htarget.
  assert (Habs : Z.abs t <= maxTime) by (unfold maxTime, msPerDay in *; lia).
  rewrite (nextWeekday_startOfDay t target true Habs).
  destruct (@nextWeekday_spec t target true Ht Htarget)
    as [r [Hr [Hw [Hm Hd]]]].
  exists r. repeat split; auto; try lia.
  intros Htoday.
  assert (Hq : r = Day r * msPerDay).
  { unfold Day, TimeWithinDay, msPerDay in *.
    Z.div_mod_to_equations. lia. }
  assert (Day r = Day t); [|congruence].
  unfold WeekDay in *. Z.div_mod_to_equations. lia.
Qed.

Lemma nextWeekday_includes_today_witness :
  exists r,
    nextWeekday NOW 3 true = Some r
    /\ WeekDay r = 3
    /\ r = Day 1704888000000 * msPerDay.
Proof.
  destruct (@nextWeekday_includes_today 1704888000000 3)
    as [r [Hr [Hw [_ [_ Htoday]]]]];
    [vm_compute; split; discriminate | lia |].
  exists r. split; [exact Hr|]. split; [exact Hw|].
  apply Htoday. reflexivity.
Defined.

(** *** The next full hour *)

Lemma ceilToHour_else (t : Z) :
  ~ (MinFromTime t = 0 /\ SecFromTime t = 0) ->
  ceilToHour (Some t)
  = match getHours (setMinutes3 (Some t) 0 0 0) with
    | Some h => setHours1 (setMinutes3 (Some t) 0 0 0) (h + 1)
    | None => None
    end.
Proof.
  intros Hn. unfold ceilToHour, getMinutes, getSeconds, option_map.
  destruct (MinFromTime t) eqn:Em; try reflexivity.
  destruct (SecFromTime t) eqn:Es; try reflexivity.
  exfalso. apply Hn. auto.
Qed.

Lemma ceilToHour_spec (t : Z) :
  - maxTime <= t <= maxTime - msPerHour ->
  exists r,
    ceilToHour (Some t) = Some r
    /\ t <= r < t + msPerHour
    /\ (MinFromTime t = 0 /\ SecFromTime t = 0 -> r = t)
    /\ (~ (MinFromTime t = 0 /\ SecFromTime t = 0) ->
        r mod msPerHour = 0 /\ r = (t / msPerHour + 1) * msPerHour).
Proof.
  intros Ht.
  assert (Hcase : (MinFromTime t = 0 /\ SecFromTime t = 0)
                  \/ ~ (MinFromTime t = 0 /\ SecFromTime t = 0)) by lia.
  destruct Hcase as [[Hm Hs] | Hn].
  - unfold ceilToHour, getMinutes, getSeconds, option_map.
    rewrite Hm, Hs. exists t. unfold msPerHour.
    split; [reflexivity|]. split; [lia|]. split; [reflexivity|].
    intros H. exfalso. apply H. auto.
  - set (r0 := MakeDate (Day t) (MakeTime (HourFromTime t) 0 0 0)).
    assert (E0 : r0 = t / msPerHour * msPerHour).
    { unfold r0, MakeDate, MakeTime, Day, HourFromTime, msPerDay, msPerHour,
        msPerMinute, msPerSecond. Z.div_mod_to_equations. lia. }
    assert (Hr0 : t - msPerHour < r0 <= t).
    { rewrite E0. unfold msPerHour. Z.div_mod_to_equations. lia. }
    assert (Hlt : r0 < t).
    { destruct (Z.eq_dec r0 t) as [Heq|]; [|lia]. exfalso. apply Hn.
      rewrite E0 in Heq. unfold MinFromTime, SecFromTime, msPerHour,
        msPerMinute, msPerSecond in *.
      split; Z.div_mod_to_equations; lia. }
    rewrite (ceilToHour_else t Hn).
    unfold setMinutes3, withTime. fold r0.
    rewrite (TimeClip_Some r0)
      by (unfold maxTime, msPerHour in *; lia).
    unfold getHours, option_map, setHours1, withTime.
    exists (r0 + msPerHour).
    assert (E1 : MakeDate (Day r0)
                   (MakeTime (HourFromTime r0 + 1) (MinFromTime r0)
                             (SecFromTime r0) (msFromTime r0))
                 = r0 + msPerHour).
    { rewrite E0. unfold MakeDate, MakeTime, Day, HourFromTime, MinFromTime,
        SecFromTime, msFromTime, msPerDay, msPerHour, msPerMinute,
        msPerSecond. Z.div_mod_to_equations. lia. }
    rewrite E1. split.
    + apply TimeClip_Some. unfold maxTime, msPerHour in *. lia.
    + split; [lia|]. split; [intros H; exfalso; apply Hn, H|].
      intros _. rewrite E0. split; [|lia].
      unfold msPerHour. Z.div_mod_to_equations. lia.
Qed.


(** X3.  [ceilToHour] returns an instant at or after its argument and less
    than an hour later.  When the minutes or the seconds are not zero the
    result is the next exact hour; when both are zero the argument is
    returned as it is, milliseconds included. *)
Theorem ceilToHour_rounds_up (t : Z) :
  - maxTime <= t <= maxTime - msPerHour ->
  exists r,
    ceilToHour (Some t) = Some r
    /\ t <= r < t + msPerHour
    /\ (MinFromTime t = 0 /\ SecFromTime t = 0 -> r = t)
    /\ (~ (MinFromTime t = 0 /\ SecFromTime t = 0) ->
        r mod msPerHour = 0 /\ r = (t / msPerHour + 1) * msPerHour).
Proof. exact (@ceilToHour_spec t). Qed.

Lemma ceilToHour_rounds_up_witness :
  exists r,
    ceilToHour (Some 1704888123456) = Some r
    /\ 1704888123456 <= r < 1704888123456 + msPerHour.
Proof.
  destruct (@ceilToHour_rounds_up 1704888123456) as [r [Hr [Hb _]]];
    [vm_compute; split; discriminate|].
  exists r. split; [exact Hr | exact Hb].
Defined.

(** *** The fallback stages *)

Lemma setDue_Some (r : Z) (st : state) :
  exists s,
    toISOString (Some r) = Some s
    /\ setDue (Some r) st = Ok (with_patch (set_due_date (Some s)) st).
Proof.
  unfold setDue, toIso. cbn [toISOString bind]. eexists. split; reflexivity.
Qed.

Lemma setDue_iso (r : Z) (st : state) :
  setDue (Some r) st
  = Ok (with_patch (set_due_date (toISOString (Some r))) st).
Proof.
  destruct (setDue_Some r st) as [s [-> ->]]. reflexivity.
Qed.

Lemma applyTime_timeOrEndOfDay (st : state) (d : Date) :
  applyTime st d
  = atTime d (fst (timeOrEndOfDay st)) (snd (timeOrEndOfDay st)).
Proof.
  unfold applyTime, timeOrEndOfDay, atEndOfDay.
  destruct (effectiveHour st), (effectiveMinute st); reflexivity.
Qed.

(** Today at [h:m], or tomorrow at [h:m] when today's is before [t]. *)
Lemma todayOrTomorrow_spec (t h m : Z) :
  0 <= h -> 0 <= m ->
  - maxTime <= t ->
  Day t * msPerDay + msPerDay + h * msPerHour + m * msPerMinute + msPerHour
  <= maxTime ->
  let candidate := atTime (startOfDay (Some t)) h m in
  (if isBefore candidate (Some t)
   then atTime (startOfDay (addDays (Some t) 1)) h m
   else candidate)
  = Some (todayOrTomorrow t h m)
  /\ t <= todayOrTomorrow t h m
  /\ (h < 24 -> m < 60 -> todayOrTomorrow t h m < t + msPerDay).
Proof.
  intros Hh Hm Hlo Hhi candidate.
  pose proof (Day_bounds t) as Hd.
  assert (Habs : Z.abs t <= maxTime)
    by (unfold maxTime, msPerDay, msPerHour, msPerMinute in *; lia).
  assert (Hc : candidate
               = Some (Day t * msPerDay + h * msPerHour + m * msPerMinute)).
  { unfold candidate. rewrite (startOfDay_Some t Habs).
    rewrite atTime_Some; rewrite ?Day_mul; auto;
      unfold maxTime, msPerDay, msPerHour, msPerMinute in *; lia. }
  rewrite Hc. unfold isBefore, todayOrTomorrow.
  destruct (Z.ltb_spec
              (Day t * msPerDay + h * msPerHour + m * msPerMinute) t).
  - rewrite addDays_Some
      by (unfold maxTime, msPerDay, msPerHour, msPerMinute in *; lia).
    rewrite startOfDay_Some
      by (unfold maxTime, msPerDay, msPerHour, msPerMinute in *; lia).
    assert (Hday : Day (t + 1 * msPerDay) = Day t + 1).
    { unfold Day, msPerDay. Z.div_mod_to_equations. lia. }
    rewrite Hday.
    rewrite atTime_Some; rewrite ?Day_mul; auto;
      try (unfold maxTime, msPerDay, msPerHour, msPerMinute in *; lia).
    split; [f_equal; lia|].
    unfold msPerDay, msPerHour, msPerMinute in *. split; lia.
  - split; [reflexivity|].
    unfold msPerDay, msPerHour, msPerMinute in *. split; lia.
Qed.

(** X4.  The time-only stage: with no due date yet and an effective time
    [h:m], the due date becomes today at that time when that is not before
    now, and tomorrow at that time otherwise; it is never before now, and
    for a time of day proper it is less than a day ahead. *)
Theorem time_only_rolls_to_tomorrow (t h m : Z) (st : state) :
  0 <= h -> 0 <= m ->
  - maxTime <= t ->
  Day t * msPerDay + msPerDay + h * msPerHour + m * msPerMinute + msPerHour
  <= maxTime ->
  due_date (patch st) = None ->
  effectiveHour st = Some h -> effectiveMinute st = Some m ->
  stageTimeOnly (Some t) st
  = Ok (with_patch
          (set_due_date (toISOString (Some (todayOrTomorrow t h m)))) st)
  /\ t <= todayOrTomorrow t h m
  /\ (h < 24 -> m < 60 -> todayOrTomorrow t h m < t + msPerDay).
Proof.
  intros Hh Hm Hlo Hhi Hdue Eh Em.
  destruct (@todayOrTomorrow_spec t h m Hh Hm Hlo Hhi) as [Hr Hb].
  split; [|exact Hb].
  unfold stageTimeOnly. rewrite Hdue, Eh, Em.
  cbv zeta in Hr.
  destruct (isBefore (atTime (startOfDay (Some t)) h m) (Some t));
    rewrite Hr; apply setDue_iso.
Qed.

Lemma time_only_rolls_to_tomorrow_witness :
  let st := with_parsed (Some 9) (Some 0) (initial (js "x")) in
  stageTimeOnly NOW st
  = Ok (with_patch
          (set_due_date (Some (js "2024-01-11T09:00:00.000Z"))) st).
Proof.
  intros st.
  refine (proj1 (@time_only_rolls_to_tomorrow 1704888000000 9 0 st
                   _ _ _ _ _ _ _));
    [lia | lia | vm_compute; discriminate | vm_compute; discriminate
    | reflexivity | reflexivity | reflexivity].
Defined.

(** X5.  The monthly fallback: with MonthlyByDay recurrence and no due
    date, the due date becomes today at the effective time, or at 23:59
    when there is none, if that is not before now, and the same time
    tomorrow otherwise; it is never before now. *)
Theorem monthly_fallback_is_not_in_the_past (t : Z) (st : state) :
  let h := fst (timeOrEndOfDay st) in
  let m := snd (timeOrEndOfDay st) in
  0 <= h -> 0 <= m ->
  - maxTime <= t ->
  Day t * msPerDay + msPerDay + h * msPerHour + m * msPerMinute + msPerHour
  <= maxTime ->
  repeat_mode (patch st) = Some 1 ->
  due_date (patch st) = None ->
  stageMonthlyRepeat (Some t) st
  = Ok (with_patch
          (set_due_date (toISOString (Some (todayOrTomorrow t h m)))) st)
  /\ t <= todayOrTomorrow t h m.
Proof.
  intros h m Hh Hm Hlo Hhi Hmode Hdue.
  destruct (@todayOrTomorrow_spec t h m Hh Hm Hlo Hhi) as [Hr [Hb _]].
  split; [|exact Hb].
  unfold stageMonthlyRepeat. rewrite Hmode, Hdue.
  rewrite !applyTime_timeOrEndOfDay. fold h m.
  cbv zeta in Hr.
  destruct (isBefore (atTime (startOfDay (Some t)) h m) (Some t));
    rewrite Hr; apply setDue_iso.
Qed.

Lemma monthly_fallback_is_not_in_the_past_witness :
  let st := with_patch (set_repeat_mode (Some 1)) (initial (js "x")) in
  stageMonthlyRepeat NOW st
  = Ok (with_patch
          (set_due_date (Some (js "2024-01-10T23:59:00.000Z"))) st).
Proof.
  intros st.
  refine (proj1 (@monthly_fallback_is_not_in_the_past 1704888000000 st
                   _ _ _ _ _ _));
    [vm_compute; discriminate | vm_compute; discriminate
    | vm_compute; discriminate | vm_compute; discriminate
    | reflexivity | reflexivity].
Defined.

(** X6.  The hourly fallback: with an interval under a day and no due
    date, the due date becomes [ceilToHour now], an instant at or after
    now and less than an hour later; with an interval of a day or more, or
    with a due date, the stage changes nothing. *)
Theorem hourly_fallback_is_within_the_hour (t a : Z) (st : state) :
  - maxTime <= t <= maxTime - msPerHour ->
  repeat_after (patch st) = Some a ->
  (86400 <= a \/ due_date (patch st) <> None ->
   stageHourlyRepeat (Some t) st = Ok st)
  /\ (a < 86400 -> due_date (patch st) = None ->
      exists r,
        t <= r < t + msPerHour
        /\ stageHourlyRepeat (Some t) st
           = Ok (with_patch (set_due_date (toISOString (Some r))) st)).
Proof.
  intros Ht Ha. unfold stageHourlyRepeat. rewrite Ha. split.
  - intros [Hbig | Hdue].
    + destruct (due_date (patch st)); [reflexivity|].
      destruct (Z.ltb_spec a 86400); [lia | reflexivity].
    + destruct (due_date (patch st)); [reflexivity | congruence].
  - intros Hsmall Hdue. rewrite Hdue.
    destruct (Z.ltb_spec a 86400); [|lia].
    destruct (@ceilToHour_spec t Ht) as [r [Hr [Hb _]]].
    exists r. split; [exact Hb|]. rewrite Hr. apply setDue_iso.
Qed.

Lemma hourly_fallback_is_within_the_hour_witness :
  let st := with_patch (interval 3600) (initial (js "x")) in
  exists r,
    1704888123456 <= r < 1704888123456 + msPerHour
    /\ stageHourlyRepeat (Some 1704888123456) st
       = Ok (with_patch (set_due_date (toISOString (Some r))) st).
Proof.
  intros st.
  destruct (@hourly_fallback_is_within_the_hour 1704888123456 3600 st)
    as [_ H]; [vm_compute; split; discriminate | reflexivity |].
  apply H; [lia | reflexivity].
Defined.


(** *** An Invalid Date for now *)

Lemma setDue_None (st : state) : setDue None st = RangeError.
Proof. reflexivity. Qed.

Lemma applyTime_None (st : state) : applyTime st None = None.
Proof.
  unfold applyTime. destruct (effectiveHour st), (effectiveMinute st);
    reflexivity.
Qed.

Lemma addDays_None (n : Z) : addDays None n = None.
Proof. unfold addDays. destruct (n =? 0); reflexivity. Qed.

Ltac invalid_now H :=
  cbn [startOfDay setHours4 withTime nextWeekday getDay option_map
       nearestDayOfMonth getDaysInMonth getFullYear getMonth ceilToHour
       getMinutes getSeconds getHours setMinutes3 setHours1 isBefore
       atTime setHours setMinutes setSeconds setMilliseconds setHours1
       setMinutes1 setSeconds1 setMilliseconds1] in H;
  rewrite ?addDays_None in H;
  cbn [startOfDay setHours4 withTime] in H;
  rewrite ?applyTime_None, ?setDue_None in H;
  cbn [bind] in H.

Ltac invert_invalid :=
  repeat match goal with
  | H : Ok _ = Ok _ |- _ => inversion H; subst; clear H
  | H : RangeError = Ok _ |- _ => discriminate H
  | H : setDue _ _ = Ok _ |- _ => exfalso; invalid_now H; discriminate H
  | H : bind _ _ = Ok _ |- _ =>
      apply bind_inv in H; destruct H as [? [? H]]
  | H : (match ?x with _ => _ end) = Ok _ |- _ => destruct x eqn:?
  end.

(** With an Invalid Date for now no date stage sets a due date: it throws
    or leaves the patch as it is. *)
Lemma dateStages_invalid_now (f : Date -> state -> outcome state) :
  In f [ stageSecondDayOfWeek; stageEveryWeekday; stageEveryDayOfMonth;
         stageDateExpressions; stageTimeOnly; stageHourlyRepeat;
         stageMonthlyRepeat ] ->
  forall st st', f None st = Ok st' -> patch st' = patch st.
Proof.
  intros Hin st st' H.
  repeat (destruct Hin as [<- | Hin]); [..|destruct Hin].
  - unfold stageSecondDayOfWeek in H. invalid_now H. invert_invalid.
    reflexivity.
  - unfold stageEveryWeekday in H. invalid_now H. invert_invalid;
      reflexivity.
  - unfold stageEveryDayOfMonth in H. invalid_now H. invert_invalid;
      reflexivity.
  - unfold stageDateExpressions in H. invalid_now H. invert_invalid;
      reflexivity.
  - unfold stageTimeOnly in H. invalid_now H.
    destruct (due_date (patch st)), (effectiveHour st),
      (effectiveMinute st); invert_invalid; reflexivity.
  - unfold stageHourlyRepeat in H. invalid_now H. invert_invalid;
      reflexivity.
  - unfold stageMonthlyRepeat in H. invalid_now H.
    destruct (repeat_mode (patch st)) as [[|[]|]|], (due_date (patch st));
      invert_invalid; reflexivity.
Qed.

Lemma leavesDue_pure (f : state -> state) :
  (forall st, due_date (patch (f st)) = due_date (patch st)) ->
  leavesDue (pure f).
Proof.
  intros Hf st st' H. unfold pure in H. inversion H; subst. apply Hf.
Qed.

Lemma run_leavesDue (fs : list (state -> outcome state)) :
  Forall leavesDue fs ->
  forall st st', run fs st = Ok st' ->
    due_date (patch st') = due_date (patch st).
Proof.
  induction 1 as [|f fs Hf _ IH]; simpl; intros st st' Hrun.
  - inversion Hrun; subst; reflexivity.
  - apply bind_inv in Hrun. destruct Hrun as [st1 [H1 H2]].
    rewrite (IH _ _ H2). apply Hf, H1.
Qed.

Lemma stages_invalid_now (text : jsstring) :
  Forall leavesDue (stages text None).
Proof.
  unfold stages.
  repeat apply Forall_cons; try apply Forall_nil;
    try (intros st st' H; f_equal;
         eapply dateStages_invalid_now; [ | exact H]; simpl; tauto);
    apply leavesDue_pure; intros st.
  - apply stagePriority_patch.
  - apply stageProject_patch.
  - apply stageLabels_patch.
  - rewrite stageExplicitTime_patch; reflexivity.
  - rewrite stageTimeMarker_patch; reflexivity.
  - apply stageRecurrence_due.
  - apply stageTitle_patch.
Qed.

(** X7.  With an Invalid Date for now the parser never makes up a due
    date: whenever it returns a patch, the patch has no due date (any stage
    that would have set one throws a RangeError instead). *)
Theorem invalid_now_gives_no_due_date (text : jsstring) (p : ParsedTaskPatch) :
  parseQuickAddRu text None = Ok (Some p) -> due_date p = None.
Proof.
  intros Hp. apply parse_patch in Hp. destruct Hp as [st [Hrun [<- _]]].
  apply (run_leavesDue (stages_invalid_now text)) in Hrun. exact Hrun.
Qed.

Lemma invalid_now_gives_no_due_date_witness :
  exists p,
    parseQuickAddRu (js "task !3 +Work") None = Ok (Some p)
    /\ priority p = Some 3 /\ due_date p = None.
Proof.
  eexists. split; [vm_compute; reflexivity|]. split; [reflexivity|].
  eapply (@invalid_now_gives_no_due_date (js "task !3 +Work")).
  vm_compute. reflexivity.
Defined.


(** *** What now decides *)

Lemma sameButDue_refl (a : state) : sameButDue a a.
Proof. unfold sameButDue. tauto. Qed.

Ltac fields :=
  cbn [remaining patch parsedHour parsedMinute markerHour markerMinute
       due_date priority project_name labels repeat_after repeat_mode
       cleaned_title with_patch with_remaining with_parsed with_marker
       erase set_due_date set_priority set_project_name set_labels
       set_repeat_after set_repeat_mode set_cleaned_title interval
       effectiveHour effectiveMinute isNone] in *.

(** Split two states in step into their common part and their due
    dates. *)
Ltac in_step a b H :=
  destruct a as [ra [da a1 a2 a3 a4 a5 a6] ah am amh amm];
  destruct b as [rb [db b1 b2 b3 b4 b5 b6] bh bm bmh bmm];
  unfold sameButDue in H; fields;
  destruct H as [Hr [Hh [Hm [Hmh [Hmm [Hp Hd]]]]]];
  inversion Hp; subst; clear Hp;
  destruct da, db; try discriminate Hd; clear Hd.

Ltac step_done :=
  invert_stage;
  try (rewrite ?andb_false_r in *; discriminate);
  unfold sameButDue; fields; break_stage; fields;
  repeat split; reflexivity.

Lemma inStep_pure (f : state -> state) :
  (forall a b, sameButDue a b -> sameButDue (f a) (f b)) ->
  inStep (pure f) (pure f).
Proof.
  intros Hf a b a' b' H Ha Hb. unfold pure in *.
  inversion Ha; inversion Hb; subst. apply Hf, H.
Qed.

Lemma inStep_priority (a b : state) :
  sameButDue a b -> sameButDue (stagePriority a) (stagePriority b).
Proof.
  intros H. in_step a b H; unfold stagePriority; fields;
    break_stage; unfold sameButDue; fields; repeat split; reflexivity.
Qed.

Lemma inStep_project (a b : state) :
  sameButDue a b -> sameButDue (stageProject a) (stageProject b).
Proof.
  intros H. in_step a b H; unfold stageProject; fields;
    break_stage; unfold sameButDue; fields; repeat split; reflexivity.
Qed.

Lemma inStep_labels (a b : state) :
  sameButDue a b -> sameButDue (stageLabels a) (stageLabels b).
Proof.
  intros H. in_step a b H; unfold stageLabels; fields;
    break_stage; unfold sameButDue; fields; repeat split; reflexivity.
Qed.

Lemma inStep_explicitTime (a b : state) :
  sameButDue a b -> sameButDue (stageExplicitTime a) (stageExplicitTime b).
Proof.
  intros H. in_step a b H; unfold stageExplicitTime; fields;
    break_stage; unfold sameButDue; fields; repeat split; reflexivity.
Qed.

Lemma inStep_timeMarker (a b : state) :
  sameButDue a b -> sameButDue (stageTimeMarker a) (stageTimeMarker b).
Proof.
  intros H. in_step a b H; unfold stageTimeMarker; fields;
    break_stage; unfold sameButDue; fields; repeat split; reflexivity.
Qed.

Lemma inStep_recurrence (a b : state) :
  sameButDue a b -> sameButDue (stageRecurrence a) (stageRecurrence b).
Proof.
  intros H. in_step a b H; unfold stageRecurrence; fields;
    break_stage; unfold sameButDue; fields; repeat split; reflexivity.
Qed.

Lemma inStep_title (text : jsstring) (a b : state) :
  sameButDue a b -> sameButDue (stageTitle text a) (stageTitle text b).
Proof.
  intros H. in_step a b H; unfold stageTitle, cleanedOf; fields;
    break_stage; unfold sameButDue; fields; repeat split; reflexivity.
Qed.

Lemma inStep_secondDayOfWeek (now1 now2 : Date) :
  inStep (stageSecondDayOfWeek now1) (stageSecondDayOfWeek now2).
Proof.
  intros a b a' b' H Ha Hb. in_step a b H;
    unfold stageSecondDayOfWeek, weeklyIfUnset, noRecurrence in Ha, Hb;
    fields; step_done.
Qed.

Lemma inStep_everyWeekday (now1 now2 : Date) :
  inStep (stageEveryWeekday now1) (stageEveryWeekday now2).
Proof.
  intros a b a' b' H Ha Hb. in_step a b H;
    unfold stageEveryWeekday, weeklyIfUnset, noRecurrence in Ha, Hb;
    fields; step_done.
Qed.

Lemma inStep_everyDayOfMonth (now1 now2 : Date) :
  inStep (stageEveryDayOfMonth now1) (stageEveryDayOfMonth now2).
Proof.
  intros a b a' b' H Ha Hb. in_step a b H;
    unfold stageEveryDayOfMonth, monthlyIfUnset, noRecurrence in Ha, Hb;
    fields; step_done.
Qed.

Lemma inStep_dateExpressions (now1 now2 : Date) :
  inStep (stageDateExpressions now1) (stageDateExpressions now2).
Proof.
  intros a b a' b' H Ha Hb. in_step a b H;
    unfold stageDateExpressions in Ha, Hb; fields; step_done.
Qed.

Lemma inStep_timeOnly (now1 now2 : Date) :
  inStep (stageTimeOnly now1) (stageTimeOnly now2).
Proof.
  intros a b a' b' H Ha Hb. in_step a b H;
    unfold stageTimeOnly in Ha, Hb; fields; step_done.
Qed.

Lemma inStep_hourlyRepeat (now1 now2 : Date) :
  inStep (stageHourlyRepeat now1) (stageHourlyRepeat now2).
Proof.
  intros a b a' b' H Ha Hb. in_step a b H;
    unfold stageHourlyRepeat in Ha, Hb; fields; step_done.
Qed.

Lemma inStep_monthlyRepeat (now1 now2 : Date) :
  inStep (stageMonthlyRepeat now1) (stageMonthlyRepeat now2).
Proof.
  intros a b a' b' H Ha Hb. in_step a b H;
    unfold stageMonthlyRepeat in Ha, Hb; fields;
    destruct b5 as [[|[]|]|]; step_done.
Qed.

Lemma run_inStep (fs gs : list (state -> outcome state)) :
  Forall2 inStep fs gs ->
  forall a b a' b',
    sameButDue a b -> run fs a = Ok a' -> run gs b = Ok b' ->
    sameButDue a' b'.
Proof.
  induction 1 as [|f g fs gs Hfg _ IH]; simpl; intros a b a' b' H Ha Hb.
  - inversion Ha; inversion Hb; subst. exact H.
  - apply bind_inv in Ha. destruct Ha as [a1 [Ha1 Ha]].
    apply bind_inv in Hb. destruct Hb as [b1 [Hb1 Hb]].
    eapply IH; [|exact Ha|exact Hb]. eapply Hfg; eauto.
Qed.

Lemma stages_inStep (text : jsstring) (now1 now2 : Date) :
  Forall2 inStep (stages text now1) (stages text now2).
Proof.
  unfold stages.
  repeat apply Forall2_cons; try apply Forall2_nil;
    first [ apply inStep_secondDayOfWeek | apply inStep_everyWeekday
          | apply inStep_everyDayOfMonth | apply inStep_dateExpressions
          | apply inStep_timeOnly | apply inStep_hourlyRepeat
          | apply inStep_monthlyRepeat | apply inStep_pure ].
  - apply inStep_priority.
  - apply inStep_project.
  - apply inStep_labels.
  - apply inStep_explicitTime.
  - apply inStep_timeMarker.
  - apply inStep_recurrence.
  - apply inStep_title.
Qed.

Lemma parse_run (text : jsstring) (now : Date)
  (o : option ParsedTaskPatch) :
  trim text <> [] ->
  parseQuickAddRu text now = Ok o ->
  exists st, run (stages text now) (initial text) = Ok st
             /\ o = gate (patch st).
Proof.
  intros Hne. unfold parseQuickAddRu.
  assert (Hlen : ((List.length text =? 0)%nat
                  || (List.length (trim text) =? 0)%nat) = false).
  { destruct text as [|c text]; [exfalso; apply Hne; reflexivity|].
    destruct (trim (c :: text)); [exfalso; apply Hne; reflexivity|].
    reflexivity. }
  rewrite Hlen. intros H. apply bind_inv in H.
  destruct H as [st [Hrun H]]. inversion H. eauto.
Qed.

(** X8.  The instant now decides nothing but the value of the due date:
    two calls on the same text that both return, at whatever instants,
    return a patch or [null] alike, and their patches agree on priority,
    project, labels, recurrence and title, and on whether there is a due
    date. *)
Theorem now_decides_only_the_due_date
  (text : jsstring) (now1 now2 : Date) (o1 o2 : option ParsedTaskPatch) :
  parseQuickAddRu text now1 = Ok o1 ->
  parseQuickAddRu text now2 = Ok o2 ->
  match o1, o2 with
  | None, None => True
  | Some p1, Some p2 =>
    priority p1 = priority p2
    /\ project_name p1 = project_name p2
    /\ labels p1 = labels p2
    /\ repeat_after p1 = repeat_after p2
    /\ repeat_mode p1 = repeat_mode p2
    /\ cleaned_title p1 = cleaned_title p2
    /\ (due_date p1 = None <-> due_date p2 = None)
  | _, _ => False
  end.
Proof.
  intros H1 H2.
  destruct (trim text) as [|c r] eqn:Htrim.
  - rewrite (parse_blank text now1 Htrim) in H1.
    rewrite (parse_blank text now2 Htrim) in H2.
    inversion H1; inversion H2; subst. exact I.
  - assert (Hne : trim text <> []) by (rewrite Htrim; discriminate).
    destruct (parse_run text now1 Hne H1) as [a [Ha ->]].
    destruct (parse_run text now2 Hne H2) as [b [Hb ->]].
    pose proof (run_inStep (stages_inStep text now1 now2)
                  (sameButDue_refl (initial text)) Ha Hb) as H.
    destruct H as [_ [_ [_ [_ [_ [Hp Hd]]]]]].
    destruct (patch a) as [da a1 a2 a3 a4 a5 a6].
    destruct (patch b) as [db b1 b2 b3 b4 b5 b6].
    cbn [set_due_date due_date priority project_name labels repeat_after
         repeat_mode cleaned_title] in Hp, Hd.
    inversion Hp; subst; clear Hp.
    unfold gate, hasMeaningfulPatch.
    cbn [due_date priority project_name labels repeat_after repeat_mode
         cleaned_title].
    destruct da, db; try discriminate Hd; cbn [isNone negb orb andb].
    + repeat split; auto; discriminate.
    + destruct (_ && isNone b6); [exact I|].
      repeat split; auto.
Qed.

Lemma now_decides_only_the_due_date_witness :
  match parseQuickAddRu (js "tomorrow call !2") NOW,
        parseQuickAddRu (js "tomorrow call !2") (Some 0) with
  | Ok (Some p1), Ok (Some p2) =>
    priority p1 = priority p2 /\ cleaned_title p1 = cleaned_title p2
    /\ due_date p1 <> due_date p2
  | _, _ => False
  end.
Proof.
  pose proof (@now_decides_only_the_due_date (js "tomorrow call !2")
                NOW (Some 0)) as H.
  destruct (parseQuickAddRu (js "tomorrow call !2") NOW) as [[p1|]|] eqn:E1;
    try (vm_compute in E1; discriminate E1).
  destruct (parseQuickAddRu (js "tomorrow call !2") (Some 0))
    as [[p2|]|] eqn:E2; try (vm_compute in E2; discriminate E2).
  specialize (H _ _ eq_refl eq_refl). cbv beta iota in H.
  destruct H as [Hp [_ [_ [_ [_ [Ht _]]]]]].
  split; [exact Hp|]. split; [exact Ht|].
  vm_compute in E1, E2. inversion E1; inversion E2; subst.
  vm_compute. discriminate.
Defined.

(** *** What a match has read *)

Lemma m_steps (s : jsstring) (r : regex) :
  forall k a res,
    m s r k a = Some res -> exists b, steps s r a b /\ k b = Some res.
Proof.
  induction r as [|c|inv items|r1 IH1 r2 IH2|r1 IH1 r2 IH2|mn mx r1 IH1
                  |i r1 IH1| |r1 IH1]; intros k a res H; cbn [m steps] in *.
  - eauto.
  - destruct (charIs s (pos a) _) eqn:E; [eauto | discriminate].
  - destruct (charIs s (pos a) _) eqn:E; [eauto | discriminate].
  - apply IH1 in H. destruct H as [c [Hc H]].
    apply IH2 in H. destruct H as [b [Hb H]]. eauto.
  - destruct (m s r1 k a) eqn:E.
    + apply IH1 in E. destruct E as [b [Hb E]]. exists b. split; auto.
      congruence.
    + apply IH2 in H. destruct H as [b [Hb H]]. eauto.
  - assert (Hfuel : (mn <= mn + List.length s)%nat) by lia.
    revert H Hfuel. generalize (mn + List.length s)%nat as fuel.
    intros fuel. revert mn mx a.
    induction fuel as [|fuel IHf]; intros mn mx a H Hfuel.
    + assert (Hk : k a = Some res) by (destruct mx as [[|?]|]; exact H).
      exists a. split; [|exact Hk]. exists O. split; [reflexivity|].
      left. lia.
    + destruct mx as [[|mx']|].
      * exists a. split; [|exact H]. exists O. split; [reflexivity|].
        destruct mn; [left; lia | right; exists O; split; [reflexivity|lia]].
      * match type of H with
        | match ?x with _ => _ end = _ => destruct x eqn:E
        end.
        -- inversion H; subst.
           apply IH1 in E. destruct E as [c [Hc E]]. cbv beta in E.
           destruct ((mn =? 0)%nat && (pos c =? pos a)%nat);
             [discriminate|].
           apply IHf in E; [|lia]. destruct E as [b [[n [Hn Hmin]] E]].
           exists b. split; [|exact E]. exists (S n).
           split; [exists c; auto|].
           destruct Hmin as [Hmin | [x [Hx Hlt]]]; [left; lia|].
           right. exists (S mx'). split; [reflexivity|].
           cbn [option_map Nat.pred] in Hx. inversion Hx; subst. lia.
        -- destruct (Nat.eqb_spec mn 0); [|discriminate].
           exists a. split; [|exact H]. exists O. split; [reflexivity|].
           left. lia.
      * match type of H with
        | match ?x with _ => _ end = _ => destruct x eqn:E
        end.
        -- inversion H; subst.
           apply IH1 in E. destruct E as [c [Hc E]]. cbv beta in E.
           destruct ((mn =? 0)%nat && (pos c =? pos a)%nat);
             [discriminate|].
           apply IHf in E; [|lia]. destruct E as [b [[n [Hn Hmin]] E]].
           exists b. split; [|exact E]. exists (S n).
           split; [exists c; auto|].
           destruct Hmin as [Hmin | [x [Hx _]]]; [left; lia|].
           discriminate Hx.
        -- destruct (Nat.eqb_spec mn 0); [|discriminate].
           exists a. split; [|exact H]. exists O. split; [reflexivity|].
           left. lia.
  - apply IH1 in H. destruct H as [c [Hc H]]. eauto.
  - destruct (isWordBoundary s (pos a)) eqn:E; [eauto | discriminate].
  - destruct (m s r1 _ a); [discriminate | eauto].
Qed.

Lemma searchFrom_matchAt (s : jsstring) (r : regex) (n i : nat)
  (res : nat * mstate) :
  searchFrom s r n i = Some res -> exists j, matchAt s r j = Some res.
Proof.
  revert i. induction n as [|n IH]; intros i H; simpl in H;
    destruct (matchAt s r i) eqn:E.
  - inversion H; subst. eauto.
  - discriminate.
  - inversion H; subst. eauto.
  - eauto.
Qed.

Lemma search_steps (s : jsstring) (r : regex) (i : nat)
  (res : nat * mstate) :
  search s r i = Some res ->
  steps s r (MState (fst res) []) (snd res).
Proof.
  unfold search. destruct (i <=? List.length s)%nat; [|discriminate].
  intros H. apply searchFrom_matchAt in H. destruct H as [j H].
  unfold matchAt in H.
  destruct (m s r (fun st => Some st) (MState j [])) eqn:E; [|discriminate].
  inversion H; subst. apply m_steps in E. destruct E as [b [Hb E]].
  inversion E; subst. exact Hb.
Qed.

Lemma jsmatch_steps (re : regex) (s : jsstring) (mt : matched) :
  jsmatch re s = Some mt ->
  exists st, steps s re (MState (m_index mt) []) st
             /\ m_1 mt = group s st 1 /\ m_2 mt = group s st 2.
Proof.
  unfold jsmatch. destruct (search s re 0) as [res|] eqn:E; [|discriminate].
  intros H. inversion H; subst. apply search_steps in E.
  exists (snd res). auto.
Qed.

(** *** The fields of the extraction stages *)

Lemma weeklyIfUnset_extracted (p : ParsedTaskPatch) :
  priority (weeklyIfUnset p) = priority p
  /\ project_name (weeklyIfUnset p) = project_name p
  /\ labels (weeklyIfUnset p) = labels p.
Proof. unfold weeklyIfUnset; destruct (noRecurrence p); simpl; auto. Qed.

Lemma monthlyIfUnset_extracted (p : ParsedTaskPatch) :
  priority (monthlyIfUnset p) = priority p
  /\ project_name (monthlyIfUnset p) = project_name p
  /\ labels (monthlyIfUnset p) = labels p.
Proof. unfold monthlyIfUnset; destruct (noRecurrence p); simpl; auto. Qed.

Ltac extracted :=
  intros st st' H; invert_stage; simpl;
  auto using weeklyIfUnset_extracted, monthlyIfUnset_extracted.

Lemma keepsExtracted_pure (f : state -> state) :
  (forall st, priority (patch (f st)) = priority (patch st)
              /\ project_name (patch (f st)) = project_name (patch st)
              /\ labels (patch (f st)) = labels (patch st)) ->
  keepsExtracted (pure f).
Proof. intros Hf st st' H. inversion H; subst. apply Hf. Qed.

Lemma afterExtraction_keep (text : jsstring) (now : Date) :
  Forall keepsExtracted (afterExtraction text now).
Proof.
  unfold afterExtraction.
  repeat apply Forall_cons; try apply Forall_nil.
  - apply keepsExtracted_pure; intros st.
    rewrite stageExplicitTime_patch; auto.
  - apply keepsExtracted_pure; intros st.
    rewrite stageTimeMarker_patch; auto.
  - apply keepsExtracted_pure; intros st.
    unfold stageRecurrence; break_stage; simpl; auto.
  - unfold stageSecondDayOfWeek. extracted.
  - unfold stageEveryWeekday. extracted.
  - unfold stageEveryDayOfMonth. extracted.
  - unfold stageDateExpressions. extracted.
  - unfold stageTimeOnly. extracted.
  - unfold stageHourlyRepeat. extracted.
  - unfold stageMonthlyRepeat. extracted.
  - apply keepsExtracted_pure; intros st.
    unfold stageTitle; break_stage; simpl; auto.
Qed.

Lemma run_keepsExtracted (fs : list (state -> outcome state)) :
  Forall keepsExtracted fs ->
  forall st st', run fs st = Ok st' ->
    priority (patch st') = priority (patch st)
    /\ project_name (patch st') = project_name (patch st)
    /\ labels (patch st') = labels (patch st).
Proof.
  induction 1 as [|f fs Hf _ IH]; simpl; intros st st' Hrun.
  - inversion Hrun; subst; auto.
  - apply bind_inv in Hrun. destruct Hrun as [st1 [H1 H2]].
    destruct (Hf _ _ H1) as [<- [<- <-]]. eapply IH; eauto.
Qed.

Lemma stages_afterExtraction (text : jsstring) (now : Date) :
  stages text now
  = pure stagePriority :: pure stageProject :: pure stageLabels
      :: afterExtraction text now.
Proof. reflexivity. Qed.

Lemma stageProject_priority (st : state) :
  priority (patch (stageProject st)) = priority (patch st).
Proof. unfold stageProject; break_stage; reflexivity. Qed.

Lemma stageLabels_extracted (st : state) :
  priority (patch (stageLabels st)) = priority (patch st)
  /\ project_name (patch (stageLabels st)) = project_name (patch st).
Proof. unfold stageLabels; break_stage; auto. Qed.

(** The three fields of a returned patch are those of the three
    extraction stages, run on the text as given. *)
Lemma parse_extracted (text : jsstring) (now : Date) (p : ParsedTaskPatch) :
  parseQuickAddRu text now = Ok (Some p) ->
  priority p = priority (patch (stagePriority (initial text)))
  /\ project_name p
     = project_name (patch (stageProject (stagePriority (initial text))))
  /\ labels p
     = labels (patch (stageLabels
                        (stageProject (stagePriority (initial text))))).
Proof.
  intros Hp. apply parse_patch in Hp. destruct Hp as [st [Hrun [<- _]]].
  rewrite stages_afterExtraction, !run_pure in Hrun.
  destruct (run_keepsExtracted (afterExtraction_keep text now) _ Hrun)
    as [-> [-> ->]].
  destruct (stageLabels_extracted (stageProject (stagePriority (initial text))))
    as [-> ->].
  rewrite stageProject_priority. auto.
Qed.

(** *** The priority *)

Lemma slice_one (s : jsstring) (i : nat) (c : N) :
  nth_error s i = Some c -> slice s i (S i) = [c].
Proof.
  unfold slice. replace (S i - i)%nat with 1%nat by lia.
  revert i. induction s as [|x s IH]; intros [|i] H; simpl in *;
    try discriminate.
  - inversion H; reflexivity.
  - apply IH, H.
Qed.

Lemma charIs_inv (s : jsstring) (i : nat) (p : N -> bool) :
  charIs s i p = true -> exists c, nth_error s i = Some c /\ p c = true.
Proof.
  unfold charIs. destruct (nth_error s i) as [c|]; [eauto | discriminate].
Qed.

Ltac steps_inv :=
  repeat match goal with
  | H : exists _, _ |- _ => destruct H as [? H]
  | H : _ /\ _ |- _ => destruct H as [? ?]
  | H : ?b = _ |- _ => is_var b; subst b
  end.

Lemma prioNumRe_shape :
  prioNumRe
  = Seq (Seq (Chr (ch "!")) Eps)
        (Seq (Grp 1 (Cls false [CRange (ch "1") (ch "5")])) (Seq WordB Eps)).
Proof. reflexivity. Qed.

(** A match of the numeric form captures one digit from 1 to 5. *)
Lemma prioNum_digit (s : jsstring) (mt : matched) :
  jsmatch prioNumRe s = Some mt -> 1 <= parseInt (g1 mt) <= 5.
Proof.
  intros H. apply jsmatch_steps in H. destruct H as [st [H [H1 _]]].
  rewrite prioNumRe_shape in H. cbn [steps] in H. steps_inv.
  match goal with
  | H : charIs s _ (inClass _ _) = true |- _ =>
      apply charIs_inv in H; destruct H as [c [Hc Hin]]
  end.
  unfold g1. rewrite H1. unfold group. cbn [caps pos advance find fst snd
                                            Nat.eqb].
  cbn [pos advance] in Hc.
  rewrite (slice_one _ _ Hc).
  unfold inClass, existsb, inItem, between in Hin.
  unfold parseInt. cbn [fold_left].
  assert (Hr : (ch "1" <= c <= ch "5")%N).
  { rewrite orb_false_r in Hin. apply andb_prop in Hin.
    destruct Hin as [Ha Hb]. apply N.leb_le in Ha, Hb. auto. }
  change (ch "1") with 49%N in Hr. change (ch "5") with 53%N in Hr. lia.
Qed.

Lemma lookup_In {T : Type} (tbl : list (string * T)) (key : jsstring)
  (v : T) :
  lookup tbl key = Some v -> In v (map snd tbl).
Proof.
  unfold lookup. destruct (find _ tbl) as [kv|] eqn:E; [|discriminate].
  intros H. inversion H; subst. apply find_some in E.
  apply in_map, E.
Qed.

Lemma stagePriority_range (st : state) (v : Z) :
  priority (patch (stagePriority st)) = Some v ->
  priority (patch st) = Some v \/ 1 <= v <= 5.
Proof.
  unfold stagePriority.
  destruct (jsmatch prioNumRe (remaining st)) as [mt|] eqn:En.
  - cbn [erase with_remaining with_patch patch set_priority priority].
    intros H. inversion H; subst. right. apply (prioNum_digit _ En).
  - destruct (jsmatch prioWordRe (remaining st)) as [mt|] eqn:Ew; auto.
    cbn [erase with_remaining with_patch patch set_priority priority].
    intros H. apply lookup_In in H. simpl in H. right. intuition lia.
Qed.

Lemma parse_priority
  (text : jsstring) (now : Date) (p : ParsedTaskPatch) (v : Z) :
  parseQuickAddRu text now = Ok (Some p) ->
  priority p = Some v ->
  1 <= v <= 5.
Proof.
  intros Hp Hv. apply parse_extracted in Hp. destruct Hp as [Hprio _].
  rewrite Hprio in Hv. apply stagePriority_range in Hv.
  destruct Hv as [Hv | Hv]; [discriminate Hv | exact Hv].
Qed.

(** X9.  A priority in a returned patch is a number from 1 to 5: the
    digit of the numeric form, or 4 or 5 from the keyword table. *)
Theorem priority_is_between_1_and_5
  (text : jsstring) (now : Date) (p : ParsedTaskPatch) (v : Z) :
  parseQuickAddRu text now = Ok (Some p) ->
  priority p = Some v ->
  1 <= v <= 5.
Proof. exact (@parse_priority text now p v). Qed.

Lemma priority_is_between_1_and_5_witness :
  1 <= 3 <= 5.
Proof.
  apply (@priority_is_between_1_and_5 (js "call !3") NOW
           (Patch None (Some 3) None None None None (Some (js "Call")))).
  - vm_compute. reflexivity.
  - reflexivity.
Defined.

(** *** Runs of one character class *)

Lemma times_cls (s : jsstring) (invert : bool) (items : list clsitem)
  (n : nat) :
  forall a b,
    times n (steps s (Cls invert items)) a b ->
    caps b = caps a /\ pos b = (pos a + n)%nat
    /\ forall j, (pos a <= j < pos b)%nat ->
                 charIs s j (inClass invert items) = true.
Proof.
  induction n as [|n IH]; intros a b H; cbn [times] in H.
  - subst. repeat split; auto. intros j Hj. lia.
  - destruct H as [c [[Hc ->] H]]. apply IH in H.
    destruct H as [Hcaps [Hpos Hall]]. cbn [advance caps pos] in *.
    repeat split; auto; [lia|].
    intros j Hj. destruct (Nat.eq_dec j (pos a)) as [->|]; auto.
    apply Hall. lia.
Qed.

Lemma times_caps (R : mstate -> mstate -> Prop) (n : nat) :
  (forall a b, R a b -> caps b = caps a) ->
  forall a b, times n R a b -> caps b = caps a.
Proof.
  intros HR. induction n as [|n IH]; intros a b H; cbn [times] in H.
  - subst; reflexivity.
  - destruct H as [c [Hc H]]. rewrite (IH _ _ H). auto.
Qed.

Lemma slice_Forall (s : jsstring) (p : N -> bool) (a b : nat) :
  (forall j, (a <= j < b)%nat -> charIs s j p = true) ->
  Forall (fun c => p c = true) (slice s a b).
Proof.
  unfold slice. intros H.
  assert (Hs : forall j, (j < b - a)%nat -> charIs (skipn a s) j p = true).
  { intros j Hj. unfold charIs. rewrite nth_error_skipn.
    apply (H (a + j)%nat). lia. }
  clear H. revert Hs. generalize (skipn a s) as l. generalize (b - a)%nat as n.
  induction n as [|n IH]; intros l Hs; simpl; [constructor|].
  destruct l as [|x l].
  - specialize (Hs O ltac:(lia)). discriminate.
  - constructor.
    + apply (Hs O). lia.
    + apply IH. intros j Hj. apply (Hs (S j)). lia.
Qed.

Lemma parseInt_fold (s : jsstring) (acc : Z) :
  Forall (fun c => isDigit c = true) s ->
  0 <= acc ->
  acc * 10 ^ Z.of_nat (List.length s)
  <= fold_left (fun acc c => 10 * acc + (Z.of_N c - 48)) s acc
  < (acc + 1) * 10 ^ Z.of_nat (List.length s).
Proof.
  intros Hd. revert acc. induction Hd as [|c s Hc _ IH]; intros acc Hacc.
  - simpl. lia.
  - cbn [fold_left List.length]. rewrite Nat2Z.inj_succ, Z.pow_succ_r by lia.
    unfold isDigit, between in Hc. apply andb_prop in Hc.
    destruct Hc as [Ha Hb]. apply N.leb_le in Ha, Hb.
    specialize (IH (10 * acc + (Z.of_N c - 48)) ltac:(lia)).
    assert (0 < 10 ^ Z.of_nat (List.length s)) by (apply Z.pow_pos_nonneg; lia).
    nia.
Qed.

(** [parseInt] of [n] digits is a number from 0 to [10^n - 1]. *)
Lemma parseInt_digits (s : jsstring) :
  Forall (fun c => isDigit c = true) s ->
  0 <= parseInt s < 10 ^ Z.of_nat (List.length s).
Proof.
  intros H. pose proof (@parseInt_fold s 0 H ltac:(lia)) as Hf.
  unfold parseInt. lia.
Qed.

Lemma inClass_digit (c : N) :
  inClass false [CDigit] c = isDigit c.
Proof. unfold inClass, existsb, inItem. apply orb_false_r. Qed.

Lemma slice_length (s : jsstring) (a b : nat) :
  (List.length (slice s a b) <= b - a)%nat.
Proof. unfold slice. rewrite length_firstn. lia. Qed.

(** *** What the capture groups hold *)

Section Captures.

Variable s : jsstring.
Variable P : N -> Prop.
Variable q : bool -> list clsitem -> bool.

Hypothesis q_sound :
  forall invert items c,
    q invert items = true -> inClass invert items c = true -> P c.

Lemma classRun_sound (r : regex) (a b : mstate) :
  classRun q r = true -> steps s r a b ->
  caps b = caps a /\ Forall P (slice s (pos a) (pos b)).
Proof.
  destruct r as [| | | | |mn mx [| |invert items| | | | | |]| | |];
    try discriminate.
  cbn [classRun steps]. intros Hq [n [H _]]. apply times_cls in H.
  destruct H as [Hcaps [_ Hall]]. split; [exact Hcaps|].
  apply Forall_impl with (P := fun c => inClass invert items c = true).
  - intros c. apply q_sound, Hq.
  - apply slice_Forall, Hall.
Qed.

Lemma steps_capsAll (r : regex) :
  groupsOk (classRun q) r = true ->
  forall a b, steps s r a b -> capsAll s P a -> capsAll s P b.
Proof.
  induction r as [|c|invert items|r1 IH1 r2 IH2|r1 IH1 r2 IH2|mn mx r1 IH1
                  |i r1 IH1| |r1 IH1]; cbn [groupsOk steps]; intros Hok a b H Ha.
  - subst; exact Ha.
  - destruct H as [_ ->]. exact Ha.
  - destruct H as [_ ->]. exact Ha.
  - apply andb_prop in Hok. destruct Hok as [H1 H2].
    destruct H as [c [Hc H]]. eauto.
  - apply andb_prop in Hok. destruct Hok as [H1 H2].
    destruct H as [H | H]; eauto.
  - destruct H as [n [H _]]. revert a Ha H.
    induction n as [|n IHn]; intros a Ha H; cbn [times] in H.
    + subst; exact Ha.
    + destruct H as [c [Hc H]]. eauto.
  - destruct H as [c [Hc ->]].
    destruct (@classRun_sound r1 a c Hok Hc) as [Hcaps Hall].
    intros j x y [Hin | Hin]; cbn [caps] in *.
    + inversion Hin; subst. exact Hall.
    + rewrite Hcaps in Hin. eapply Ha, Hin.
  - destruct H as [_ ->]. exact Ha.
  - subst; exact Ha.
Qed.

Lemma group_capsAll (st : mstate) (i : nat) (g : jsstring) :
  capsAll s P st -> group s st i = Some g -> Forall P g.
Proof.
  unfold group. intros Hst.
  destruct (find _ (caps st)) as [[j [x y]]|] eqn:E; [|discriminate].
  intros H. inversion H; subst. apply find_some in E.
  destruct E as [Hin _]. eapply Hst, Hin.
Qed.

(** The groups of a match of a pattern whose groups are runs of the
    class. *)
Lemma search_groups (re : regex) (i : nat) (res : nat * mstate) :
  groupsOk (classRun q) re = true ->
  search s re i = Some res ->
  Forall P (g1 (result_of s res)) /\ Forall P (g2 (result_of s res)).
Proof.
  intros Hok H. apply search_steps in H.
  assert (Hst : capsAll s P (snd res)).
  { eapply steps_capsAll; eauto. intros j x y []. }
  unfold g1, g2, result_of. cbn [m_1 m_2]. split.
  - destruct (group s (snd res) 1) eqn:E;
      [eapply group_capsAll; eauto | constructor].
  - destruct (group s (snd res) 2) eqn:E;
      [eapply group_capsAll; eauto | constructor].
Qed.

Lemma jsmatch_groups (re : regex) (mt : matched) :
  groupsOk (classRun q) re = true ->
  jsmatch re s = Some mt ->
  Forall P (g1 mt) /\ Forall P (g2 mt).
Proof.
  unfold jsmatch. intros Hok H.
  destruct (search s re 0) as [res|] eqn:E; [|discriminate].
  inversion H; subst. eapply search_groups; eauto.
Qed.

Lemma matchesFrom_groups (re : regex) (n i : nat) :
  groupsOk (classRun q) re = true ->
  Forall (fun mt => Forall P (g1 mt)) (matchesFrom re s n i).
Proof.
  intros Hok. revert i. induction n as [|n IH]; intros i; cbn [matchesFrom].
  - constructor.
  - destruct (search s re i) as [res|] eqn:E; [|constructor].
    constructor; [|apply IH].
    eapply search_groups; eauto.
Qed.

End Captures.

Lemma digitClass_sound (invert : bool) (items : list clsitem) (c : N) :
  digitClass invert items = true -> inClass invert items c = true ->
  isDigit c = true.
Proof.
  unfold digitClass, inClass. destruct invert; [discriminate|]. simpl.
  induction items as [|it items IH]; simpl; [discriminate|].
  destruct it; try discriminate. simpl. intros Hall H.
  apply orb_prop in H. destruct H; auto.
Qed.

(** The numbers the patterns capture are strings of digits. *)
Lemma jsmatch_digits (re : regex) (s : jsstring) (mt : matched) :
  groupsOk (classRun digitClass) re = true ->
  jsmatch re s = Some mt ->
  0 <= parseInt (g1 mt) /\ 0 <= parseInt (g2 mt).
Proof.
  intros Hok H.
  destruct (@jsmatch_groups s (fun c => isDigit c = true) digitClass
              digitClass_sound re mt Hok H) as [H1 H2].
  apply parseInt_digits in H1, H2. lia.
Qed.

(** *** The interval *)

Lemma intervalOk_interval (n : Z) (p : ParsedTaskPatch) :
  0 <= n -> intervalOk (interval (3600 * n) p).
Proof. intros Hn a H. inversion H. eauto. Qed.

Lemma intervalOk_weekly (p : ParsedTaskPatch) :
  intervalOk p -> intervalOk (weeklyIfUnset p).
Proof.
  unfold weeklyIfUnset. destruct (noRecurrence p); auto.
  intros _. apply (@intervalOk_interval 168). lia.
Qed.

Lemma intervalOk_monthly (p : ParsedTaskPatch) :
  intervalOk p -> intervalOk (monthlyIfUnset p).
Proof. unfold monthlyIfUnset. destruct (noRecurrence p); auto. Qed.

Lemma intervalOk_same (p q : ParsedTaskPatch) :
  repeat_after q = repeat_after p -> intervalOk p -> intervalOk q.
Proof. unfold intervalOk. intros ->. auto. Qed.

Lemma everyNHoursRe_digits :
  groupsOk (classRun digitClass) everyNHoursRe = true.
Proof. reflexivity. Qed.

Lemma stageRecurrence_interval (st : state) :
  intervalOk (patch st) -> intervalOk (patch (stageRecurrence st)).
Proof.
  intros Hst. unfold stageRecurrence.
  destruct (test everyDayRe (remaining st));
    [apply (@intervalOk_interval 24); lia|].
  destruct (test everyWeekRe (remaining st));
    [apply (@intervalOk_interval 168); lia|].
  destruct (test everyMonthRe (remaining st)); [exact Hst|].
  destruct (test everyHourRe (remaining st));
    [apply (@intervalOk_interval 1); lia|].
  destruct (jsmatch everyNHoursRe (remaining st)) as [mt|] eqn:E;
    [|exact Hst].
  apply intervalOk_interval.
  apply (jsmatch_digits _ _ everyNHoursRe_digits E).
Qed.

Lemma keepsInterval_pure (f : state -> state) :
  (forall st, intervalOk (patch st) -> intervalOk (patch (f st))) ->
  keepsInterval (pure f).
Proof. intros Hf st st' H. inversion H; subst. apply Hf. Qed.

Ltac interval_stage :=
  intros st st' H Hok;
  pose proof (intervalOk_weekly Hok);
  pose proof (intervalOk_monthly Hok);
  invert_stage; auto.

Lemma stages_keepInterval (text : jsstring) (now : Date) :
  Forall keepsInterval (stages text now).
Proof.
  unfold stages.
  repeat apply Forall_cons; try apply Forall_nil.
  - apply keepsInterval_pure; intros st. apply intervalOk_same.
    apply stagePriority_patch.
  - apply keepsInterval_pure; intros st. apply intervalOk_same.
    apply stageProject_patch.
  - apply keepsInterval_pure; intros st. apply intervalOk_same.
    apply stageLabels_patch.
  - apply keepsInterval_pure; intros st.
    rewrite stageExplicitTime_patch; auto.
  - apply keepsInterval_pure; intros st.
    rewrite stageTimeMarker_patch; auto.
  - apply keepsInterval_pure, stageRecurrence_interval.
  - unfold stageSecondDayOfWeek. interval_stage.
  - unfold stageEveryWeekday. interval_stage.
  - unfold stageEveryDayOfMonth. interval_stage.
  - unfold stageDateExpressions. interval_stage.
  - unfold stageTimeOnly. interval_stage.
  - unfold stageHourlyRepeat. interval_stage.
  - unfold stageMonthlyRepeat. interval_stage.
  - apply keepsInterval_pure; intros st. apply intervalOk_same.
    apply stageTitle_patch.
Qed.

Lemma run_keepsInterval (fs : list (state -> outcome state)) :
  Forall keepsInterval fs ->
  forall st st', run fs st = Ok st' ->
    intervalOk (patch st) -> intervalOk (patch st').
Proof.
  induction 1 as [|f fs Hf _ IH]; simpl; intros st st' Hrun Hok.
  - inversion Hrun; subst; exact Hok.
  - apply bind_inv in Hrun. destruct Hrun as [st1 [H1 H2]].
    eapply IH; eauto.
Qed.

Lemma parse_interval
  (text : jsstring) (now : Date) (p : ParsedTaskPatch) (a : Z) :
  parseQuickAddRu text now = Ok (Some p) ->
  repeat_after p = Some a ->
  exists n, 0 <= n /\ a = 3600 * n.
Proof.
  intros Hp Ha. apply parse_patch in Hp. destruct Hp as [st [Hrun [<- _]]].
  apply (run_keepsInterval (stages_keepInterval text now) _ Hrun);
    [|exact Ha].
  intros a' H. discriminate H.
Qed.

(** X10.  An interval in a returned patch that is below 2^53 seconds
    is a whole, non-negative number of hours: a day, a week, an hour, or
    the number of hours written in the text, which the pattern lets be
    any string of digits, zero included.  (Below 2^53 the product that
    JavaScript computes is the exact one; from there on it is rounded,
    and nothing is stated.) *)
Theorem repeat_after_is_whole_hours
  (text : jsstring) (now : Date) (p : ParsedTaskPatch) (a : Z) :
  parseQuickAddRu text now = Ok (Some p) ->
  repeat_after p = Some a ->
  a < 2 ^ 53 ->
  exists n, 0 <= n /\ n < 2 ^ 53 /\ a = 3600 * n.
Proof.
  intros Hp Ha Hsafe. destruct (@parse_interval text now p a Hp Ha)
    as [n [Hn ->]].
  exists n. lia.
Qed.

Lemma repeat_after_is_whole_hours_witness :
  exists n, 0 <= n /\ n < 2 ^ 53 /\ 7200 = 3600 * n.
Proof.
  apply (@repeat_after_is_whole_hours (js "logs_каждые 2 часов_") NOW
           (Patch (Some (js "2024-01-10T12:00:00.000Z")) None None None
                  (Some 7200) (Some 0) (Some (js "Logs_ _")))).
  - vm_compute. reflexivity.
  - reflexivity.
  - reflexivity.
Defined.

(** *** Trimming *)

Lemma trimStart_head (s : jsstring) (c : N) (r : jsstring) :
  trimStart s = c :: r -> isSpace c = false.
Proof.
  induction s as [|x s IH]; simpl; [discriminate|].
  destruct (isSpace x) eqn:E; auto.
  intros H. inversion H; subst. exact E.
Qed.

Lemma trimStart_suffix (s : jsstring) :
  exists k, trimStart s = skipn k s.
Proof.
  induction s as [|x s [k IH]]; simpl.
  - exists O. reflexivity.
  - destruct (isSpace x).
    + exists (S k). exact IH.
    + exists O. reflexivity.
Qed.

Lemma trimEnd_prefix (s : jsstring) :
  exists k, trimEnd s = firstn k s.
Proof.
  unfold trimEnd. destruct (trimStart_suffix (rev s)) as [k ->].
  rewrite skipn_rev, rev_involutive. eauto.
Qed.

Lemma rev_last (s : jsstring) (d : N) :
  s <> [] -> rev s = last s d :: rev (removelast s).
Proof.
  intros H. rewrite (app_removelast_last d H) at 1.
  rewrite rev_app_distr. reflexivity.
Qed.

Lemma trimEnd_last (s : jsstring) (d : N) :
  trimEnd s <> [] -> isSpace (last (trimEnd s) d) = false.
Proof.
  intros H. unfold trimEnd in *.
  destruct (trimStart (rev s)) as [|c r] eqn:E; [contradiction H; reflexivity|].
  apply trimStart_head in E. cbn [rev]. rewrite last_last. exact E.
Qed.

Lemma trim_trimmed (s : jsstring) : trimmed (trim s) = true.
Proof.
  unfold trim, trimmed.
  destruct (trimEnd (trimStart s)) as [|c r] eqn:E; [reflexivity|].
  assert (Hne : trimEnd (trimStart s) <> []) by (rewrite E; discriminate).
  pose proof (trimEnd_last (trimStart s) c Hne) as Hl. rewrite E in Hl.
  rewrite Hl. destruct (trimEnd_prefix (trimStart s)) as [k Hk].
  rewrite Hk in E. destruct (trimStart s) as [|x u] eqn:Eu.
  - rewrite firstn_nil in E. discriminate.
  - apply trimStart_head in Eu. destruct k; [discriminate|].
    inversion E; subst. rewrite Eu. reflexivity.
Qed.

Lemma trimmed_trim (s : jsstring) : trimmed s = true -> trim s = s.
Proof.
  unfold trimmed, trim. destruct s as [|c r]; [reflexivity|].
  intros H. apply andb_prop in H. destruct H as [Hc Hl].
  apply negb_true_iff in Hc, Hl.
  cbn [trimStart]. rewrite Hc. unfold trimEnd.
  rewrite (@rev_last (c :: r) c) by discriminate.
  cbn [trimStart]. rewrite Hl.
  rewrite <- (@rev_last (c :: r) c) by discriminate.
  apply rev_involutive.
Qed.

Lemma firstn_Forall (P : N -> Prop) (k : nat) (s : jsstring) :
  Forall P s -> Forall P (firstn k s).
Proof.
  intros H. revert k. induction H as [|x s Hx _ IH]; intros [|k]; simpl;
    constructor; auto.
Qed.

Lemma skipn_Forall (P : N -> Prop) (k : nat) (s : jsstring) :
  Forall P s -> Forall P (skipn k s).
Proof.
  intros H. revert k. induction H as [|x s Hx Hs IH]; intros [|k]; simpl;
    auto.
Qed.

Lemma trim_Forall (P : N -> Prop) (s : jsstring) :
  Forall P s -> Forall P (trim s).
Proof.
  intros H. unfold trim.
  destruct (trimEnd_prefix (trimStart s)) as [k ->].
  destruct (trimStart_suffix s) as [j ->].
  apply firstn_Forall, skipn_Forall, H.
Qed.

(** *** Project and labels *)

Lemma quoteFreeClass_sound (invert : bool) (items : list clsitem) (c : N) :
  quoteFreeClass invert items = true -> inClass invert items c = true ->
  c <> dquote.
Proof.
  unfold quoteFreeClass, inClass. destruct invert; [|discriminate]. simpl.
  intros Hex Hc ->. apply negb_true_iff in Hc.
  apply existsb_exists in Hex. destruct Hex as [it [Hin Hit]].
  destruct it as [x| | |]; try discriminate.
  apply N.eqb_eq in Hit. subst x.
  assert (existsb (inItem dquote) items = true); [|congruence].
  apply existsb_exists. exists (CChar dquote). split; [exact Hin|].
  apply N.eqb_refl.
Qed.

Lemma quoteFree_In (s : jsstring) :
  Forall (fun c => c <> dquote) s -> ~ In dquote s.
Proof.
  intros H Hin. rewrite Forall_forall in H. exact (H _ Hin eq_refl).
Qed.

Lemma name_ok (re : regex) (s : jsstring) (mt : matched) :
  groupsOk (classRun quoteFreeClass) re = true ->
  jsmatch re s = Some mt ->
  trim (trim (g1 mt)) = trim (g1 mt) /\ ~ In dquote (trim (g1 mt)).
Proof.
  intros Hok H. split; [apply trimmed_trim, trim_trimmed|].
  apply quoteFree_In, trim_Forall.
  apply (@jsmatch_groups s (fun c => c <> dquote) quoteFreeClass
           quoteFreeClass_sound re mt Hok H).
Qed.

Lemma names_ok (re : regex) (s : jsstring) :
  groupsOk (classRun quoteFreeClass) re = true ->
  Forall (fun n => trim n = n /\ ~ In dquote n)
         (map (fun mt => trim (g1 mt)) (execAll re s)).
Proof.
  intros Hok. unfold execAll. apply Forall_map.
  eapply Forall_impl;
    [|apply (@matchesFrom_groups s (fun c => c <> dquote) quoteFreeClass
               quoteFreeClass_sound re (S (List.length s)) 0 Hok)].
  intros mt H. split; [apply trimmed_trim, trim_trimmed|].
  apply quoteFree_In, trim_Forall, H.
Qed.

Lemma stageProject_name (st : state) (n : jsstring) :
  project_name (patch (stageProject st)) = Some n ->
  project_name (patch st) = Some n \/ (trim n = n /\ ~ In dquote n).
Proof.
  unfold stageProject.
  destruct (jsmatch projectQuotedRe (remaining st)) as [mt|] eqn:Eq.
  - cbn [erase with_remaining with_patch patch set_project_name project_name].
    intros H. inversion H; subst. right.
    apply (@name_ok projectQuotedRe (remaining st) mt); auto.
  - destruct (jsmatch projectSimpleRe (remaining st)) as [mt|] eqn:Es; auto.
    cbn [erase with_remaining with_patch patch set_project_name project_name].
    intros H. inversion H; subst. right.
    apply (@name_ok projectSimpleRe (remaining st) mt); auto.
Qed.

Lemma stageLabels_names (st : state) (l : list jsstring) :
  labels (patch (stageLabels st)) = Some l ->
  labels (patch st) = Some l
  \/ (l <> [] /\ Forall (fun n => trim n = n /\ ~ In dquote n) l).
Proof.
  unfold stageLabels.
  destruct (0 <? List.length _)%nat eqn:El; auto.
  cbn [with_remaining with_patch patch set_labels labels].
  intros H. inversion H; subst. right. split.
  - intros Hnil. rewrite Hnil in El. discriminate.
  - apply Forall_app. split; apply names_ok; reflexivity.
Qed.

Lemma stagePriority_project (st : state) :
  project_name (patch (stagePriority st)) = project_name (patch st).
Proof. unfold stagePriority; break_stage; reflexivity. Qed.

Lemma stagePriority_labels (st : state) :
  labels (patch (stagePriority st)) = labels (patch st).
Proof. unfold stagePriority; break_stage; reflexivity. Qed.

Lemma stageProject_labels (st : state) :
  labels (patch (stageProject st)) = labels (patch st).
Proof. unfold stageProject; break_stage; reflexivity. Qed.

(** X11.  A project name in a returned patch is trimmed and holds no
    double quote; the labels, when present, are a non-empty list of such
    names. *)
Theorem project_and_labels_are_trimmed
  (text : jsstring) (now : Date) (p : ParsedTaskPatch) :
  parseQuickAddRu text now = Ok (Some p) ->
  (forall n, project_name p = Some n -> trim n = n /\ ~ In dquote n)
  /\ (forall l, labels p = Some l ->
        l <> [] /\ Forall (fun n => trim n = n /\ ~ In dquote n) l).
Proof.
  intros Hp. apply parse_extracted in Hp. destruct Hp as [_ [Hproj Hlab]].
  split.
  - intros n Hn. rewrite Hproj in Hn. apply stageProject_name in Hn.
    destruct Hn as [Hn | Hn]; [|exact Hn].
    rewrite stagePriority_project in Hn. discriminate Hn.
  - intros l Hl. rewrite Hlab in Hl. apply stageLabels_names in Hl.
    destruct Hl as [Hl | Hl]; [|exact Hl].
    rewrite stageProject_labels, stagePriority_labels in Hl. discriminate Hl.
Qed.

Lemma project_and_labels_are_trimmed_witness :
  trim (js "Big Plan") = js "Big Plan" /\ ~ In dquote (js "Big Plan").
Proof.
  refine (proj1 (@project_and_labels_are_trimmed
                   (js "call +" ++ [dquote] ++ js " Big Plan " ++ [dquote]
                       ++ js " *home")
                   NOW
                   (Patch None None (Some (js "Big Plan"))
                          (Some [js "home"]) None None (Some (js "Call")))
                   _) (js "Big Plan") _).
  - vm_compute. reflexivity.
  - reflexivity.
Defined.

(** *** The result gate, field by field *)







(** *** Runs of white space *)

Lemma m_Rep (s : jsstring) (mn : nat) (mx : option nat) (r : regex)
  (k : mstate -> option mstate) (st : mstate) :
  m s (Rep mn mx r) k st = repLoop s r k (mn + List.length s) mn mx st.
Proof. reflexivity. Qed.

Lemma charIs_skipn (s : jsstring) (j : nat) (p : N -> bool) :
  charIs s j p = match skipn j s with c :: _ => p c | [] => false end.
Proof.
  unfold charIs. revert j. induction s as [|x s IH]; intros [|j]; simpl; auto.
Qed.

Lemma skipn_S (s : jsstring) (j : nat) :
  skipn (S j) s = tl (skipn j s).
Proof.
  revert j. induction s as [|x s IH]; intros [|j]; try reflexivity.
  cbn [skipn]. rewrite <- IH. reflexivity.
Qed.

Lemma repLoop_space (s : jsstring) (fuel : nat) :
  forall mn st,
    (mn + (List.length s - pos st) <= fuel)%nat ->
    repLoop s space (fun st => Some st) fuel mn None st
    = if (mn <=? spaceRun (skipn (pos st) s))%nat
      then Some (MState (pos st + spaceRun (skipn (pos st) s)) (caps st))
      else None.
Proof.
  induction fuel as [|fuel IH]; intros mn st Hf.
  - cbn [repLoop]. assert (mn = O) by lia. subst mn.
    rewrite skipn_all2 by lia. cbn [spaceRun Nat.leb].
    destruct st as [p c]. cbn [pos caps]. rewrite Nat.add_0_r. reflexivity.
  - cbn [repLoop]. unfold space at 1. cbn [m]. rewrite charIs_skipn.
    destruct (skipn (pos st) s) as [|c l] eqn:E.
    + cbn [spaceRun]. destruct mn; [|reflexivity].
      destruct st as [p cs]. cbn [pos caps Nat.eqb Nat.leb].
      rewrite Nat.add_0_r. reflexivity.
    + assert (Hlen : (pos st < List.length s)%nat).
      { destruct (Nat.lt_ge_cases (pos st) (List.length s)) as [|Hge]; auto.
        rewrite skipn_all2 in E by lia. discriminate. }
      cbn [spaceRun]. unfold inClass, existsb, inItem.
      rewrite orb_false_r. destruct (isSpace c) eqn:Ec.
      * cbn [advance pos].
        replace (S (pos st) =? pos st)%nat with false
          by (symmetry; apply Nat.eqb_neq; lia).
        rewrite andb_false_r.
        rewrite IH by (cbn [advance pos]; lia).
        cbn [advance pos caps]. rewrite skipn_S, E. cbn [tl].
        destruct mn as [|mn]; cbn [Nat.pred Nat.leb].
        -- f_equal. f_equal. lia.
        -- destruct (mn <=? spaceRun l)%nat; [f_equal; f_equal; lia|].
           reflexivity.
      * destruct mn; [|reflexivity].
        destruct st as [p cs]. cbn [pos caps Nat.eqb Nat.leb].
        rewrite Nat.add_0_r. reflexivity.
Qed.

(** The white-space pattern matches at an index exactly when two or more
    white-space characters start there, and takes them all. *)
Lemma matchAt_spaces (s : jsstring) (j : nat) :
  matchAt s spacesRe j
  = if (2 <=? spaceRun (skipn j s))%nat
    then Some (j, MState (j + spaceRun (skipn j s)) [])
    else None.
Proof.
  unfold matchAt, spacesRe. rewrite m_Rep, repLoop_space
    by (cbn [pos]; lia).
  cbn [pos caps]. destruct (2 <=? _)%nat; reflexivity.
Qed.

Lemma searchFrom_first (s : jsstring) (r : regex) (n : nat) :
  forall i,
    match searchFrom s r n i with
    | Some res =>
      exists j, (i <= j <= i + n)%nat /\ matchAt s r j = Some res
                /\ forall j', (i <= j' < j)%nat -> matchAt s r j' = None
    | None => forall j, (i <= j <= i + n)%nat -> matchAt s r j = None
    end.
Proof.
  induction n as [|n IH]; intros i; cbn [searchFrom];
    destruct (matchAt s r i) as [res|] eqn:E.
  - exists i. split; [lia|]. split; [exact E|]. intros j' Hj. lia.
  - intros j Hj. replace j with i by lia. exact E.
  - exists i. split; [lia|]. split; [exact E|]. intros j' Hj. lia.
  - specialize (IH (S i)). destruct (searchFrom s r n (S i)) as [res|].
    + destruct IH as [j [Hj [Hm Hbefore]]]. exists j.
      split; [lia|]. split; [exact Hm|].
      intros j' Hj'. destruct (Nat.eq_dec j' i) as [->|]; auto.
      apply Hbefore. lia.
    + intros j Hj. destruct (Nat.eq_dec j i) as [->|]; auto.
      apply IH. lia.
Qed.

Lemma noSpaceRun_short (l : jsstring) :
  (forall k, (spaceRun (skipn k l) < 2)%nat) -> noSpaceRun l = true.
Proof.
  induction l as [|a l IH]; intros H; [reflexivity|].
  cbn [noSpaceRun]. destruct l as [|b l']; [reflexivity|].
  rewrite IH by (intros k; apply (H (S k))). rewrite andb_true_r.
  specialize (H O). cbn [skipn spaceRun] in H.
  destruct (isSpace a), (isSpace b); simpl; auto; lia.
Qed.

Lemma noSpaceRun_cons (c : N) (l : jsstring) :
  noSpaceRun l = true ->
  (isSpace c = false \/ headNonSpace l = true) ->
  noSpaceRun (c :: l) = true.
Proof.
  intros Hl Hc. cbn [noSpaceRun]. destruct l as [|b l']; [reflexivity|].
  rewrite Hl, andb_true_r. cbn [headNonSpace] in Hc.
  destruct Hc as [-> | Hc]; [reflexivity|].
  apply negb_true_iff in Hc. rewrite Hc, andb_false_r. reflexivity.
Qed.

Lemma noSpaceRun_splice (d : nat) :
  forall l X : jsstring,
    (forall k, (k < d)%nat -> (spaceRun (skipn k l) < 2)%nat) ->
    (1 <= spaceRun (skipn d l))%nat ->
    noSpaceRun X = true -> headNonSpace X = true ->
    noSpaceRun (firstn d l ++ 32%N :: X) = true.
Proof.
  induction d as [|d IH]; intros l X Hbefore Hat HX Hhead.
  - cbn [firstn app]. apply noSpaceRun_cons; auto.
  - destruct l as [|c l]; [cbn [skipn spaceRun] in Hat; lia|].
    cbn [firstn app]. apply noSpaceRun_cons.
    + apply IH; auto. intros k Hk. apply (Hbefore (S k)). lia.
    + pose proof (Hbefore O ltac:(lia)) as H0. cbn [skipn spaceRun] in H0.
      destruct (isSpace c) eqn:Ec; auto. right.
      cbn [skipn] in Hat. destruct d as [|d].
      * cbn [skipn] in Hat. lia.
      * destruct l as [|b l]; [cbn [skipn spaceRun] in Hat; lia|].
        cbn [firstn app headNonSpace]. cbn [spaceRun] in H0.
        destruct (isSpace b); [lia | reflexivity].
Qed.

Lemma spaceRun_end (l : jsstring) :
  spaceRun (skipn (spaceRun l) l) = O.
Proof.
  induction l as [|c l IH]; [reflexivity|]. cbn [spaceRun].
  destruct (isSpace c) eqn:Ec; [exact IH|].
  cbn [skipn spaceRun]. rewrite Ec. reflexivity.
Qed.

Lemma spaceRun_length (l : jsstring) :
  (spaceRun l <= List.length l)%nat.
Proof.
  induction l as [|c l IH]; cbn [spaceRun List.length]; [lia|].
  destruct (isSpace c); lia.
Qed.

Lemma headNonSpace_spaceRun (l : jsstring) :
  spaceRun l = O -> headNonSpace l = true.
Proof.
  destruct l as [|c l]; [reflexivity|]. cbn [spaceRun headNonSpace].
  destruct (isSpace c); [discriminate | reflexivity].
Qed.

Lemma no_spaces_at (s : jsstring) (j : nat) :
  matchAt s spacesRe j = None -> (spaceRun (skipn j s) < 2)%nat.
Proof.
  rewrite matchAt_spaces.
  destruct (Nat.leb_spec 2 (spaceRun (skipn j s))); [discriminate | auto].
Qed.

(** Replacing the runs from an index on: what comes out has no run left,
    and starts with white space only if the text does at that index. *)
Lemma collapse_from (s : jsstring) (n : nat) :
  forall from,
    (List.length s - from < n)%nat ->
    noSpaceRun (spliceAll s [32%N] from (matchesFrom spacesRe s n from))
    = true
    /\ (spaceRun (skipn from s) = O ->
        headNonSpace
          (spliceAll s [32%N] from (matchesFrom spacesRe s n from)) = true).
Proof.
  induction n as [|n IH]; intros from Hn; [lia|].
  cbn [matchesFrom]. unfold search.
  destruct (Nat.leb_spec from (List.length s)) as [Hfrom | Hfrom].
  - pose proof (searchFrom_first s spacesRe (List.length s - from) from)
      as Hs.
    destruct (searchFrom s spacesRe (List.length s - from) from)
      as [res|].
    + destruct Hs as [j [Hj [Hm Hbefore]]].
      rewrite matchAt_spaces in Hm.
      destruct (Nat.leb_spec 2 (spaceRun (skipn j s))) as [Hrun|];
        [|discriminate].
      inversion Hm; subst res; clear Hm.
      unfold result_of. cbn [fst snd pos m_end m_index].
      replace (j + spaceRun (skipn j s) =? j)%nat with false
        by (symmetry; apply Nat.eqb_neq; lia).
      cbn [spliceAll m_index m_end]. change ([32%N] ++ ?x) with (32%N :: x).
      pose proof (spaceRun_length (skipn j s)) as Hle.
      rewrite length_skipn in Hle.
      destruct (IH (j + spaceRun (skipn j s))%nat ltac:(lia)) as [HX Hhead].
      assert (Hend : spaceRun (skipn (j + spaceRun (skipn j s)) s) = O).
      { rewrite Nat.add_comm, <- skipn_skipn. apply spaceRun_end. }
      specialize (Hhead Hend).
      assert (Hd : skipn (j - from) (skipn from s) = skipn j s).
      { rewrite skipn_skipn. f_equal. lia. }
      split.
      * unfold slice. apply noSpaceRun_splice; auto.
        -- intros k Hk. rewrite skipn_skipn. apply no_spaces_at, Hbefore.
           lia.
        -- rewrite Hd. lia.
      * intros H0. unfold slice.
        destruct (j - from)%nat as [|d] eqn:Ed.
        -- cbn [skipn] in Hd. rewrite Hd in H0. lia.
        -- destruct (skipn from s) as [|c l].
           ++ cbn [skipn] in Hd. rewrite <- Hd in Hrun.
              cbn [spaceRun] in Hrun. lia.
           ++ cbn [firstn app headNonSpace]. cbn [spaceRun] in H0.
              destruct (isSpace c); [discriminate | reflexivity].
    + cbn [spliceAll]. split.
      * apply noSpaceRun_short. intros k. rewrite skipn_skipn.
        destruct (Nat.le_gt_cases (k + from) (List.length s)).
        -- apply no_spaces_at, Hs. lia.
        -- rewrite skipn_all2 by lia. cbn [spaceRun]. lia.
      * apply headNonSpace_spaceRun.
  - cbn [spliceAll]. rewrite skipn_all2 by lia. split; reflexivity.
Qed.

(** Collapsing leaves no run of white space. *)
Lemma replaceAll_noSpaceRun (s : jsstring) :
  noSpaceRun (replaceAll spacesRe (js " ") s) = true.
Proof.
  unfold replaceAll, execAll. change (js " ") with [32%N].
  apply collapse_from. lia.
Qed.

Lemma noSpaceRun_tl (c : N) (l : jsstring) :
  noSpaceRun (c :: l) = true -> noSpaceRun l = true.
Proof.
  cbn [noSpaceRun]. destruct l as [|b l]; [reflexivity|].
  intros H. apply andb_prop in H. apply H.
Qed.

Lemma noSpaceRun_skipn (k : nat) (l : jsstring) :
  noSpaceRun l = true -> noSpaceRun (skipn k l) = true.
Proof.
  revert l. induction k as [|k IH]; intros [|c l] H; auto.
  cbn [skipn]. apply IH. eapply noSpaceRun_tl, H.
Qed.

Lemma noSpaceRun_firstn (k : nat) (l : jsstring) :
  noSpaceRun l = true -> noSpaceRun (firstn k l) = true.
Proof.
  revert l. induction k as [|k IH]; intros [|c l] H; auto.
  cbn [firstn]. pose proof (IH l (noSpaceRun_tl c l H)) as Hk.
  apply noSpaceRun_cons; auto.
  destruct l as [|b l]; [destruct k; auto|].
  destruct k as [|k]; [auto|]. cbn [firstn headNonSpace].
  cbn [noSpaceRun] in H. apply andb_prop in H. destruct H as [H _].
  apply negb_true_iff, andb_false_iff in H.
  destruct H as [H | H]; [left; exact H | right; rewrite H; reflexivity].
Qed.

Lemma trim_noSpaceRun (s : jsstring) :
  noSpaceRun s = true -> noSpaceRun (trim s) = true.
Proof.
  intros H. unfold trim.
  destruct (trimEnd_prefix (trimStart s)) as [k ->].
  destruct (trimStart_suffix s) as [j ->].
  apply noSpaceRun_firstn, noSpaceRun_skipn, H.
Qed.

(** *** The cleaned title *)

Lemma spaceFree_sound (a b c : N) :
  spaceFree a b = true -> (a <= c <= b)%N -> isSpace c = false.
Proof.
  unfold spaceFree. cbn [forallb fst snd]. intros H Hc.
  apply not_true_is_false. intros Hs. unfold isSpace, between in Hs.
  rewrite ?orb_true_iff, ?andb_true_iff, ?N.leb_le, ?N.eqb_eq in Hs.
  rewrite ?andb_true_iff, ?orb_true_iff, ?N.ltb_lt in H.
  lia.
Qed.

(** The upper case of a character that is no white space is not empty
    and holds no white space: so it is for every entry of the tables. *)
Lemma upperUnit_spaceFree (c : N) :
  isSpace c = false ->
  exists u us,
    upperUnit c = u :: us
    /\ forallb (fun x => negb (isSpace x)) (u :: us) = true.
Proof.
  intros Hc. unfold upperUnit.
  destruct (find _ upperSpecial) as [e|] eqn:E.
  - apply find_some in E. destruct E as [Hin _].
    assert (Hall : forallb
                     (fun e => match snd e with
                               | [] => false
                               | l => forallb (fun x => negb (isSpace x)) l
                               end) upperSpecial = true)
      by (vm_compute; reflexivity).
    rewrite forallb_forall in Hall. specialize (Hall e Hin).
    destruct (snd e) as [|u us]; [discriminate|]. eauto.
  - exists (upperPoint upperRanges c), []. split; [reflexivity|].
    cbn [forallb]. rewrite andb_true_r. apply negb_true_iff.
    unfold upperPoint.
    destruct (find (inRange c) upperRanges)
      as [[[[first last] step] image]|] eqn:F; [|exact Hc].
    apply find_some in F. destruct F as [Hin Hr].
    assert (Hall : forallb
                     (fun r => let '(first, last, _, image) := r in
                               spaceFree image (image + (last - first)))
                     upperRanges = true)
      by (vm_compute; reflexivity).
    rewrite forallb_forall in Hall. specialize (Hall _ Hin).
    cbn beta iota in Hall.
    unfold inRange, between in Hr.
    apply andb_prop in Hr. destruct Hr as [Hr _].
    apply andb_prop in Hr. destruct Hr as [H1 H2].
    apply N.leb_le in H1, H2.
    apply (@spaceFree_sound _ _ _ Hall). lia.
Qed.

Lemma last_default (l : jsstring) (b d d' : N) :
  last (b :: l) d = last (b :: l) d'.
Proof.
  revert b. induction l as [|x l IH]; intros b; [reflexivity|].
  change (last (x :: l) d = last (x :: l) d'). apply IH.
Qed.

Lemma last_app_cons (a : jsstring) (b : N) (r : jsstring) (d : N) :
  last (a ++ b :: r) d = last (b :: r) d.
Proof.
  induction a as [|x a IH]; [reflexivity|].
  cbn [app]. destruct (a ++ b :: r) eqn:E.
  - destruct a; discriminate E.
  - cbn [last]. exact IH.
Qed.

Lemma last_spaceFree (u : N) (us : jsstring) (d : N) :
  forallb (fun x => negb (isSpace x)) (u :: us) = true ->
  isSpace (last (u :: us) d) = false.
Proof.
  revert u. induction us as [|x us IH]; intros u H.
  - cbn [forallb last] in *. apply andb_prop in H.
    apply negb_true_iff, H.
  - change (last (u :: x :: us) d) with (last (x :: us) d).
    apply IH. cbn [forallb] in *. apply andb_prop in H. apply H.
Qed.

Lemma noSpaceRun_app_spaceFree (a r : jsstring) :
  forallb (fun x => negb (isSpace x)) a = true ->
  noSpaceRun r = true -> noSpaceRun (a ++ r) = true.
Proof.
  induction a as [|x a IH]; cbn [app forallb]; intros Ha Hr; [exact Hr|].
  apply andb_prop in Ha. destruct Ha as [Hx Ha].
  apply noSpaceRun_cons; [apply IH; assumption|].
  left. apply negb_true_iff, Hx.
Qed.

(** Upper-casing the first character keeps a string normalised. *)
Lemma capitalise_normalised (c : N) (r : jsstring) :
  trimmed (c :: r) = true -> noSpaceRun (c :: r) = true ->
  upperUnit c ++ r <> []
  /\ trimmed (upperUnit c ++ r) = true
  /\ noSpaceRun (upperUnit c ++ r) = true.
Proof.
  intros Ht Hn. unfold trimmed in Ht. apply andb_prop in Ht.
  destruct Ht as [Hc Hl]. apply negb_true_iff in Hc.
  destruct (upperUnit_spaceFree c Hc) as [u [us [-> Hall]]].
  split; [discriminate|]. split.
  - unfold trimmed. cbn [app].
    assert (Hu : isSpace u = false).
    { cbn [forallb] in Hall. apply andb_prop in Hall.
      apply negb_true_iff, Hall. }
    rewrite Hu. cbn [negb andb]. apply negb_true_iff.
    destruct r as [|b r].
    + rewrite app_nil_r. apply last_spaceFree, Hall.
    + change (u :: us ++ b :: r) with ((u :: us) ++ b :: r).
      rewrite last_app_cons, (last_default r b u c).
      apply negb_true_iff. exact Hl.
  - apply noSpaceRun_app_spaceFree; [exact Hall|].
    apply (@noSpaceRun_tl c r Hn).
Qed.

Lemma stageTitle_normalised (text : jsstring) (st : state) (t : jsstring) :
  cleaned_title (patch (stageTitle text st)) = Some t ->
  cleaned_title (patch st) = Some t
  \/ (t <> [] /\ trim t = t /\ noSpaceRun t = true).
Proof.
  unfold stageTitle.
  destruct (titleChanged text (cleanedOf st)) eqn:Hc; auto.
  cbn [with_patch patch set_cleaned_title cleaned_title].
  intros H. inversion H; subst; clear H. right.
  unfold titleChanged in Hc. apply andb_prop in Hc. destruct Hc as [Hlen _].
  pose proof (trim_trimmed (replaceAll spacesRe (js " ") (remaining st)))
    as Ht.
  pose proof (trim_noSpaceRun _
                (replaceAll_noSpaceRun (remaining st))) as Hn.
  fold (cleanedOf st) in Ht, Hn.
  destruct (cleanedOf st) as [|c r]; [discriminate|].
  change (toUpperCase (charAt (c :: r) 0) ++ skipn 1 (c :: r))
    with (upperUnit c ++ r).
  destruct (capitalise_normalised c r Ht Hn) as [Hne [Ht' Hn']].
  split; [exact Hne|]. split; [apply trimmed_trim, Ht' | exact Hn'].
Qed.

Lemma parse_title
  (text : jsstring) (now : Date) (p : ParsedTaskPatch) (t : jsstring) :
  parseQuickAddRu text now = Ok (Some p) ->
  cleaned_title p = Some t ->
  t <> [] /\ trim t = t /\ noSpaceRun t = true.
Proof.
  intros Hp Ht. apply parse_patch in Hp. destruct Hp as [st [Hrun [<- _]]].
  rewrite stages_beforeTitle, run_app in Hrun.
  apply bind_inv in Hrun. destruct Hrun as [st0 [H0 H]].
  simpl in H. unfold pure in H. inversion H; subst; clear H.
  apply (run_keepsTitle (beforeTitle_keepsTitle now)) in H0.
  apply stageTitle_normalised in Ht. destruct Ht as [Ht | Ht]; [|exact Ht].
  rewrite H0 in Ht. discriminate Ht.
Qed.



(** The first character is upper-cased as Unicode has it, in any script,
    also where the upper case is two characters. *)
Example cleaned_title_upper_case :
  parseQuickAddRu (js "élan !1") NOW
  = Ok (Some (Patch None (Some 1) None None None None (Some (js "Élan"))))
  /\ parseQuickAddRu (js "ßa !1") NOW
     = Ok (Some (Patch None (Some 1) None None None None (Some (js "SSa"))))
  /\ parseQuickAddRu (js "яблоки !1") NOW
     = Ok (Some (Patch None (Some 1) None None None None
                       (Some (js "Яблоки"))))
  /\ toUpperCase (js "ǆ") = js "Ǆ"
  /\ toUpperCase (js "𐐨") = js "𐐀".
Proof. repeat split; vm_compute; reflexivity. Qed.

(** *** No due date before today *)

Lemma TimeClip_inv (x r : Z) : TimeClip x = Some r -> r = x.
Proof.
  unfold TimeClip. destruct (Z.abs x <=? _); [|discriminate].
  intros H. inversion H. reflexivity.
Qed.

Lemma withTime_inv (d : Date) (f : Z -> Z) (r : Z) :
  withTime d f = Some r -> exists b, d = Some b /\ r = f b.
Proof.
  unfold withTime. destruct d as [b|]; [|discriminate].
  intros H. apply TimeClip_inv in H. eauto.
Qed.

(** Whenever [atTime] returns a valid date, it is the start of the day
    plus the hours and the minutes. *)
Lemma atTime_inv (b h m r : Z) :
  atTime (Some b) h m = Some r ->
  r = Day b * msPerDay + h * msPerHour + m * msPerMinute.
Proof.
  unfold atTime, setMilliseconds, setSeconds, setMinutes, setHours,
    setMilliseconds1, setSeconds1, setMinutes1, setHours1.
  intros H.
  apply withTime_inv in H. destruct H as [t3 [H ->]].
  apply withTime_inv in H. destruct H as [t2 [H ->]].
  apply withTime_inv in H. destruct H as [t1 [H ->]].
  apply withTime_inv in H. destruct H as [t0 [H ->]].
  inversion H; subst t0; clear H.
  set (t1 := MakeDate (Day b)
               (MakeTime h (MinFromTime b) (SecFromTime b) (msFromTime b))).
  assert (E1 : t1 = Day b * msPerDay + h * msPerHour + (b mod msPerHour)).
  { unfold t1, MakeDate, MakeTime, MinFromTime, SecFromTime, msFromTime,
      msPerHour, msPerMinute, msPerSecond, msPerDay.
    Z.div_mod_to_equations. lia. }
  set (t2 := MakeDate (Day t1)
               (MakeTime (HourFromTime t1) m (SecFromTime t1) (msFromTime t1))).
  assert (E2 : t2 = Day b * msPerDay + h * msPerHour + m * msPerMinute
                    + (b mod msPerMinute)).
  { unfold t2. rewrite E1.
    unfold MakeDate, MakeTime, Day, HourFromTime, SecFromTime, msFromTime,
      msPerHour, msPerMinute, msPerSecond, msPerDay in *.
    Z.div_mod_to_equations. lia. }
  set (t3 := MakeDate (Day t2)
               (MakeTime (HourFromTime t2) (MinFromTime t2) 0 (msFromTime t2))).
  assert (E3 : t3 = Day b * msPerDay + h * msPerHour + m * msPerMinute
                    + (b mod msPerSecond)).
  { unfold t3. rewrite E2.
    unfold MakeDate, MakeTime, Day, HourFromTime, MinFromTime, msFromTime,
      msPerHour, msPerMinute, msPerSecond, msPerDay in *.
    Z.div_mod_to_equations. lia. }
  rewrite E3.
  unfold MakeDate, MakeTime, Day, HourFromTime, MinFromTime, SecFromTime,
    msPerHour, msPerMinute, msPerSecond, msPerDay in *.
  Z.div_mod_to_equations. lia.
Qed.

Lemma Day_le (a b : Z) : a <= b -> Day a <= Day b.
Proof. unfold Day, msPerDay. intros H. Z.div_mod_to_equations. lia. Qed.

Lemma notBefore_Day (t : Z) (d : Date) :
  notBefore t d -> forall b, d = Some b -> Day t <= Day b.
Proof.
  intros H b Hb. specialize (H b Hb).
  pose proof (Day_bounds b). unfold msPerDay in *. lia.
Qed.

Lemma notBefore_now (t : Z) : notBefore t (Some t).
Proof. intros r H. inversion H; subst. apply Day_bounds. Qed.

Lemma notBefore_atTime (t : Z) (d : Date) (h m : Z) :
  0 <= h -> 0 <= m -> notBefore t d -> notBefore t (atTime d h m).
Proof.
  intros Hh Hm Hd r Hr. destruct d as [b|].
  - apply atTime_inv in Hr. pose proof (notBefore_Day Hd eq_refl) as Hb.
    subst r. unfold msPerDay, msPerHour, msPerMinute. lia.
  - discriminate Hr.
Qed.

Lemma notBefore_startOfDay (t : Z) (d : Date) :
  notBefore t d -> notBefore t (startOfDay d).
Proof.
  intros Hd r Hr. unfold startOfDay, setHours4 in Hr.
  apply withTime_inv in Hr. destruct Hr as [b [-> ->]].
  pose proof (notBefore_Day Hd eq_refl) as Hb.
  unfold MakeDate, MakeTime, msPerDay. lia.
Qed.

Lemma notBefore_addDays (t : Z) (d : Date) (n : Z) :
  0 <= n -> notBefore t d -> notBefore t (addDays d n).
Proof.
  intros Hn Hd r Hr. unfold addDays in Hr.
  destruct (n =? 0); [apply Hd, Hr|].
  destruct d as [b|]; [|discriminate].
  unfold setDate in Hr. apply withTime_inv in Hr.
  destruct Hr as [b' [Hb ->]]. inversion Hb; subst b'; clear Hb.
  specialize (Hd b eq_refl). pose proof (Day_bounds b) as Hday.
  unfold MakeDate, TimeWithinDay, Day, msPerDay in *.
  Z.div_mod_to_equations. lia.
Qed.

Lemma notBefore_nextWeekday (t : Z) (d : Date) (target : Z)
  (allowToday : bool) :
  0 <= target <= 6 -> notBefore t d ->
  notBefore t (nextWeekday d target allowToday).
Proof.
  intros Htarget Hd. unfold nextWeekday, getDay, option_map.
  destruct d as [b|]; [|intros r Hr; discriminate Hr].
  apply notBefore_addDays; [|apply notBefore_startOfDay, Hd].
  assert (Hw : 0 <= WeekDay b <= 6)
    by (unfold WeekDay; Z.div_mod_to_equations; lia).
  destruct (Z.ltb_spec (target - WeekDay b) 0); cbn [orb]; [lia|].
  destruct ((target - WeekDay b =? 0) && negb allowToday); lia.
Qed.

(** The resolver on a valid date in range, as a day number. *)
Lemma nearestDayOfMonth_resolve (t day : Z) :
  100 <= YearFromTime t -> t <= maxTime - 62 * msPerDay -> 0 <= day ->
  nearestDayOfMonth (Some t) day
  = Some (MakeDate (resolveDayOfMonth t day) 0)
  /\ Day t <= resolveDayOfMonth t day.
Proof.
  intros Hy Ht Hday.
  set (y := YearFromTime t). set (m := MonthFromTime t).
  set (ny := fst (nextMonth y m)). set (nm := snd (nextMonth y m)).
  pose proof (Day_low t Hy) as Hlow.
  pose proof (Day_bounds t) as Hbounds.
  destruct (fields_MakeDay (Day t)) as [Hm [Hd Hn]].
  fold (YearFromTime t) (MonthFromTime t) (DateFromTime t) in Hm, Hd, Hn.
  fold y m in Hm, Hd, Hn.
  pose proof (daysInMonth_range y Hm) as Hdim.
  pose proof (nextMonth_isMonth y Hm) as Hnm. fold nm in Hnm.
  pose proof (daysInMonth_range ny Hnm) as HdimN.
  destruct (nextMonth_days y Hm) as [Hfirst _]. fold ny nm in Hfirst.
  rewrite (MakeDay_month _ _ Hm) in Hfirst.
  rewrite (MakeDay_month _ _ Hnm) in Hfirst.
  rewrite (MakeDay_month _ _ Hm) in Hn.
  assert (Hny : 100 <= ny).
  { unfold ny, nextMonth. destruct (m =? 11); simpl; lia. }
  set (c := Z.min day (daysInMonth y m)).
  set (cn := Z.min day (daysInMonth ny nm)).
  assert (Hc : Z.abs (MakeDate (MakeDay y m c) 0) <= maxTime).
  { rewrite (MakeDay_month _ _ Hm).
    unfold MakeDate, maxTime, msPerDay, c in *. lia. }
  assert (Hcn : Z.abs (MakeDate (MakeDay ny nm cn) 0) <= maxTime).
  { rewrite (MakeDay_month _ _ Hnm).
    unfold MakeDate, maxTime, msPerDay, cn in *. lia. }
  split.
  - unfold nearestDayOfMonth, resolveDayOfMonth, getDaysInMonth,
      getFullYear, getMonth, option_map.
    fold y m c. cbv zeta. fold ny nm cn.
    rewrite (@newDate_Some y m c Hy Hc).
    rewrite startOfDay_Some by (unfold maxTime, msPerDay in *; lia).
    unfold isBefore.
    replace (MakeDate (MakeDay y m c) 0 <? Day t * msPerDay)
      with (MakeDay y m c <? Day t).
    2:{ unfold MakeDate, msPerDay.
        destruct (Z.ltb_spec (MakeDay y m c) (Day t));
          destruct (Z.ltb_spec (MakeDay y m c * 86400000 + 0)
                               (Day t * 86400000)); auto; lia. }
    destruct (MakeDay y m c <? Day t); cbn [negb]; [|reflexivity].
    destruct (@addMonths_one t Hy Ht) as [nd [-> [Hyn [Hmn _]]]].
    fold y m ny nm in Hyn, Hmn.
    pose proof (TimeWithinDay_range t) as Htw.
    unfold YearFromTime, MonthFromTime.
    rewrite (Day_MakeDate _ Htw), Hyn, Hmn. fold cn.
    apply newDate_Some; assumption.
  - unfold resolveDayOfMonth. fold y m c. cbv zeta. fold ny nm cn.
    destruct (Z.ltb_spec (MakeDay y m c) (Day t)); [|lia].
    rewrite (MakeDay_month _ _ Hnm). unfold cn. lia.
Qed.

Lemma notBefore_nearestDayOfMonth (t day : Z) :
  100 <= YearFromTime t -> t <= maxTime - 62 * msPerDay -> 0 <= day ->
  notBefore t (nearestDayOfMonth (startOfDay (Some t)) day).
Proof.
  intros Hy Ht Hday.
  pose proof (Day_low t Hy) as Hlow. pose proof (Day_bounds t) as Hb.
  rewrite startOfDay_Some by (unfold maxTime, msPerDay in *; lia).
  assert (Hy' : 100 <= YearFromTime (Day t * msPerDay))
    by (unfold YearFromTime; rewrite Day_mul; exact Hy).
  assert (Ht' : Day t * msPerDay <= maxTime - 62 * msPerDay) by lia.
  destruct (@nearestDayOfMonth_resolve (Day t * msPerDay) day Hy' Ht' Hday)
    as [Hr Hge].
  rewrite Day_mul in Hge. rewrite Hr. intros r H. inversion H; subst r.
  unfold MakeDate, msPerDay in *. lia.
Qed.

Lemma notBefore_ceilToHour (t : Z) :
  100 <= YearFromTime t -> t <= maxTime - 62 * msPerDay ->
  notBefore t (ceilToHour (Some t)).
Proof.
  intros Hy Ht.
  pose proof (Day_low t Hy) as Hlow. pose proof (Day_bounds t) as Hb.
  destruct (@ceilToHour_spec t) as [r [Hr [Hge _]]];
    [unfold maxTime, msPerDay, msPerHour in *; lia|].
  rewrite Hr. intros r' H. inversion H; subst. lia.
Qed.

Lemma effective_nonneg (st : state) :
  timesOk st ->
  (forall h, effectiveHour st = Some h -> 0 <= h)
  /\ (forall m, effectiveMinute st = Some m -> 0 <= m).
Proof.
  intros [Hph [Hpm [Hmh Hmm]]]. unfold effectiveHour, effectiveMinute.
  split.
  - intros h. destruct (parsedHour st); auto.
  - intros m. destruct (parsedMinute st); auto.
Qed.

Lemma notBefore_applyTime (t : Z) (st : state) (d : Date) :
  timesOk st -> notBefore t d -> notBefore t (applyTime st d).
Proof.
  intros Hok Hd. destruct (effective_nonneg Hok) as [Hh Hm].
  unfold applyTime, atEndOfDay.
  destruct (effectiveHour st) as [h|];
    [destruct (effectiveMinute st) as [m|]|];
    apply notBefore_atTime; auto; lia.
Qed.

Lemma setDue_from (t : Z) (d : Date) (st st' : state) :
  setDue d st = Ok st' -> notBefore t d -> timesOk st ->
  timesOk st' /\ dueFrom t (patch st').
Proof.
  intros H Hd Hok. apply setDue_inv in H. destruct H as [s [Hs ->]].
  split; [exact Hok|].
  unfold toIso in Hs. destruct d as [r|]; [|discriminate Hs].
  destruct (toISOString (Some r)) as [s'|] eqn:E; [|discriminate Hs].
  inversion Hs; subst s'. intros x Hx. inversion Hx; subst x.
  exists r. split; [exact E | apply Hd; reflexivity].
Qed.

Lemma setDue_erase_from (t : Z) (d : Date) (re : regex) (st st' : state) :
  bind (setDue d st) (fun st2 => Ok (erase re st2)) = Ok st' ->
  notBefore t d -> timesOk st ->
  timesOk st' /\ dueFrom t (patch st').
Proof.
  intros H Hd Hok. apply bind_inv in H. destruct H as [st2 [H2 H]].
  inversion H; subst st'.
  destruct (setDue_from H2 Hd Hok) as [Ht Hdue]. split; [exact Ht | exact Hdue].
Qed.

Lemma keepsFrom_pure (t : Z) (f : state -> state) :
  (forall st, timesOk st -> timesOk (f st)) ->
  (forall st, due_date (patch (f st)) = due_date (patch st)) ->
  keepsFrom t (pure f).
Proof.
  intros Ht Hd st st' H Hok Hdue. inversion H; subst st'.
  split; [apply Ht, Hok|]. unfold dueFrom. rewrite Hd. exact Hdue.
Qed.

Lemma explicitTimeRe_digits :
  groupsOk (classRun digitClass) explicitTimeRe = true.
Proof. reflexivity. Qed.

Lemma hourOnlyTimeRe_digits :
  groupsOk (classRun digitClass) hourOnlyTimeRe = true.
Proof. reflexivity. Qed.

Lemma everyDayOfMonthRe_digits :
  groupsOk (classRun digitClass) everyDayOfMonthRe = true.
Proof. reflexivity. Qed.

Lemma inNDaysRe_digits :
  groupsOk (classRun digitClass) inNDaysRe = true.
Proof. reflexivity. Qed.

Lemma stageExplicitTime_times (st : state) :
  timesOk st -> timesOk (stageExplicitTime st).
Proof.
  intros Hok. unfold stageExplicitTime.
  destruct (jsmatch explicitTimeRe (remaining st)) as [mt|] eqn:E.
  - destruct (jsmatch_digits _ _ explicitTimeRe_digits E) as [H1 H2].
    destruct Hok as [_ [_ [Hmh Hmm]]].
    repeat split; auto; cbn; intros x Hx; inversion Hx; subst; auto.
  - destruct (jsmatch hourOnlyTimeRe (remaining st)) as [mt|] eqn:E';
      [|exact Hok].
    destruct (jsmatch_digits _ _ hourOnlyTimeRe_digits E') as [H1 _].
    destruct Hok as [_ [_ [Hmh Hmm]]].
    repeat split; auto; cbn; intros x Hx; inversion Hx; subst; auto; lia.
Qed.

Lemma stageTimeMarker_times (st : state) :
  timesOk st -> timesOk (stageTimeMarker st).
Proof.
  intros Hok. unfold stageTimeMarker.
  destruct (jsmatch timeMarkerRe (remaining st)) as [mt|]; [|exact Hok].
  destruct (lookup TIME_MARKER_MAP (toLowerCase (g1 mt))) as [tm|] eqn:E;
    [|exact Hok].
  apply lookup_In in E. destruct Hok as [Hph [Hpm _]].
  repeat split; auto; cbn; intros x Hx; inversion Hx; subst; clear Hx;
    simpl in E; intuition (subst; simpl; lia).
Qed.

Ltac same_times :=
  let st := fresh "st" in
  let H := fresh "H" in
  intros st H;
  unfold stagePriority, stageProject, stageLabels, stageRecurrence,
    stageTitle;
  break_stage; exact H.

Section NotBefore.

Variable t : Z.
Hypothesis year_ok : 100 <= YearFromTime t.
Hypothesis range_ok : t <= maxTime - 62 * msPerDay.

Lemma notBefore_today : notBefore t (startOfDay (Some t)).
Proof. apply notBefore_startOfDay, notBefore_now. Qed.

Lemma notBefore_later (n : Z) :
  0 <= n -> notBefore t (startOfDay (addDays (Some t) n)).
Proof.
  intros Hn. apply notBefore_startOfDay, notBefore_addDays;
    [exact Hn | apply notBefore_now].
Qed.

Lemma keepsFrom_secondDayOfWeek :
  keepsFrom t (stageSecondDayOfWeek (Some t)).
Proof.
  intros st st' H Hok Hdue. unfold stageSecondDayOfWeek in H.
  destruct (test _ _ && isNone _); [|inversion H; subst; auto].
  eapply setDue_erase_from; [exact H | | exact Hok].
  apply notBefore_applyTime; [exact Hok|].
  apply notBefore_nextWeekday; [lia | apply notBefore_today].
Qed.

Lemma keepsFrom_everyWeekday :
  keepsFrom t (stageEveryWeekday (Some t)).
Proof.
  intros st st' H Hok Hdue. unfold stageEveryWeekday in H.
  destruct (if isNone _ then _ else None) as [mt|];
    [|inversion H; subst; auto].
  destruct (lookup WEEKDAY_MAP (toLowerCase (g1 mt))) as [target|] eqn:E.
  - eapply setDue_erase_from; [exact H | | exact Hok].
    apply notBefore_applyTime; [exact Hok|].
    apply notBefore_nextWeekday;
      [exact (WEEKDAY_MAP_range _ E) | apply notBefore_today].
  - cbn [bind] in H. inversion H; subst st'. auto.
Qed.

Lemma keepsFrom_everyDayOfMonth :
  keepsFrom t (stageEveryDayOfMonth (Some t)).
Proof.
  intros st st' H Hok Hdue. unfold stageEveryDayOfMonth in H.
  destruct (isNone (due_date (patch st))); [|inversion H; subst; auto].
  destruct (jsmatch everyDayOfMonthRe (remaining st)) as [mt|] eqn:E;
    [|inversion H; subst; auto].
  eapply setDue_erase_from; [exact H | | exact Hok].
  apply notBefore_applyTime; [exact Hok|].
  apply notBefore_nearestDayOfMonth; auto.
  apply (jsmatch_digits _ _ everyDayOfMonthRe_digits E).
Qed.

Lemma keepsFrom_dateExpressions :
  keepsFrom t (stageDateExpressions (Some t)).
Proof.
  intros st st' H Hok Hdue. unfold stageDateExpressions in H.
  destruct (isNone (due_date (patch st))); [|inversion H; subst; auto].
  destruct (test todayRe (remaining st)).
  { eapply setDue_erase_from; [exact H | | exact Hok].
    apply notBefore_applyTime; [exact Hok | apply notBefore_today]. }
  destruct (test tomorrowRe (remaining st)).
  { eapply setDue_erase_from; [exact H | | exact Hok].
    apply notBefore_applyTime; [exact Hok | apply notBefore_later; lia]. }
  destruct (test dayAfterTomorrowRe (remaining st)).
  { eapply setDue_erase_from; [exact H | | exact Hok].
    apply notBefore_applyTime; [exact Hok | apply notBefore_later; lia]. }
  destruct (jsmatch inNDaysRe (remaining st)) as [mt|] eqn:E.
  { eapply setDue_erase_from; [exact H | | exact Hok].
    apply notBefore_applyTime; [exact Hok | apply notBefore_later].
    apply (jsmatch_digits _ _ inNDaysRe_digits E). }
  destruct (jsmatch weekdayOnceRe (remaining st)) as [mt|];
    [|inversion H; subst; auto].
  destruct (lookup WEEKDAY_MAP (toLowerCase (g1 mt))) as [target|] eqn:El.
  - eapply setDue_erase_from; [exact H | | exact Hok].
    apply notBefore_applyTime; [exact Hok|].
    apply notBefore_nextWeekday;
      [exact (WEEKDAY_MAP_range _ El) | apply notBefore_today].
  - cbn [bind] in H. inversion H; subst st'. auto.
Qed.

Lemma keepsFrom_timeOnly : keepsFrom t (stageTimeOnly (Some t)).
Proof.
  intros st st' H Hok Hdue. unfold stageTimeOnly in H.
  destruct (effective_nonneg Hok) as [Hh Hm].
  destruct (due_date (patch st)); [inversion H; subst; auto|].
  destruct (effectiveHour st) as [h|]; [|inversion H; subst; auto].
  destruct (effectiveMinute st) as [m|]; [|inversion H; subst; auto].
  destruct (isBefore _ _);
    (eapply setDue_from; [exact H | | exact Hok]);
    apply notBefore_atTime; auto;
    [apply notBefore_later; lia | apply notBefore_today].
Qed.

Lemma keepsFrom_hourlyRepeat : keepsFrom t (stageHourlyRepeat (Some t)).
Proof.
  intros st st' H Hok Hdue. unfold stageHourlyRepeat in H.
  destruct (repeat_after (patch st)) as [a|]; [|inversion H; subst; auto].
  destruct (due_date (patch st)); [inversion H; subst; auto|].
  destruct (a <? 86400); [|inversion H; subst; auto].
  eapply setDue_from; [exact H | | exact Hok].
  apply notBefore_ceilToHour; auto.
Qed.

Lemma keepsFrom_monthlyRepeat : keepsFrom t (stageMonthlyRepeat (Some t)).
Proof.
  intros st st' H Hok Hdue. unfold stageMonthlyRepeat in H.
  destruct (repeat_mode (patch st)) as [[|[| |]|]|];
    try (inversion H; subst; auto; fail).
  destruct (due_date (patch st)); [inversion H; subst; auto|].
  destruct (isBefore _ _);
    (eapply setDue_from; [exact H | | exact Hok]);
    apply notBefore_applyTime; auto;
    [apply notBefore_later; lia | apply notBefore_today].
Qed.

Lemma stages_keepFrom (text : jsstring) :
  Forall (keepsFrom t) (stages text (Some t)).
Proof.
  unfold stages.
  repeat apply Forall_cons; try apply Forall_nil;
    first [ apply keepsFrom_secondDayOfWeek | apply keepsFrom_everyWeekday
          | apply keepsFrom_everyDayOfMonth | apply keepsFrom_dateExpressions
          | apply keepsFrom_timeOnly | apply keepsFrom_hourlyRepeat
          | apply keepsFrom_monthlyRepeat | apply keepsFrom_pure ].
  - same_times.
  - apply stagePriority_patch.
  - same_times.
  - apply stageProject_patch.
  - same_times.
  - apply stageLabels_patch.
  - apply stageExplicitTime_times.
  - intros st. rewrite stageExplicitTime_patch. reflexivity.
  - apply stageTimeMarker_times.
  - intros st. rewrite stageTimeMarker_patch. reflexivity.
  - same_times.
  - apply stageRecurrence_due.
  - same_times.
  - apply stageTitle_patch.
Qed.

End NotBefore.

Lemma run_keepsFrom (t : Z) (fs : list (state -> outcome state)) :
  Forall (keepsFrom t) fs ->
  forall st st', run fs st = Ok st' ->
    timesOk st -> dueFrom t (patch st) ->
    timesOk st' /\ dueFrom t (patch st').
Proof.
  induction 1 as [|f fs Hf _ IH]; simpl; intros st st' Hrun Hok Hdue.
  - inversion Hrun; subst; auto.
  - apply bind_inv in Hrun. destruct Hrun as [st1 [H1 H2]].
    destruct (Hf _ _ H1 Hok Hdue). eapply IH; eauto.
Qed.

(** X13.  No due date lies before today: for a valid [now] (of the year
    100 or later, and at least 62 days short of the end of the [Date]
    range), a due date in a returned patch is the ISO form of an instant
    at or after the start of the day of [now]. *)
Theorem due_date_is_not_before_today
  (text : jsstring) (t : Z) (p : ParsedTaskPatch) (d : jsstring) :
  100 <= YearFromTime t -> t <= maxTime - 62 * msPerDay ->
  parseQuickAddRu text (Some t) = Ok (Some p) ->
  due_date p = Some d ->
  exists r, toISOString (Some r) = Some d /\ Day t * msPerDay <= r.
Proof.
  intros Hy Ht Hp Hd. apply parse_patch in Hp.
  destruct Hp as [st [Hrun [<- _]]].
  destruct (@run_keepsFrom t _ (stages_keepFrom Hy Ht text) _ _ Hrun)
    as [_ Hdue].
  - repeat split; intros x Hx; discriminate Hx.
  - intros x Hx. discriminate Hx.
  - apply Hdue, Hd.
Qed.

Lemma due_date_is_not_before_today_witness :
  exists r,
    toISOString (Some r) = Some (js "2024-01-11T23:59:00.000Z")
    /\ Day 1704888000000 * msPerDay <= r.
Proof.
  apply (@due_date_is_not_before_today (js "tomorrow call") 1704888000000
           (dueOnly "2024-01-11T23:59:00.000Z" (Some "Call"%string))).
  - vm_compute. discriminate.
  - vm_compute. discriminate.
  - vm_compute. reflexivity.
  - reflexivity.
Defined.

(** *** The client: retries *)

Import VikunjaClient.

Lemma attempts_spec (T : Type) (emptyObject : T) (fetch : nat -> fetched T)
  (retries : nat) (left : nat) :
  forall attempt lastError,
    (attempt <= retries)%nat -> left = S (retries - attempt) ->
    let r := fst (attempts emptyObject fetch retries left attempt lastError) in
    let n := snd (attempts emptyObject fetch retries left attempt lastError) in
    (1 <= n)%nat /\ (attempt + n <= S retries)%nat
    /\ r = attemptOnce emptyObject (fetch (attempt + n - 1)%nat)
    /\ (forall i, (attempt <= i < attempt + n - 1)%nat ->
          exists e, attemptOnce emptyObject (fetch i) = Rejected e
                    /\ isServerError e = true)
    /\ (forall e, r = Rejected e ->
          (attempt + n)%nat = S retries \/ isServerError e = false).
Proof.
  induction left as [|left IH]; intros attempt lastError Hle Hleft;
    [discriminate|].
  cbn [attempts].
  destruct (attemptOnce emptyObject (fetch attempt)) as [v|e] eqn:E.
  - cbn [fst snd]. replace (attempt + 1 - 1)%nat with attempt by lia.
    split; [lia|]. split; [lia|]. split; [symmetry; exact E|].
    split; [intros i Hi; lia | intros e He; discriminate He].
  - destruct (Nat.ltb_spec attempt retries) as [Hlt|Hge]; cbn [andb].
    + destruct (isServerError e) eqn:Es.
      * specialize (IH (S attempt) (Some e) ltac:(lia) ltac:(lia)).
        destruct (attempts emptyObject fetch retries left (S attempt)
                           (Some e)) as [r n].
        cbn [fst snd] in *. destruct IH as [H1 [H2 [H3 [H4 H5]]]].
        replace (attempt + S n - 1)%nat with (S attempt + n - 1)%nat by lia.
        split; [lia|]. split; [lia|]. split; [exact H3|]. split.
        -- intros i Hi. destruct (Nat.eq_dec i attempt) as [->|Hne].
           ++ exists e. auto.
           ++ apply H4. lia.
        -- intros e' He'. destruct (H5 e' He'); [left; lia | right; auto].
      * cbn [fst snd]. replace (attempt + 1 - 1)%nat with attempt by lia.
        split; [lia|]. split; [lia|]. split; [symmetry; exact E|].
        split; [intros i Hi; lia|].
        intros e' He'. inversion He'; subst. right. exact Es.
    + cbn [fst snd]. replace (attempt + 1 - 1)%nat with attempt by lia.
      split; [lia|]. split; [lia|]. split; [symmetry; exact E|].
      split; [intros i Hi; lia|].
      intros e' He'. left. lia.
Qed.

(** X14.  [request] fetches at least once and at most [retries + 1] times.
    Its outcome is that of the last attempt it makes; every attempt before
    it failed with an error that counts as a server error; and it gives up
    with an error only when that error does not count as one or the
    attempts are used up.  The "Unknown error" after the loop is never
    thrown. *)
Theorem request_retries_server_errors (T : Type) (emptyObject : T)
  (fetch : nat -> fetched T) (retries : nat) :
  let r := fst (request emptyObject fetch retries) in
  let n := snd (request emptyObject fetch retries) in
  (1 <= n <= S retries)%nat
  /\ r = attemptOnce emptyObject (fetch (n - 1)%nat)
  /\ (forall i, (i < n - 1)%nat ->
        exists e, attemptOnce emptyObject (fetch i) = Rejected e
                  /\ isServerError e = true)
  /\ (forall e, r = Rejected e -> n = S retries \/ isServerError e = false).
Proof.
  unfold request.
  destruct (@attempts_spec T emptyObject fetch retries (S retries) O None)
    as [H1 [H2 [H3 [H4 H5]]]]; [lia | f_equal; lia |].
  cbn [Nat.add] in *.
  split; [lia|]. split; [exact H3|]. split; [|exact H5].
  intros i Hi. apply H4. lia.
Qed.

Lemma includes_In (s : jsstring) (c : N) :
  includes s [c] = true <-> In c s.
Proof.
  induction s as [|d s IH]; cbn [includes startsWith In].
  - split; [discriminate | tauto].
  - rewrite orb_true_iff, andb_true_r, N.eqb_eq, IH.
    split; intros [H|H]; auto.
Qed.

Lemma includes_skip (a b : jsstring) (c : N) (sub : jsstring) :
  ~ In c a -> includes (a ++ b) (c :: sub) = includes b (c :: sub).
Proof.
  induction a as [|x a IH]; intros Hc; [reflexivity|].
  cbn [app includes startsWith].
  replace (N.eqb c x) with false.
  - cbn [andb orb]. apply IH. intros H. apply Hc. right. exact H.
  - symmetry. apply N.eqb_neq. intros ->. apply Hc. left. reflexivity.
Qed.

Lemma digits_range (fuel : nat) :
  forall n c, In c (digits fuel n) -> (48 <= c <= 57)%N.
Proof.
  induction fuel as [|fuel IH]; intros n c H; cbn [digits] in H;
    [contradiction|].
  destruct (N.ltb_spec n 10).
  - destruct H as [<-|[]]. lia.
  - apply in_app_or in H. destruct H as [H|[<-|[]]]; [eauto|].
    pose proof (N.mod_upper_bound n 10 ltac:(lia)) as Hm.
    revert Hm. generalize (n mod 10)%N. intros k Hk. lia.
Qed.

Lemma message_5 (d body : jsstring) :
  In (ch "5") (js "Vikunja API error " ++ d ++ js ": " ++ body)
  <-> In (ch "5") d \/ In (ch "5") body.
Proof.
  rewrite !in_app_iff. split.
  - intros [H|[H|[H|H]]]; auto; exfalso; vm_compute in H; intuition lia.
  - intros [H|H]; auto.
Qed.

Lemma message_timeout (n : N) (body : jsstring) :
  includes (js "Vikunja API error " ++ decimal n ++ js ": " ++ body)
           (js "timeout")
  = includes body (js "timeout").
Proof.
  change (js "timeout") with (ch "t" :: js "imeout").
  rewrite !includes_skip; auto.
  - intros H. vm_compute in H. intuition lia.
  - intros H. apply digits_range in H. change (ch "t") with 116%N in H. lia.
  - intros H. vm_compute in H. intuition lia.
Qed.

(** X15.  Which failed responses are retried: a response that is not [ok]
    throws an error whose message holds the status and the body, and that
    error counts as a server error exactly when the digit 5 occurs in the
    decimal status or in the body, or the body holds the word timeout.
    So with a retry left such a response is fetched again whatever its
    class of status: a 405 is, a 404 with an empty body is not. *)
Theorem failed_response_retried_iff (T : Type) (emptyObject : T)
  (r : Response T) :
  ok r = false ->
  let body := match text r with Fulfilled s => s | Rejected _ => [] end in
  let retried :=
    In (ch "5") (decimal (status r)) \/ In (ch "5") body
    \/ includes body (js "timeout") = true in
  (exists e, attemptOnce emptyObject (Responded r) = Rejected e
             /\ (isServerError e = true <-> retried))
  /\ (forall fetch retries,
        fetch O = Responded r -> (1 <= retries)%nat ->
        ((2 <= snd (request emptyObject fetch retries))%nat <-> retried)).
Proof.
  intros Hok body retried.
  set (e := MkError (js "Error")
              (js "Vikunja API error " ++ decimal (status r) ++ js ": "
                  ++ body)).
  assert (He : attemptOnce emptyObject (Responded r) = Rejected e).
  { unfold attemptOnce. rewrite Hok. reflexivity. }
  assert (Hs : isServerError e = true <-> retried).
  { unfold isServerError, retried. cbn [message name e].
    change (JsString.eqb (js "Error") (js "AbortError")) with false.
    rewrite orb_false_r, orb_true_iff, message_timeout.
    change (js "5") with [ch "5"]. rewrite includes_In, message_5.
    tauto. }
  split; [exists e; auto|].
  intros fetch retries Hf Hr. rewrite <- Hs. unfold request.
  cbn [attempts]. rewrite Hf, He.
  destruct retries as [|retries]; [lia|].
  change (0 <? S retries)%nat with true. cbn [andb].
  destruct (isServerError e).
  - destruct (attempts emptyObject fetch (S retries) (S retries) 1 (Some e))
      as [r' n] eqn:En.
    cbn [snd].
    destruct (@attempts_spec T emptyObject fetch (S retries) (S retries) 1
                (Some e)) as [H1 _]; [lia | f_equal; lia |].
    rewrite En in H1. cbn [snd] in H1. split; [reflexivity | lia].
  - cbn [snd]. split; [lia | discriminate].
Qed.

Lemma failed_response_retried_iff_witness :
  (2 <= snd (request tt
               (fun _ : nat =>
                  Responded
                    (MkResponse false 405
                                (Fulfilled (js "Method Not Allowed"))
                                None (Fulfilled tt)))
               1))%nat.
Proof.
  apply (proj2 (@failed_response_retried_iff unit tt
                  (MkResponse false 405 (Fulfilled (js "Method Not Allowed"))
                              None (Fulfilled tt))
                  eq_refl)
               (fun _ : nat =>
                  Responded
                    (MkResponse false 405
                                (Fulfilled (js "Method Not Allowed"))
                                None (Fulfilled tt)))
               1%nat eq_refl (le_n 1)).
  left. vm_compute. auto.
Defined.

(** *** The client: labels *)

Lemma Map_get_set (k k' : jsstring) (v : option Z) (mp : Map) :
  Map_get k (Map_set k' v mp)
  = if JsString.eqb k' k then v else Map_get k mp.
Proof.
  unfold Map_get, Map_set. cbn [find fst].
  destruct (JsString.eqb k' k); reflexivity.
Qed.

Lemma Map_of_rev (entries : list (jsstring * option Z)) :
  Map_of entries = rev entries.
Proof.
  unfold Map_of, Map_set.
  assert (H : forall acc,
             fold_left (fun mp kv => (fst kv, snd kv) :: mp) entries acc
             = rev entries ++ acc).
  { induction entries as [|[k v] entries IH]; intros acc; cbn [fold_left rev];
      [reflexivity|].
    rewrite IH, <- app_assoc. reflexivity. }
  rewrite H. apply app_nil_r.
Qed.

(** A key with a value was set to it. *)
Lemma Map_get_Some (k : jsstring) (v : Z) (mp : Map) :
  Map_get k mp = Some v -> In (k, Some v) mp.
Proof.
  unfold Map_get. destruct (find _ mp) as [[k' v']|] eqn:E; [|discriminate].
  cbn [snd]. intros ->. apply find_some in E.
  destruct E as [Hin Hk]. apply jsstring_eqb_eq in Hk. cbn in Hk. subst.
  exact Hin.
Qed.

(** A key without a value was set to no id, if it was set at all. *)
Lemma Map_get_None (k : jsstring) (mp : Map) :
  Map_get k mp = None ->
  (forall kv, In kv mp -> snd kv <> None) ->
  forall v, ~ In (k, v) mp.
Proof.
  unfold Map_get. intros H Hdef v Hin.
  destruct (find _ mp) as [kv|] eqn:E.
  - apply find_some in E. destruct E as [Hkv _].
    exact (Hdef kv Hkv H).
  - apply (find_none _ _ E) in Hin. cbn in Hin.
    rewrite jsstring_eqb_refl in Hin. discriminate.
Qed.

Section Labels.

Variable toLowerCase : jsstring -> jsstring.
Variable W : Type.
Variable createLabel : jsstring -> W -> settled (reply Label) * W.

Let key : jsstring -> jsstring := normalise toLowerCase.

(** The loop of [resolveLabels], with the calls of [createLabel] logged.
    It gives one id per name; a name whose key has an id in the map gets
    that id; once a name has got an id, the later names with its key get
    the same; a label is created only for a key that had no id in the
    map; and after a call that returned an id no call is made for the
    same key. *)
Lemma resolveEach_spec (names : list jsstring) :
  forall (mp : Map) (ids : list (option Z)) (w : W)
         (log : list (jsstring * settled (reply Label)))
         (ids' : list (option Z)) (w' : W)
         (log' : list (jsstring * settled (reply Label))),
    resolveEach toLowerCase (logged createLabel) names mp ids (w, log)
    = (Fulfilled ids', (w', log')) ->
    exists (new : list (option Z))
           (created : list (jsstring * settled (reply Label))),
      ids' = ids ++ new /\ log' = log ++ created
      /\ List.length new = List.length names
      /\ (forall j b v,
            nth_error names j = Some b -> Map_get (key b) mp = Some v ->
            nth_error new j = Some (Some v))
      /\ (forall i j a b v,
            (i <= j)%nat ->
            nth_error names i = Some a -> nth_error names j = Some b ->
            key a = key b ->
            nth_error new i = Some (Some v) ->
            nth_error new j = Some (Some v))
      /\ (forall n r, In (n, r) created ->
            In n names /\ Map_get (key n) mp = None)
      /\ (forall before n c after,
            created = before ++ (n, Fulfilled c) :: after ->
            idOf c <> None ->
            forall n' r, In (n', r) after -> key n' <> key n).
Proof.
  induction names as [|name names IH]; intros mp ids w log ids' w' log' H;
    cbn [resolveEach] in H.
  - inversion H; subst. exists [], []. rewrite !app_nil_r.
    split; [reflexivity|]. split; [reflexivity|]. split; [reflexivity|].
    split; [intros [|j] b v Hj; discriminate Hj|].
    split; [intros [|i] j a b v _ Hi; discriminate Hi|].
    split; [intros n r []|].
    intros [|x before] n c after E; discriminate E.
  - fold key in H.
    destruct (Map_get (key name) mp) as [existingId|] eqn:E.
    + apply IH in H.
      destruct H
        as [new [created [-> [-> [Hlen [Hmap [Hsame [Hnew Honce]]]]]]]].
      exists (Some existingId :: new), created.
      rewrite <- app_assoc.
      split; [reflexivity|]. split; [reflexivity|].
      split; [cbn [List.length]; rewrite Hlen; reflexivity|].
      split; [|split; [|split; [|exact Honce]]].
      * intros [|j] b v Hb Hv; cbn [nth_error] in *.
        -- inversion Hb; subst b. congruence.
        -- eapply Hmap; eauto.
      * intros [|i] [|j] a b v Hij Ha Hb Hab Hi; cbn [nth_error] in *;
          try lia.
        -- inversion Ha; inversion Hb; subst. exact Hi.
        -- inversion Ha; subst a. inversion Hi; subst v.
           apply (Hmap j b existingId Hb). rewrite <- Hab. exact E.
        -- apply (Hsame i j a b v); auto. lia.
      * intros n r Hn. destruct (Hnew n r Hn).
        split; [right|]; assumption.
    + unfold logged at 1 in H. cbn [fst snd] in H.
      destruct (createLabel name w) as [[c|e] w1]; [|discriminate].
      apply IH in H.
      destruct H
        as [new [created [-> [-> [Hlen [Hmap [Hsame [Hnew Honce]]]]]]]].
      exists (idOf c :: new), ((name, Fulfilled c) :: created).
      rewrite <- !app_assoc.
      split; [reflexivity|]. split; [reflexivity|].
      split; [cbn [List.length]; rewrite Hlen; reflexivity|].
      split; [|split; [|split]].
      * intros [|j] b v Hb Hv; cbn [nth_error] in *.
        -- inversion Hb; subst b. congruence.
        -- apply (Hmap j b v Hb). rewrite Map_get_set.
           destruct (JsString.eqb (key name) (key b)) eqn:Ek; [|exact Hv].
           apply jsstring_eqb_eq in Ek. congruence.
      * intros [|i] [|j] a b v Hij Ha Hb Hab Hi; cbn [nth_error] in *;
          try lia.
        -- inversion Ha; inversion Hb; subst. exact Hi.
        -- inversion Ha; subst a.
           assert (Hc : idOf c = Some v) by congruence.
           apply (Hmap j b v Hb). rewrite Map_get_set, Hab.
           rewrite jsstring_eqb_refl. exact Hc.
        -- apply (Hsame i j a b v); auto. lia.
      * intros n r [Hn | Hn].
        -- inversion Hn; subst. split; [left; reflexivity | exact E].
        -- destruct (Hnew n r Hn) as [Hnames Hnone].
           split; [right; exact Hnames|].
           rewrite Map_get_set in Hnone.
           destruct (JsString.eqb (key name) (key n)) eqn:Ek;
             [|exact Hnone].
           apply jsstring_eqb_eq in Ek. rewrite <- Ek. exact E.
      * intros [|x before] n c' after Hc Hid n' r Hn'; cbn [app] in Hc;
          inversion Hc; subst.
        -- destruct (Hnew n' r Hn') as [_ Hnone].
           rewrite Map_get_set in Hnone. intros Hk.
           rewrite <- Hk, jsstring_eqb_refl in Hnone.
           exact (Hid Hnone).
        -- eapply Honce; eauto.
Qed.

End Labels.

(** X16.  [resolveLabels], when it succeeds, returns one id per name.  A
    name that agrees, up to case and surrounding white space, with an
    existing label gets the id of such a label.  Once a name has got an
    id, every later name that agrees with it gets the same id.
    [createLabel] is called only with names of the list that agree with
    no existing label, and after a call that returned an id never again
    with a name that agrees with that one.  (A call that returns the
    empty object, an id that is [undefined], is repeated for the next
    such name.)  This holds whatever [toLowerCase] maps a string to. *)
Theorem resolveLabels_creates_each_label_once
  (toLowerCase : jsstring -> jsstring) (W : Type)
  (getLabels : W -> settled (reply (list Label)) * W)
  (createLabel : jsstring -> W -> settled (reply Label) * W)
  (names : list jsstring) (w w0 w' : W) (existing : list Label)
  (ids : list (option Z)) (log : list (jsstring * settled (reply Label))) :
  getLabels w = (Fulfilled (Json existing), w0) ->
  resolveLabels toLowerCase (unlogged getLabels) (logged createLabel)
                names (w, [])
  = (Fulfilled ids, (w', log)) ->
  List.length ids = List.length names
  /\ (forall i a l,
        nth_error names i = Some a -> In l existing ->
        normalise toLowerCase (label_title l) = normalise toLowerCase a ->
        exists l', In l' existing
                   /\ normalise toLowerCase (label_title l')
                      = normalise toLowerCase a
                   /\ nth_error ids i = Some (Some (label_id l')))
  /\ (forall i j a b v,
        (i <= j)%nat ->
        nth_error names i = Some a -> nth_error names j = Some b ->
        normalise toLowerCase a = normalise toLowerCase b ->
        nth_error ids i = Some (Some v) -> nth_error ids j = Some (Some v))
  /\ (forall n r, In (n, r) log ->
        In n names
        /\ forall l, In l existing ->
             normalise toLowerCase (label_title l)
             <> normalise toLowerCase n)
  /\ (forall before n c after,
        log = before ++ (n, Fulfilled c) :: after ->
        idOf c <> None ->
        forall n' r, In (n', r) after ->
          normalise toLowerCase n' <> normalise toLowerCase n).
Proof.
  intros Hget H. unfold resolveLabels, unlogged in H. cbn [fst snd] in H.
  rewrite Hget in H. apply resolveEach_spec in H.
  destruct H as [new [created [-> [-> [Hlen [Hmap [Hsame [Hnew Honce]]]]]]]].
  cbn [app]. rewrite Map_of_rev in Hmap, Hnew.
  set (entry := fun l => (normalise toLowerCase (label_title l),
                          Some (label_id l))) in *.
  assert (Hdef : forall kv, In kv (rev (map entry existing)) ->
                            snd kv <> None).
  { intros kv Hkv. apply in_rev, in_map_iff in Hkv.
    destruct Hkv as [l [<- _]]. discriminate. }
  assert (Hkey : forall k l, In l existing ->
                   normalise toLowerCase (label_title l) = k ->
                   Map_get k (rev (map entry existing)) <> None).
  { intros k l Hl Hk Hnone.
    apply (Map_get_None _ _ Hnone Hdef (Some (label_id l))).
    apply in_rev. rewrite rev_involutive. rewrite <- Hk.
    apply (in_map entry), Hl. }
  split; [exact Hlen|]. split; [|split; [exact Hsame|split; [|exact Honce]]].
  - intros i a l Ha Hl Hk.
    destruct (Map_get (normalise toLowerCase a) (rev (map entry existing)))
      as [v|] eqn:E; [|exfalso; exact (Hkey _ l Hl Hk E)].
    rewrite (Hmap i a v Ha E).
    apply Map_get_Some, in_rev, in_map_iff in E.
    destruct E as [l' [El' Hl']]. inversion El'; subst.
    exists l'. auto.
  - intros n r Hn. destruct (Hnew n r Hn) as [Hnames Hnone].
    split; [exact Hnames|]. intros l Hl Hk. exact (Hkey _ l Hl Hk Hnone).
Qed.

Lemma resolveLabels_creates_each_label_once_witness :
  List.length [Some 7; Some 42; Some 42] = 3%nat
  /\ nth_error [Some 7; Some 42; Some 42] 2 = Some (Some 42).
Proof.
  pose (getLabels := fun w : unit =>
                       (Fulfilled (Json [MkLabel 7 (js "Home")]), w)).
  pose (createLabel := fun (name : jsstring) (w : unit) =>
                         (Fulfilled (Json (MkLabel 42 name)), w)).
  destruct (@resolveLabels_creates_each_label_once
              JsString.toLowerCase unit getLabels createLabel
              [js " home"; js "Work"; js "work "] tt tt tt
              [MkLabel 7 (js "Home")] [Some 7; Some 42; Some 42]
              [(js "Work", Fulfilled (Json (MkLabel 42 (js "Work"))))])
    as [Hlen [_ [Hsame _]]].
  - reflexivity.
  - vm_compute. reflexivity.
  - split; [exact Hlen|].
    apply (Hsame 1%nat 2%nat (js "Work") (js "work ") 42);
      [lia | reflexivity | reflexivity | vm_compute; reflexivity
       | reflexivity].
Defined.

(** A success that carries no JSON gives a label without id, and the
    next name that agrees with it is created again. *)
Example resolveLabels_without_an_id :
  resolveLabels JsString.toLowerCase
    (unlogged (fun w : unit => (Fulfilled (Json []), w)))
    (logged (fun (_ : jsstring) (w : unit) => (Fulfilled EmptyObject, w)))
    [js "work"; js "Work"] (tt, [])
  = (Fulfilled [None; None],
     (tt, [(js "work", Fulfilled EmptyObject);
           (js "Work", Fulfilled EmptyObject)])).
Proof. vm_compute. reflexivity. Qed.

(** *** The client: projects *)

(** X17.  [resolveProjectId] looks the name up without regard to case and
    surrounding white space, in the name and in the titles: the result is
    the id of the first project of the list whose title agrees so with
    the name, and [undefined] exactly when no title does.  A failure of
    [getProjects] is passed on, and a success that carries no JSON is a
    TypeError.  This holds whatever [toLowerCase] maps a string to. *)
Theorem resolveProjectId_first_match
  (toLowerCase : jsstring -> jsstring) (W : Type)
  (getProjects : W -> settled (reply (list Project)) * W)
  (name : jsstring) (w w0 : W) :
  (forall projects,
     getProjects w = (Fulfilled (Json projects), w0) ->
     exists r,
       resolveProjectId toLowerCase getProjects name w = (Fulfilled r, w0)
       /\ (r = None <->
           forall p, In p projects ->
             normalise toLowerCase (project_title p)
             <> normalise toLowerCase name)
       /\ (forall before p after,
             projects = before ++ p :: after ->
             (forall q, In q before ->
                normalise toLowerCase (project_title q)
                <> normalise toLowerCase name) ->
             normalise toLowerCase (project_title p)
             = normalise toLowerCase name ->
             r = Some (project_id p)))
  /\ (forall e,
        getProjects w = (Rejected e, w0) ->
        resolveProjectId toLowerCase getProjects name w = (Rejected e, w0))
  /\ (getProjects w = (Fulfilled EmptyObject, w0) ->
      resolveProjectId toLowerCase getProjects name w
      = (Rejected (MkError (js "TypeError")
                           (js "projects.find is not a function")), w0)).
Proof.
  unfold resolveProjectId.
  split; [|split; [intros e -> | intros ->]; reflexivity].
  intros projects ->.
  set (hit := fun p => JsString.eqb
                         (normalise toLowerCase (project_title p))
                         (normalise toLowerCase name)).
  exists (option_map project_id (find hit projects)).
  split; [reflexivity|]. split.
  - destruct (find hit projects) as [p|] eqn:E; cbn [option_map].
    + split; [discriminate|]. intros Hnone. exfalso.
      apply find_some in E. destruct E as [Hin Hp].
      apply jsstring_eqb_eq in Hp. exact (Hnone p Hin Hp).
    + split; [|reflexivity]. intros _ p Hin Hp.
      apply (find_none _ _ E) in Hin. unfold hit in Hin.
      rewrite Hp, jsstring_eqb_refl in Hin. discriminate.
  - intros before p after -> Hbefore Hp.
    assert (Hf : find hit (before ++ p :: after) = Some p).
    { revert Hbefore.
      induction before as [|q before IH]; intros Hbefore; cbn [app find].
      - unfold hit at 1. rewrite Hp, jsstring_eqb_refl. reflexivity.
      - destruct (hit q) eqn:Eq.
        + exfalso. apply jsstring_eqb_eq in Eq.
          exact (Hbefore q (or_introl eq_refl) Eq).
        + apply IH. intros x Hx. apply Hbefore. right. exact Hx. }
    rewrite Hf. reflexivity.
Qed.

Lemma resolveProjectId_first_match_witness :
  exists r,
    resolveProjectId JsString.toLowerCase
      (fun w : unit =>
         (Fulfilled (Json [MkProject 1 (js "Work");
                           MkProject 2 (js " HOME ");
                           MkProject 3 (js "home")]), w))
      (js "Home") tt
    = (Fulfilled r, tt)
    /\ r = Some 2.
Proof.
  destruct (proj1 (@resolveProjectId_first_match JsString.toLowerCase unit
              (fun w : unit =>
                 (Fulfilled (Json [MkProject 1 (js "Work");
                                   MkProject 2 (js " HOME ");
                                   MkProject 3 (js "home")]), w))
              (js "Home") tt tt)
              [MkProject 1 (js "Work"); MkProject 2 (js " HOME ");
               MkProject 3 (js "home")] eq_refl)
    as [r [Hr [_ Hfirst]]].
  exists r. split; [exact Hr|].
  apply (Hfirst [MkProject 1 (js "Work")] (MkProject 2 (js " HOME "))
                [MkProject 3 (js "home")] eq_refl).
  - intros q Hq H. destruct Hq as [<-|[]]. vm_compute in H. discriminate H.
  - vm_compute. reflexivity.
Defined.


(** *** The handler *)

Import VikunjaWebhook.

Lemma setDue_isoDue (d : Date) (st st' : state) :
  setDue d st = Ok st' -> isoDue (patch st').
Proof.
  intros H. apply setDue_inv in H. destruct H as [s [Hs ->]].
  unfold toIso in Hs. destruct d as [r|]; [|discriminate Hs].
  destruct (toISOString (Some r)) as [s'|] eqn:E; [|discriminate Hs].
  inversion Hs; subst s'. intros x Hx. inversion Hx; subst x. eauto.
Qed.

Ltac iso_stage :=
  let st := fresh "st" in
  let st' := fresh "st'" in
  let H := fresh "H" in
  let Hiso := fresh "Hiso" in
  intros st st' H Hiso;
  repeat match goal with
  | H : Ok _ = Ok _ |- _ => inversion H; subst; clear H
  | H : RangeError = Ok _ |- _ => discriminate H
  | H : bind _ _ = Ok _ |- _ =>
      apply bind_inv in H; destruct H as [? [? H]]
  | H : setDue _ _ = Ok _ |- _ => apply setDue_isoDue in H
  | H : (match ?x with _ => _ end) = Ok _ |- _ => destruct x eqn:?
  end;
  first [exact Hiso | assumption].

Lemma keepsIso_pure (f : state -> state) :
  (forall st, due_date (patch (f st)) = due_date (patch st)) ->
  keepsIso (pure f).
Proof.
  intros Hf st st' H Hiso. inversion H; subst st'.
  unfold isoDue. rewrite Hf. exact Hiso.
Qed.

Lemma stages_keepIso (text : jsstring) (now : Date) :
  Forall keepsIso (stages text now).
Proof.
  unfold stages.
  repeat apply Forall_cons; try apply Forall_nil.
  - apply keepsIso_pure, stagePriority_patch.
  - apply keepsIso_pure, stageProject_patch.
  - apply keepsIso_pure, stageLabels_patch.
  - apply keepsIso_pure. intros st. rewrite stageExplicitTime_patch.
    reflexivity.
  - apply keepsIso_pure. intros st. rewrite stageTimeMarker_patch.
    reflexivity.
  - apply keepsIso_pure, stageRecurrence_due.
  - unfold stageSecondDayOfWeek. iso_stage.
  - unfold stageEveryWeekday. iso_stage.
  - unfold stageEveryDayOfMonth. iso_stage.
  - unfold stageDateExpressions. iso_stage.
  - unfold stageTimeOnly. iso_stage.
  - unfold stageHourlyRepeat. iso_stage.
  - unfold stageMonthlyRepeat. iso_stage.
  - apply keepsIso_pure, stageTitle_patch.
Qed.

Lemma run_keepsIso (fs : list (state -> outcome state)) :
  Forall keepsIso fs ->
  forall st st', run fs st = Ok st' ->
    isoDue (patch st) -> isoDue (patch st').
Proof.
  induction 1 as [|f fs Hf _ IH]; simpl; intros st st' Hrun Hok.
  - inversion Hrun; subst; exact Hok.
  - apply bind_inv in Hrun. destruct Hrun as [st1 [H1 H2]].
    eapply IH; eauto.
Qed.

(** Every due date the parser returns is an ISO date. *)
Lemma parse_isoDue (text : jsstring) (now : Date) (p : ParsedTaskPatch) :
  parseQuickAddRu text now = Ok (Some p) -> isoDue p.
Proof.
  intros Hp. apply parse_patch in Hp. destruct Hp as [st [Hrun [<- _]]].
  apply (run_keepsIso (stages_keepIso text now) _ Hrun).
  intros d Hd. discriminate Hd.
Qed.

Lemma pad_length (w : nat) (v : Z) : List.length (pad w v) = w.
Proof.
  revert v. induction w as [|w IH]; intros v; cbn [pad]; [reflexivity|].
  rewrite length_app, IH. cbn [List.length]. lia.
Qed.

Lemma Some_eq (A : Type) (a b : A) : Some a = Some b -> a = b.
Proof. intros H. inversion H. reflexivity. Qed.

(** An ISO date has 24 characters, or 27 with a signed year. *)
Lemma toISOString_length (r : Z) (d : jsstring) :
  toISOString (Some r) = Some d -> (24 <= List.length d)%nat.
Proof.
  unfold toISOString. intros H. apply Some_eq in H. rewrite <- H.
  rewrite !length_app, !pad_length.
  destruct ((0 <=? YearFromTime r) && (YearFromTime r <=? 9999)).
  - rewrite pad_length. cbn. lia.
  - rewrite length_app, pad_length. cbn. lia.
Qed.

Lemma jsstring_eqb_length (a b : jsstring) :
  List.length a <> List.length b -> JsString.eqb a b = false.
Proof.
  intros H. destruct (JsString.eqb a b) eqn:E; [|reflexivity].
  apply jsstring_eqb_eq in E. subst. contradiction H. reflexivity.
Qed.

(** The guard of the handler sees every ISO date as a due date. *)
Lemma hasDueDate_iso (t : Task) (d : jsstring) (r : Z) :
  task_due_date t = Some d -> toISOString (Some r) = Some d ->
  hasDueDate t = true.
Proof.
  intros Ht Hd. apply toISOString_length in Hd.
  unfold hasDueDate. rewrite Ht.
  destruct d as [|c d]; [cbn in Hd; lia|].
  rewrite jsstring_eqb_length; [reflexivity|].
  change (List.length (js "0001-01-01T00:00:00Z")) with 20%nat. lia.
Qed.

Section HandlerFacts.

Variable W : Type.
Variable resolveProjectId : jsstring -> W -> settled (option Z) * W.
Variable updateTask : Z -> TaskPatch -> W -> settled unit * W.
Variable resolveLabels :
  list jsstring -> W -> settled (list (option Z)) * W.
Variable setTaskLabels : Z -> list (option Z) -> W -> settled unit * W.

Lemma handle_no_patch (payload : WebhookPayload) (now : Z) (w : W) :
  parseQuickAddRu (title (task payload)) (Some now) = Ok None ->
  handleWebhook resolveProjectId updateTask resolveLabels setTaskLabels
                (Some payload) now w
  = Ok w.
Proof.
  intros H. unfold handleWebhook.
  destruct (negb _); [reflexivity|].
  destruct (hasDueDate _); [reflexivity|].
  rewrite H. reflexivity.
Qed.

End HandlerFacts.

(** X18.  What the handler leaves alone: a body the schema rejects, an
    event other than task.created, a task that has a due date already, a
    blank title and a plain title, one that no pattern matches and whose
    white space needs no collapsing.  Whatever the client would do, no
    method of it is called: the server is as it was. *)
Theorem handler_leaves_plain_tasks_alone (W : Type)
  (resolveProjectId : jsstring -> W -> settled (option Z) * W)
  (updateTask : Z -> TaskPatch -> W -> settled unit * W)
  (resolveLabels : list jsstring -> W
                   -> settled (list (option Z)) * W)
  (setTaskLabels : Z -> list (option Z) -> W -> settled unit * W)
  (body : option WebhookPayload) (now : Z) (w : W) :
  (forall payload, body = Some payload ->
     event_name payload <> js "task.created"
     \/ hasDueDate (task payload) = true
     \/ trim (title (task payload)) = []
     \/ (markerFree (title (task payload)) = true
         /\ singleSpaced (title (task payload)) = true)) ->
  handleWebhook resolveProjectId updateTask resolveLabels setTaskLabels
                body now w
  = Ok w.
Proof.
  intros H. destruct body as [payload|]; [|reflexivity].
  destruct (H payload eq_refl) as [He | [Hd | [Hb | [Hm Hs]]]].
  - unfold handleWebhook.
    destruct (JsString.eqb (event_name payload) (js "task.created")) eqn:E;
      [|reflexivity].
    apply jsstring_eqb_eq in E. contradiction.
  - unfold handleWebhook. destruct (negb _); [reflexivity|].
    rewrite Hd. reflexivity.
  - apply handle_no_patch, parse_blank, Hb.
  - apply handle_no_patch, parse_plain; assumption.
Qed.

Lemma handler_leaves_plain_tasks_alone_witness :
  handleWebhook
    (fun (_ : jsstring) (w : nat) => (Fulfilled (Some 1), S w))
    (fun (_ : Z) (_ : TaskPatch) (w : nat) => (Fulfilled tt, S w))
    (fun (_ : list jsstring) (w : nat) => (Fulfilled [Some 1], S w))
    (fun (_ : Z) (_ : list (option Z)) (w : nat) => (Fulfilled tt, S w))
    (Some (MkPayload (js "task.created")
                     (MkTask 7 (js "buy milk") None)))
    1704888000000 O
  = Ok O.
Proof.
  apply handler_leaves_plain_tasks_alone.
  intros payload H. inversion H; subst payload; clear H.
  right. right. right. split; vm_compute; reflexivity.
Defined.

(** X19.  A redelivery is skipped: a task that carries a due date the
    parser has written, for any text at any time, passes for a task with
    a due date, and the handler calls nothing for it. *)
Theorem handler_skips_what_it_has_dated (W : Type)
  (resolveProjectId : jsstring -> W -> settled (option Z) * W)
  (updateTask : Z -> TaskPatch -> W -> settled unit * W)
  (resolveLabels : list jsstring -> W
                   -> settled (list (option Z)) * W)
  (setTaskLabels : Z -> list (option Z) -> W -> settled unit * W)
  (text : jsstring) (now0 : Date) (parsed : ParsedTaskPatch)
  (d : jsstring) (payload : WebhookPayload) (now : Z) (w : W) :
  parseQuickAddRu text now0 = Ok (Some parsed) ->
  due_date parsed = Some d ->
  task_due_date (task payload) = Some d ->
  hasDueDate (task payload) = true
  /\ handleWebhook resolveProjectId updateTask resolveLabels setTaskLabels
                   (Some payload) now w
     = Ok w.
Proof.
  intros Hp Hd Ht. destruct (@parse_isoDue _ _ _ Hp d Hd) as [r Hr].
  pose proof (@hasDueDate_iso _ _ _ Ht Hr) as Hg. split; [exact Hg|].
  unfold handleWebhook. destruct (negb _); [reflexivity|].
  rewrite Hg. reflexivity.
Qed.

Lemma handler_skips_what_it_has_dated_witness :
  handleWebhook
    (fun (_ : jsstring) (w : nat) => (Fulfilled (Some 1), S w))
    (fun (_ : Z) (_ : TaskPatch) (w : nat) => (Fulfilled tt, S w))
    (fun (_ : list jsstring) (w : nat) => (Fulfilled [Some 1], S w))
    (fun (_ : Z) (_ : list (option Z)) (w : nat) => (Fulfilled tt, S w))
    (Some (MkPayload (js "task.created")
                     (MkTask 7 (js "Call")
                             (Some (js "2024-01-11T23:59:00.000Z")))))
    1704888000000 O
  = Ok O.
Proof.
  refine (proj2 (@handler_skips_what_it_has_dated nat _ _ _ _
                   (js "tomorrow call") NOW
                   (dueOnly "2024-01-11T23:59:00.000Z" (Some "Call"%string))
                   (js "2024-01-11T23:59:00.000Z")
                   (MkPayload (js "task.created")
                              (MkTask 7 (js "Call")
                                      (Some (js "2024-01-11T23:59:00.000Z"))))
                   1704888000000 O _ _ _)).
  - vm_compute. reflexivity.
  - reflexivity.
  - reflexivity.
Defined.

(** The patch the handler builds from a result of the parser is well
    formed. *)
Lemma parse_wellFormed (text : jsstring) (now : Date)
  (parsed : ParsedTaskPatch) :
  parseQuickAddRu text now = Ok (Some parsed) ->
  wellFormed (buildPatch parsed).
Proof.
  intros Hp. unfold wellFormed, buildPatch.
  cbn [patch_priority patch_repeat_mode patch_repeat_after patch_title
       patch_due_date].
  pose proof Hp as Hrec. apply parse_patch in Hrec.
  destruct Hrec as [st [Hrun [<- _]]].
  apply run_recurrenceOk in Hrun. destruct Hrun as [Hmode Hafter].
  split; [intros v; apply (@parse_priority _ _ _ v Hp)|].
  split.
  { intros m Hm. rewrite Hm in Hmode.
    destruct Hmode as [H | [H | H]]; inversion H; auto. }
  split.
  { intros a Ha. split; [apply Hafter; rewrite Ha; discriminate|].
    intros _. apply (@parse_interval _ _ _ a Hp Ha). }
  split; [intros t; apply (@parse_title _ _ _ t Hp)|].
  apply (@parse_isoDue _ _ _ Hp).
Qed.

Lemma wellFormed_withProject (projectId : Z) (p : TaskPatch) :
  wellFormed p -> wellFormed (withProject projectId p).
Proof. intros H. exact H. Qed.

Section Protocol.

Variable W : Type.
Variable resolveProjectId : jsstring -> W -> settled (option Z) * W.
Variable updateTask : Z -> TaskPatch -> W -> settled unit * W.
Variable resolveLabels :
  list jsstring -> W -> settled (list (option Z)) * W.
Variable setTaskLabels : Z -> list (option Z) -> W -> settled unit * W.

(** The project step on a logging client: one call when the parser gave
    a project name, none otherwise; the patch gains at most the id. *)
Lemma resolveProject_logged (parsed : ParsedTaskPatch) (p p' : TaskPatch)
  (w w' : W) (log log' : list Call) :
  resolveProject
    (fun name => logging (ResolveProjectId name) (resolveProjectId name))
    parsed p (w, log)
  = (p', (w', log')) ->
  log' = log ++ match project_name parsed with
                | Some n => [ResolveProjectId n]
                | None => []
                end
  /\ (p' = p
      \/ exists n projectId,
           project_name parsed = Some n
           /\ resolveProjectId n w = (Fulfilled (Some projectId), w')
           /\ p' = withProject projectId p).
Proof.
  unfold resolveProject, logging. cbn [fst snd].
  destruct (project_name parsed) as [n|].
  - destruct (resolveProjectId n w) as [[[projectId|]|e] w1] eqn:E;
      intros H; inversion H; subst; split; auto.
    right. exists n, projectId. auto.
  - intros H. inversion H; subst. rewrite app_nil_r. auto.
Qed.

(** The label step on a logging client. *)
Lemma attachLabels_logged (t : Task) (parsed : ParsedTaskPatch)
  (w w' : W) (log log' : list Call) :
  attachLabels
    (fun names => logging (ResolveLabels names) (resolveLabels names))
    (fun i ids => logging (SetTaskLabels i ids) (setTaskLabels i ids))
    t parsed (w, log)
  = (w', log') ->
  exists post,
    log' = log ++ post
    /\ (post = []
        \/ exists names,
             labels parsed = Some names /\ names <> []
             /\ (post = [ResolveLabels names]
                 \/ exists ids w1,
                      resolveLabels names w = (Fulfilled ids, w1)
                      /\ post = [ResolveLabels names;
                                 SetTaskLabels (id t) ids])).
Proof.
  unfold attachLabels, logging. cbn [fst snd].
  destruct (labels parsed) as [names|].
  - destruct names as [|n names].
    + cbn. intros H. inversion H; subst. exists []. rewrite app_nil_r. auto.
    + cbn [List.length Nat.ltb Nat.leb].
      destruct (resolveLabels (n :: names) w) as [[ids|e] w1] eqn:E.
      * cbn [fst snd].
        destruct (setTaskLabels (id t) ids w1) as [r w2]. cbn [snd].
        intros H. inversion H; subst.
        exists [ResolveLabels (n :: names); SetTaskLabels (id t) ids].
        rewrite <- app_assoc. split; [reflexivity|]. right.
        exists (n :: names). split; [reflexivity|].
        split; [discriminate|]. right. exists ids, w1. auto.
      * intros H. inversion H; subst.
        exists [ResolveLabels (n :: names)]. split; [reflexivity|]. right.
        exists (n :: names). split; [reflexivity|].
        split; [discriminate|]. left. reflexivity.
  - intros H. inversion H; subst. exists []. rewrite app_nil_r. auto.
Qed.

(** The calls of one run, in order. *)
Lemma handleLogged_calls (body : option WebhookPayload) (now : Z)
  (w w' : W) (log : list Call) :
  handleLogged resolveProjectId updateTask resolveLabels setTaskLabels
               body now (w, [])
  = Ok (w', log) ->
  log = []
  \/ exists payload parsed p w1 post,
       body = Some payload
       /\ parseQuickAddRu (title (task payload)) (Some now)
          = Ok (Some parsed)
       /\ (p = buildPatch parsed
           \/ exists n projectId,
                project_name parsed = Some n
                /\ resolveProjectId n w = (Fulfilled (Some projectId), w1)
                /\ p = withProject projectId (buildPatch parsed))
       /\ log = match project_name parsed with
                | Some n => [ResolveProjectId n]
                | None => []
                end ++ UpdateTask (id (task payload)) p :: post
       /\ ((exists e w2, updateTask (id (task payload)) p w1
                         = (Rejected e, w2))
           /\ post = []
           \/ (exists w2, updateTask (id (task payload)) p w1
                          = (Fulfilled tt, w2))
              /\ (post = []
                  \/ exists names,
                       labels parsed = Some names /\ names <> []
                       /\ (post = [ResolveLabels names]
                           \/ exists ids,
                                post = [ResolveLabels names;
                                        SetTaskLabels (id (task payload))
                                                      ids]))).
Proof.
  unfold handleLogged, handleWebhook. intros H.
  destruct body as [payload|]; [|inversion H; auto].
  destruct (negb _); [inversion H; auto|].
  destruct (hasDueDate _); [inversion H; auto|].
  apply bind_inv in H. destruct H as [[parsed|] [Hparse H]];
    [|inversion H; auto].
  right.
  destruct (resolveProject _ parsed (buildPatch parsed) (w, []))
    as [p [w1 log1]] eqn:Eproj.
  apply resolveProject_logged in Eproj. destruct Eproj as [Hlog1 Hp].
  cbn [app] in Hlog1.
  unfold logging at 1 in H. cbn [fst snd] in H.
  destruct (updateTask (id (task payload)) p w1) as [[[]|e] w2] eqn:Eu.
  - destruct (attachLabels _ _ (task payload) parsed
                           (w2, log1 ++ [UpdateTask (id (task payload)) p]))
      as [w3 log3] eqn:Ea.
    inversion H; subst w3 log3; clear H.
    apply attachLabels_logged in Ea. destruct Ea as [post [Hlog Hpost]].
    exists payload, parsed, p, w1, post.
    split; [reflexivity|]. split; [exact Hparse|]. split; [exact Hp|].
    split; [rewrite Hlog, Hlog1, <- app_assoc; reflexivity|].
    right. split; [eauto|].
    destruct Hpost as [-> | [names [Hn [Hne [-> | [ids [w4 [_ ->]]]]]]]];
      [left; reflexivity | right | right];
      exists names; repeat split; eauto.
  - inversion H; subst w' log; clear H.
    exists payload, parsed, p, w1, [].
    split; [reflexivity|]. split; [exact Hparse|]. split; [exact Hp|].
    split; [rewrite Hlog1; reflexivity|].
    left. split; [eauto | reflexivity].
Qed.

End Protocol.

(** X20.  The calls of the handler: none at all, or [updateTask] exactly
    once, for the task of the payload, with a patch whose fields are
    those of the parser's result and in their ranges (priority 1 to 5,
    repeat mode 0 or 1 and never 3, an interval with mode 0, a
    normalised title, an ISO due date); before it one
    [resolveProjectId] when the parser gave a project name, and after it
    nothing, or [resolveLabels], or [resolveLabels] and then
    [setTaskLabels], when the parser gave labels.  Of the interval the
    patch says whether there is one, and its value where it is below
    2^53, a whole number of hours: there JavaScript's arithmetic is the
    exact one. *)
Theorem handler_updates_once_with_a_well_formed_patch (W : Type)
  (resolveProjectId : jsstring -> W -> settled (option Z) * W)
  (updateTask : Z -> TaskPatch -> W -> settled unit * W)
  (resolveLabels : list jsstring -> W
                   -> settled (list (option Z)) * W)
  (setTaskLabels : Z -> list (option Z) -> W -> settled unit * W)
  (body : option WebhookPayload) (now : Z) (w w' : W) (log : list Call) :
  handleLogged resolveProjectId updateTask resolveLabels setTaskLabels
               body now (w, [])
  = Ok (w', log) ->
  log = []
  \/ exists payload parsed p post,
       body = Some payload
       /\ parseQuickAddRu (title (task payload)) (Some now)
          = Ok (Some parsed)
       /\ wellFormed p
       /\ patch_title p = cleaned_title parsed
       /\ patch_due_date p = due_date parsed
       /\ patch_priority p = priority parsed
       /\ patch_repeat_mode p = repeat_mode parsed
       /\ (repeat_after parsed = None -> patch_repeat_after p = None)
       /\ (forall a, repeat_after parsed = Some a ->
             patch_repeat_after p <> None
             /\ (a < 2 ^ 53 -> patch_repeat_after p = Some a))
       /\ log = match project_name parsed with
                | Some n => [ResolveProjectId n]
                | None => []
                end ++ UpdateTask (id (task payload)) p :: post
       /\ (post = []
           \/ exists names,
                labels parsed = Some names /\ names <> []
                /\ (post = [ResolveLabels names]
                    \/ exists ids,
                         post = [ResolveLabels names;
                                 SetTaskLabels (id (task payload)) ids])).
Proof.
  intros H. apply handleLogged_calls in H.
  destruct H as [-> | [payload [parsed [p [w1 [post
                  [Hb [Hparse [Hp [Hlog Hpost]]]]]]]]]]; [left; reflexivity|].
  right. exists payload, parsed, p, post.
  split; [exact Hb|]. split; [exact Hparse|].
  pose proof (@parse_wellFormed _ _ _ Hparse) as Hwf.
  assert (Hfields : wellFormed p
                    /\ patch_title p = cleaned_title parsed
                    /\ patch_due_date p = due_date parsed
                    /\ patch_priority p = priority parsed
                    /\ patch_repeat_mode p = repeat_mode parsed
                    /\ patch_repeat_after p = repeat_after parsed).
  { destruct Hp as [-> | [n [projectId [_ [_ ->]]]]];
      (split; [exact Hwf | repeat split]). }
  destruct Hfields as [H1 [H2 [H3 [H4 [H5 H6]]]]].
  repeat (split; [assumption|]).
  split; [intros Hnone; rewrite H6; exact Hnone|].
  split.
  { intros a Ha. rewrite H6, Ha. split; [discriminate | reflexivity]. }
  split; [exact Hlog|].
  destruct Hpost as [[_ ->] | [_ Hpost]]; [left; reflexivity | exact Hpost].
Qed.

Lemma handler_updates_once_with_a_well_formed_patch_witness :
  exists p,
    wellFormed p /\ patch_priority p = Some 2
    /\ patch_project_id p = Some 11.
Proof.
  pose (rp := fun (_ : jsstring) (w : unit) => (Fulfilled (Some 11), w)).
  pose (ut := fun (_ : Z) (_ : TaskPatch) (w : unit) => (Fulfilled tt, w)).
  pose (rl := fun (_ : list jsstring) (w : unit) => (Fulfilled [Some 5], w)).
  pose (stl := fun (_ : Z) (_ : list (option Z)) (w : unit) =>
                 (Fulfilled tt, w)).
  pose (p := MkTaskPatch (Some (js "Call")) None (Some 2) (Some 11)
                         None None).
  destruct (@handler_updates_once_with_a_well_formed_patch unit rp ut rl stl
              (Some (MkPayload (js "task.created")
                               (MkTask 7 (js "call !2 +Work *home") None)))
              1704888000000 tt tt
              [ResolveProjectId (js "Work"); UpdateTask 7 p;
               ResolveLabels [js "home"]; SetTaskLabels 7 [Some 5]])
    as [H | H].
  - vm_compute. reflexivity.
  - discriminate H.
  - destruct H as [payload [parsed [p' [post [Hb [Hparse [Hwf H]]]]]]].
    destruct H as [_ [_ [_ [_ [_ [_ [Hlog _]]]]]]].
    exists p. inversion Hb; subst payload; clear Hb.
    vm_compute in Hparse. inversion Hparse; subst parsed; clear Hparse.
    cbn [project_name app] in Hlog. inversion Hlog; subst p'.
    split; [exact Hwf|]. split; reflexivity.
Defined.

(** X21.  Failures of the client in the handler: the patch carries a
    [project_id] only when [resolveProjectId] was fulfilled with that id,
    so a lookup that fails or finds nothing leaves the update to go ahead
    without one; and a label call is made only after an [updateTask] that
    was fulfilled, so a failed update attaches nothing. *)
Theorem handler_goes_on_without_project_and_stops_without_update
  (W : Type)
  (resolveProjectId : jsstring -> W -> settled (option Z) * W)
  (updateTask : Z -> TaskPatch -> W -> settled unit * W)
  (resolveLabels : list jsstring -> W
                   -> settled (list (option Z)) * W)
  (setTaskLabels : Z -> list (option Z) -> W -> settled unit * W)
  (body : option WebhookPayload) (now : Z) (w w' : W) (log : list Call) :
  handleLogged resolveProjectId updateTask resolveLabels setTaskLabels
               body now (w, [])
  = Ok (w', log) ->
  (forall i p projectId,
     In (UpdateTask i p) log -> patch_project_id p = Some projectId ->
     exists n w1,
       In (ResolveProjectId n) log
       /\ resolveProjectId n w = (Fulfilled (Some projectId), w1))
  /\ (forall c,
        In c log -> isLabelCall c = true ->
        exists i p w1 w2,
          In (UpdateTask i p) log
          /\ updateTask i p w1 = (Fulfilled tt, w2))
  /\ (log <> [] -> existsb isUpdateCall log = true).
Proof.
  intros H. apply handleLogged_calls in H.
  destruct H as [-> | [payload [parsed [p [w1 [post
                  [Hb [Hparse [Hp [Hlog Hpost]]]]]]]]]].
  { split; [intros i p projectId []|].
    split; [intros c [] | intros Hne; contradiction Hne; reflexivity]. }
  assert (Hpost' : forall c, In c post -> isLabelCall c = true).
  { destruct Hpost as [[_ ->] | [_ [-> | [names [_ [_ [-> | [ids ->]]]]]]]];
      intros c Hc; cbn [In] in Hc; intuition (subst; reflexivity). }
  assert (Hpre : forall c,
             In c match project_name parsed with
                  | Some n => [ResolveProjectId n]
                  | None => []
                  end ->
             exists n, project_name parsed = Some n
                       /\ c = ResolveProjectId n).
  { intros c Hc. destruct (project_name parsed) as [n|]; [|destruct Hc].
    destruct Hc as [<-|[]]. eauto. }
  assert (Hupd : forall i q, In (UpdateTask i q) log -> q = p).
  { intros i q Hq. rewrite Hlog in Hq. apply in_app_or in Hq.
    destruct Hq as [Hq | [Hq | Hq]].
    - apply Hpre in Hq. destruct Hq as [n [_ Hq]]. discriminate Hq.
    - inversion Hq. reflexivity.
    - apply Hpost' in Hq. discriminate Hq. }
  split; [|split].
  - intros i q projectId Hq Hid. apply Hupd in Hq. subst q.
    destruct Hp as [-> | [n [pid [Hn [Hr ->]]]]]; [discriminate Hid|].
    cbn [patch_project_id withProject] in Hid. inversion Hid; subst pid.
    exists n, w1. split; [|exact Hr].
    rewrite Hlog, Hn. left. reflexivity.
  - intros c Hc Hl. rewrite Hlog in Hc. apply in_app_or in Hc.
    destruct Hc as [Hc | [Hc | Hc]].
    + apply Hpre in Hc. destruct Hc as [n [_ ->]]. discriminate Hl.
    + subst c. discriminate Hl.
    + destruct Hpost as [[_ ->] | [[w2 Hu] _]]; [destruct Hc|].
      exists (id (task payload)), p, w1, w2. split; [|exact Hu].
      rewrite Hlog. apply in_or_app. right. left. reflexivity.
  - intros _. rewrite Hlog, existsb_app. cbn [existsb isUpdateCall].
    apply orb_true_r.
Qed.

Lemma handler_goes_on_without_project_and_stops_without_update_witness :
  let rp := fun (_ : jsstring) (w : unit) =>
              (@Rejected (option Z) (MkError (js "Error") (js "down")), w) in
  let ut := fun (_ : Z) (_ : TaskPatch) (w : unit) =>
              (@Rejected unit (MkError (js "Error") (js "down")), w) in
  let rl := fun (_ : list jsstring) (w : unit) => (Fulfilled [Some 5], w) in
  let stl := fun (_ : Z) (_ : list (option Z)) (w : unit) =>
               (Fulfilled tt, w) in
  let p := MkTaskPatch (Some (js "Call")) None (Some 2) None None None in
  handleLogged rp ut rl stl
    (Some (MkPayload (js "task.created")
                     (MkTask 7 (js "call !2 +Work *home") None)))
    1704888000000 (tt, [])
  = Ok (tt, [ResolveProjectId (js "Work"); UpdateTask 7 p])
  /\ existsb isUpdateCall [ResolveProjectId (js "Work"); UpdateTask 7 p]
     = true.
Proof.
  intros rp ut rl stl p.
  assert (H : handleLogged rp ut rl stl
                (Some (MkPayload (js "task.created")
                         (MkTask 7 (js "call !2 +Work *home") None)))
                1704888000000 (tt, [])
              = Ok (tt, [ResolveProjectId (js "Work"); UpdateTask 7 p]))
    by (vm_compute; reflexivity).
  split; [exact H|].
  apply (proj2 (proj2
           (@handler_goes_on_without_project_and_stops_without_update
              unit rp ut rl stl _ _ _ _ _ H))).
  discriminate.
Defined.

(** X22.  The promise of the handler is rejected exactly when the parser
    throws: for a task.created event on a task without a due date whose
    title makes [parseQuickAddRu] throw its RangeError.  No failure of
    the client rejects it.  A title with a day count beyond the range of
    [Date] is such a title: the rejection comes after the reply, and
    before any call. *)
Theorem handler_rejects_only_when_the_parser_throws (W : Type)
  (resolveProjectId : jsstring -> W -> settled (option Z) * W)
  (updateTask : Z -> TaskPatch -> W -> settled unit * W)
  (resolveLabels : list jsstring -> W
                   -> settled (list (option Z)) * W)
  (setTaskLabels : Z -> list (option Z) -> W -> settled unit * W) :
  (forall body now w,
     handleWebhook resolveProjectId updateTask resolveLabels setTaskLabels
                   body now w
     = RangeError
     <-> exists payload,
           body = Some payload
           /\ event_name payload = js "task.created"
           /\ hasDueDate (task payload) = false
           /\ parseQuickAddRu (title (task payload)) (Some now)
              = RangeError)
  /\ (forall w,
        handleWebhook resolveProjectId updateTask resolveLabels setTaskLabels
          (Some (MkPayload (js "task.created")
                   (MkTask 7 (js "x_через 99999999999 дня_") None)))
          1704888000000 w
        = RangeError).
Proof.
  split.
  - intros body now w. unfold handleWebhook. split.
    + intros H. destruct body as [payload|]; [|discriminate H].
      destruct (JsString.eqb (event_name payload) (js "task.created"))
        eqn:Ee; cbn [negb] in H; [|discriminate H].
      destruct (hasDueDate (task payload)) eqn:Ed; [discriminate H|].
      exists payload. apply jsstring_eqb_eq in Ee.
      split; [reflexivity|]. split; [exact Ee|]. split; [exact Ed|].
      destruct (parseQuickAddRu (title (task payload)) (Some now))
        as [[parsed|]|]; cbn [bind] in H; [|discriminate H | reflexivity].
      destruct (resolveProject _ parsed (buildPatch parsed) w) as [p w1].
      destruct (updateTask (id (task payload)) p w1) as [[u|e] w2];
        discriminate H.
    + intros [payload [-> [He [Hd Hp]]]].
      rewrite He, jsstring_eqb_refl, Hd, Hp. reflexivity.
  - intros w. unfold handleWebhook.
    change (JsString.eqb _ (js "task.created")) with true.
    cbn [negb task hasDueDate task_due_date title].
    replace (parseQuickAddRu (js "x_через 99999999999 дня_")
                             (Some 1704888000000))
      with (@RangeError (option ParsedTaskPatch))
      by (vm_compute; reflexivity).
    reflexivity.
Qed.


(** *** Text without digits *)

Lemma needsDigit_steps (s : jsstring) (r : regex) :
  needsDigit r = true ->
  forall a b, steps s r a b ->
    exists j c, nth_error s j = Some c /\ isDigit c = true.
Proof.
  induction r as [|c|invert items|r1 IH1 r2 IH2|r1 IH1 r2 IH2|mn mx r1 IH1
                  |i r1 IH1| |r1 IH1]; cbn [needsDigit steps];
    intros Hn a b H; try discriminate.
  - destruct H as [H _]. apply charIs_inv in H. destruct H as [c [Hc Hin]].
    exists (pos a), c. split; [exact Hc|].
    eapply digitClass_sound; eauto.
  - destruct H as [c [H1 H2]]. apply orb_prop in Hn.
    destruct Hn as [Hn | Hn]; eauto.
  - apply andb_prop in Hn. destruct Hn as [Hn1 Hn2].
    destruct H as [H | H]; eauto.
  - apply andb_prop in Hn. destruct Hn as [Hn Hn1].
    apply andb_prop in Hn. destruct Hn as [Hmin Hmax].
    apply Nat.leb_le in Hmin.
    destruct H as [n [H Hcount]].
    assert (Hpos : (1 <= n)%nat).
    { destruct Hcount as [Hc | [x [-> Hx]]]; [lia|].
      apply Nat.leb_le in Hmax. lia. }
    destruct n as [|n]; [lia|]. cbn [times] in H.
    destruct H as [c [Hc _]]. eauto.
  - destruct H as [c [Hc _]]. eauto.
Qed.

Lemma digitFree_nth (s : jsstring) (j : nat) (c : N) :
  digitFree s = true -> nth_error s j = Some c -> isDigit c = false.
Proof.
  intros Hs Hc. unfold digitFree in Hs. rewrite forallb_forall in Hs.
  apply nth_error_In in Hc. apply Hs in Hc. apply negb_true_iff, Hc.
Qed.

(** A pattern that needs a digit matches no text without digits. *)
Lemma digitFree_no_match (re : regex) (s : jsstring) :
  needsDigit re = true -> digitFree s = true -> jsmatch re s = None.
Proof.
  intros Hre Hs. destruct (jsmatch re s) as [mt|] eqn:E; [|reflexivity].
  apply jsmatch_steps in E. destruct E as [st [H _]].
  destruct (@needsDigit_steps s re Hre _ _ H) as [j [c [Hc Hd]]].
  rewrite (@digitFree_nth s j c Hs Hc) in Hd. discriminate.
Qed.

Lemma digitFree_app (a b : jsstring) :
  digitFree (a ++ b) = digitFree a && digitFree b.
Proof. apply forallb_app. Qed.

Lemma digitFree_firstn (k : nat) (s : jsstring) :
  digitFree s = true -> digitFree (firstn k s) = true.
Proof.
  revert k. induction s as [|c s IH]; intros [|k] H; auto.
  cbn [firstn digitFree forallb] in *. apply andb_prop in H.
  destruct H as [-> H]. apply (IH k H).
Qed.

Lemma digitFree_skipn (k : nat) (s : jsstring) :
  digitFree s = true -> digitFree (skipn k s) = true.
Proof.
  revert k. induction s as [|c s IH]; intros [|k] H; auto.
  cbn [skipn]. cbn [digitFree forallb] in H. apply andb_prop in H.
  apply IH, H.
Qed.

Lemma digitFree_replace (re : regex) (s : jsstring) :
  digitFree s = true -> digitFree (replace re (js " ") s) = true.
Proof.
  intros H. unfold replace. destruct (jsmatch re s) as [mt|]; [|exact H].
  rewrite !digitFree_app, digitFree_firstn, digitFree_skipn by exact H.
  reflexivity.
Qed.

Lemma digitFree_spliceAll (s : jsstring) (ms : list matched) :
  digitFree s = true ->
  forall from, digitFree (spliceAll s (js " ") from ms) = true.
Proof.
  intros H. induction ms as [|mt ms IH]; intros from; cbn [spliceAll].
  - apply digitFree_skipn, H.
  - unfold slice. rewrite !digitFree_app, IH.
    rewrite digitFree_firstn by (apply digitFree_skipn, H). reflexivity.
Qed.

Lemma digitFree_replaceAll (re : regex) (s : jsstring) :
  digitFree s = true -> digitFree (replaceAll re (js " ") s) = true.
Proof. intros H. apply digitFree_spliceAll, H. Qed.

Lemma plainTimes_erase (re : regex) (st : state) :
  plainTimes st -> plainTimes (erase re st).
Proof.
  intros [Hd H]. split; [|exact H].
  apply digitFree_replace, Hd.
Qed.

Lemma plainTimes_with_patch (f : ParsedTaskPatch -> ParsedTaskPatch)
  (st : state) :
  plainTimes st -> plainTimes (with_patch f st).
Proof. intros H. exact H. Qed.

Lemma succeeds_pure (f : state -> state) :
  (forall st, plainTimes st -> plainTimes (f st)) -> succeeds (pure f).
Proof. intros Hf st Hst. exists (f st). split; [reflexivity | auto]. Qed.

Lemma plainTimes_priority (st : state) :
  plainTimes st -> plainTimes (stagePriority st).
Proof.
  intros H. unfold stagePriority.
  destruct (jsmatch prioNumRe _); [apply plainTimes_erase, H|].
  destruct (jsmatch prioWordRe _); [apply plainTimes_erase, H | exact H].
Qed.

Lemma plainTimes_project (st : state) :
  plainTimes st -> plainTimes (stageProject st).
Proof.
  intros H. unfold stageProject.
  destruct (jsmatch projectQuotedRe _); [apply plainTimes_erase, H|].
  destruct (jsmatch projectSimpleRe _); [apply plainTimes_erase, H | exact H].
Qed.

Lemma plainTimes_labels (st : state) :
  plainTimes st -> plainTimes (stageLabels st).
Proof.
  intros [Hd H]. unfold stageLabels.
  assert (Hr : digitFree
                 (replaceAll labelSimpleRe (js " ")
                    (replaceAll labelQuotedRe (js " ") (remaining st)))
               = true)
    by (apply digitFree_replaceAll, digitFree_replaceAll, Hd).
  destruct (0 <? _)%nat; (split; [exact Hr | exact H]).
Qed.

Lemma plainTimes_explicitTime (st : state) :
  plainTimes st -> stageExplicitTime st = st.
Proof.
  intros [Hd _]. unfold stageExplicitTime.
  rewrite (@digitFree_no_match explicitTimeRe _ eq_refl Hd).
  rewrite (@digitFree_no_match hourOnlyTimeRe _ eq_refl Hd).
  reflexivity.
Qed.

Lemma plainTimes_timeMarker (st : state) :
  plainTimes st -> plainTimes (stageTimeMarker st).
Proof.
  intros H. unfold stageTimeMarker.
  destruct (jsmatch timeMarkerRe (remaining st)) as [mt|]; [|exact H].
  apply plainTimes_erase.
  destruct (lookup TIME_MARKER_MAP (toLowerCase (g1 mt))) as [tm|] eqn:E;
    [|exact H].
  apply lookup_In in E. destruct H as [Hd [Hh [Hm _]]].
  split; [exact Hd|]. split; [exact Hh|]. split; [exact Hm|].
  split; cbn; intros x Hx; inversion Hx; subst; clear Hx;
    simpl in E; intuition (subst; simpl; lia).
Qed.

Lemma plainTimes_recurrence (st : state) :
  plainTimes st -> plainTimes (stageRecurrence st).
Proof.
  intros H. unfold stageRecurrence.
  destruct (test everyDayRe _); [apply plainTimes_erase, H|].
  destruct (test everyWeekRe _); [apply plainTimes_erase, H|].
  destruct (test everyMonthRe _); [apply plainTimes_erase, H|].
  destruct (test everyHourRe _); [apply plainTimes_erase, H|].
  destruct H as [Hd H].
  rewrite (@digitFree_no_match everyNHoursRe _ eq_refl Hd).
  split; assumption.
Qed.

Lemma plainTimes_title (text : jsstring) (st : state) :
  plainTimes st -> plainTimes (stageTitle text st).
Proof. intros H. unfold stageTitle. destruct (titleChanged _ _); exact H. Qed.

Section InRange.

Variable t : Z.
Hypothesis range_lo : - maxTime <= t.
Hypothesis range_hi : t <= maxTime - 10 * msPerDay.

(** A time of day on a day at most eight days ahead is a valid date. *)
Lemma applyTime_in_range (st : state) (b : Z) :
  plainTimes st ->
  Day t * msPerDay <= b <= (Day t + 8) * msPerDay ->
  exists r, applyTime st (Some b) = Some r.
Proof.
  intros [_ [Hph [Hpm [Hmh Hmm]]]] Hb.
  pose proof (Day_bounds t) as Ht. pose proof (Day_bounds b) as Hbb.
  assert (Hday : Day b <= Day t + 8).
  { unfold Day, msPerDay in *. Z.div_mod_to_equations. lia. }
  rewrite applyTime_timeOrEndOfDay.
  assert (Hhm : 0 <= fst (timeOrEndOfDay st) <= 23
                /\ 0 <= snd (timeOrEndOfDay st) <= 59).
  { unfold timeOrEndOfDay, effectiveHour, effectiveMinute.
    rewrite Hph, Hpm.
    destruct (markerHour st) as [h|] eqn:Eh;
      [destruct (markerMinute st) as [m|] eqn:Em|]; cbn [fst snd];
      try lia.
    split; [apply Hmh | apply Hmm]; reflexivity. }
  eexists. apply atTime_Some; try lia;
    unfold maxTime, msPerDay, msPerHour, msPerMinute in *; lia.
Qed.

Lemma setDue_applyTime (st : state) (b : Z) (re : regex) :
  plainTimes st ->
  Day t * msPerDay <= b <= (Day t + 8) * msPerDay ->
  exists st', bind (setDue (applyTime st (Some b)) st)
                   (fun st2 => Ok (erase re st2)) = Ok st'
              /\ plainTimes st'.
Proof.
  intros Hst Hb. destruct (applyTime_in_range Hst Hb) as [r ->].
  rewrite setDue_iso. cbn [bind]. eexists. split; [reflexivity|].
  apply plainTimes_erase, Hst.
Qed.

Lemma startOfDay_today :
  startOfDay (Some t) = Some (Day t * msPerDay).
Proof.
  apply startOfDay_Some. unfold maxTime, msPerDay in *. lia.
Qed.

Lemma startOfDay_later (n : Z) :
  0 <= n <= 8 ->
  startOfDay (addDays (Some t) n) = Some ((Day t + n) * msPerDay).
Proof.
  intros Hn. pose proof (Day_bounds t) as Ht.
  rewrite addDays_Some by (unfold maxTime, msPerDay in *; lia).
  rewrite startOfDay_Some by (unfold maxTime, msPerDay in *; lia).
  f_equal. f_equal. unfold Day, msPerDay. Z.div_mod_to_equations. lia.
Qed.

Lemma nextWeekday_in_range (target : Z) (allowToday : bool) :
  0 <= target <= 6 ->
  exists b, nextWeekday (startOfDay (Some t)) target allowToday = Some b
            /\ Day t * msPerDay <= b <= (Day t + 8) * msPerDay.
Proof.
  intros Htarget.
  destruct (@nextWeekday_spec t target allowToday) as [r [Hr [_ [Hm Hd]]]];
    [unfold maxTime, msPerDay in *; lia | exact Htarget |].
  exists r. split; [exact Hr|].
  assert (Hq : r = Day r * msPerDay).
  { unfold Day, TimeWithinDay, msPerDay in *.
    Z.div_mod_to_equations. lia. }
  destruct allowToday; unfold msPerDay in *; lia.
Qed.

Lemma succeeds_secondDayOfWeek : succeeds (stageSecondDayOfWeek (Some t)).
Proof.
  intros st Hst. unfold stageSecondDayOfWeek.
  destruct (test _ _ && isNone _); [|eauto].
  destruct (@nextWeekday_in_range 2 true) as [b [-> Hb]]; [lia|].
  apply setDue_applyTime; [exact Hst | exact Hb].
Qed.

Lemma succeeds_everyWeekday : succeeds (stageEveryWeekday (Some t)).
Proof.
  intros st Hst. unfold stageEveryWeekday.
  destruct (if isNone _ then _ else None) as [mt|]; [|eauto].
  destruct (lookup WEEKDAY_MAP (toLowerCase (g1 mt))) as [target|] eqn:E.
  - destruct (@nextWeekday_in_range target true) as [b [-> Hb]];
      [exact (WEEKDAY_MAP_range _ E)|].
    apply setDue_applyTime; [exact Hst | exact Hb].
  - cbn [bind]. eexists. split; [reflexivity|].
    apply plainTimes_erase, Hst.
Qed.

Lemma succeeds_everyDayOfMonth : succeeds (stageEveryDayOfMonth (Some t)).
Proof.
  intros st Hst. unfold stageEveryDayOfMonth.
  destruct Hst as [Hd H].
  rewrite (@digitFree_no_match everyDayOfMonthRe _ eq_refl Hd).
  exists st. split; [destruct (isNone _); reflexivity|].
  split; assumption.
Qed.

Lemma succeeds_dateExpressions : succeeds (stageDateExpressions (Some t)).
Proof.
  intros st Hst. unfold stageDateExpressions.
  pose proof (Day_bounds t) as Ht.
  destruct (isNone (due_date (patch st))); [|eauto].
  destruct (test todayRe (remaining st)).
  { rewrite startOfDay_today.
    apply setDue_applyTime; [exact Hst | unfold msPerDay in *; lia]. }
  destruct (test tomorrowRe (remaining st)).
  { rewrite startOfDay_later by lia.
    apply setDue_applyTime; [exact Hst | unfold msPerDay in *; lia]. }
  destruct (test dayAfterTomorrowRe (remaining st)).
  { rewrite startOfDay_later by lia.
    apply setDue_applyTime; [exact Hst | unfold msPerDay in *; lia]. }
  rewrite (@digitFree_no_match inNDaysRe _ eq_refl (proj1 Hst)).
  destruct (jsmatch weekdayOnceRe (remaining st)) as [mt|]; [|eauto].
  destruct (lookup WEEKDAY_MAP (toLowerCase (g1 mt))) as [target|] eqn:E.
  - destruct (@nextWeekday_in_range target false) as [b [-> Hb]];
      [exact (WEEKDAY_MAP_range _ E)|].
    apply setDue_applyTime; [exact Hst | exact Hb].
  - cbn [bind]. eexists. split; [reflexivity|].
    apply plainTimes_erase, Hst.
Qed.

Lemma succeeds_timeOnly : succeeds (stageTimeOnly (Some t)).
Proof.
  intros st Hst. unfold stageTimeOnly.
  destruct (due_date (patch st)); [eauto|].
  destruct (effectiveHour st) as [h|] eqn:Eh; [|eauto].
  destruct (effectiveMinute st) as [m|] eqn:Em; [|eauto].
  assert (Hhm : 0 <= h <= 23 /\ 0 <= m <= 59).
  { destruct Hst as [_ [Hph [Hpm [Hmh Hmm]]]].
    unfold effectiveHour, effectiveMinute in *. rewrite Hph in Eh.
    rewrite Hpm in Em. auto. }
  pose proof (Day_bounds t) as Ht.
  destruct (@todayOrTomorrow_spec t h m) as [Hr _]; try lia;
    [unfold maxTime, msPerDay, msPerHour, msPerMinute in *; lia|].
  cbv zeta in Hr.
  destruct (isBefore (atTime (startOfDay (Some t)) h m) (Some t));
    rewrite Hr, setDue_iso; eauto.
Qed.

Lemma succeeds_hourlyRepeat : succeeds (stageHourlyRepeat (Some t)).
Proof.
  intros st Hst. unfold stageHourlyRepeat.
  destruct (repeat_after (patch st)) as [a|]; [|eauto].
  destruct (due_date (patch st)); [eauto|].
  destruct (a <? 86400); [|eauto].
  destruct (@ceilToHour_spec t) as [r [-> _]];
    [unfold maxTime, msPerDay, msPerHour in *; lia|].
  rewrite setDue_iso. eauto.
Qed.

Lemma succeeds_monthlyRepeat : succeeds (stageMonthlyRepeat (Some t)).
Proof.
  intros st Hst. unfold stageMonthlyRepeat.
  destruct (repeat_mode (patch st)) as [[|[| |]|]|]; eauto.
  destruct (due_date (patch st)); [eauto|].
  rewrite !applyTime_timeOrEndOfDay.
  assert (Hhm : 0 <= fst (timeOrEndOfDay st) <= 23
                /\ 0 <= snd (timeOrEndOfDay st) <= 59).
  { destruct Hst as [_ [Hph [Hpm [Hmh Hmm]]]].
    unfold timeOrEndOfDay, effectiveHour, effectiveMinute.
    rewrite Hph, Hpm.
    destruct (markerHour st) as [h|] eqn:Eh;
      [destruct (markerMinute st) as [m|] eqn:Em|]; cbn [fst snd];
      try lia.
    split; [apply Hmh | apply Hmm]; reflexivity. }
  pose proof (Day_bounds t) as Ht.
  destruct (@todayOrTomorrow_spec t (fst (timeOrEndOfDay st))
              (snd (timeOrEndOfDay st))) as [Hr _]; try lia;
    [unfold maxTime, msPerDay, msPerHour, msPerMinute in *; lia|].
  cbv zeta in Hr.
  destruct (isBefore _ (Some t)); rewrite Hr, setDue_iso; eauto.
Qed.

Lemma stages_succeed (text : jsstring) :
  Forall succeeds (stages text (Some t)).
Proof.
  unfold stages.
  repeat apply Forall_cons; try apply Forall_nil;
    first [ apply succeeds_secondDayOfWeek | apply succeeds_everyWeekday
          | apply succeeds_everyDayOfMonth | apply succeeds_dateExpressions
          | apply succeeds_timeOnly | apply succeeds_hourlyRepeat
          | apply succeeds_monthlyRepeat | apply succeeds_pure ].
  - apply plainTimes_priority.
  - apply plainTimes_project.
  - apply plainTimes_labels.
  - intros st Hst. rewrite (plainTimes_explicitTime Hst). exact Hst.
  - apply plainTimes_timeMarker.
  - apply plainTimes_recurrence.
  - apply plainTimes_title.
Qed.

End InRange.

Lemma run_succeeds (fs : list (state -> outcome state)) :
  Forall succeeds fs ->
  forall st, plainTimes st -> exists st', run fs st = Ok st'.
Proof.
  induction 1 as [|f fs Hf _ IH]; intros st Hst; cbn [run].
  - eauto.
  - destruct (Hf st Hst) as [st1 [-> H1]]. cbn [bind]. apply IH, H1.
Qed.

(** X23.  On a title without digits the parser does not throw: for a
    valid [now] at least ten days short of the end of the [Date] range,
    it returns a patch or [null].  The RangeError of [toIso] needs a
    number in the text. *)
Theorem parser_returns_on_text_without_digits (text : jsstring) (t : Z) :
  - maxTime <= t <= maxTime - 10 * msPerDay ->
  digitFree text = true ->
  exists o, parseQuickAddRu text (Some t) = Ok o.
Proof.
  intros [Hlo Hhi] Hd. unfold parseQuickAddRu.
  destruct (_ || _); [eauto|].
  destruct (@run_succeeds (stages text (Some t))
              (stages_succeed Hlo Hhi text) (initial text)) as [st ->].
  - split; [exact Hd|]. split; [reflexivity|]. split; [reflexivity|].
    split; intros x Hx; discriminate Hx.
  - cbn [bind]. eauto.
Qed.

Lemma parser_returns_on_text_without_digits_witness :
  exists o, parseQuickAddRu (js "report on friday +Work") NOW = Ok o.
Proof.
  apply (@parser_returns_on_text_without_digits
           (js "report on friday +Work") 1704888000000).
  - vm_compute. split; discriminate.
  - vm_compute. reflexivity.
Defined.
